(** * gittui: contribution graph, streaks and activity statistics

    A shallow embedding of the computational core of gittui (the
    contribution-graph component, the streak helpers of the dashboard model and
    [stats.go]) together with the properties its specification states.

    Conventions of the embedding.
    - Go's [int] is the 64-bit two's-complement integer of the platforms the
      program is built for; it is a [Z], and the additions and subtractions on
      data go through [int_add] and [int_sub], which wrap.  Loop counters that
      are bounded by the length of a slice ([streak++], [ActiveDays++],
      [hourCounts[h]++]) cannot reach 2^63 and are plain [Z] additions.
    - A run-time panic (division by zero, index out of range) is [None].
    - A contribution date is a civil date: [time.Parse("2006-01-02", _)]
      yields midnight UTC, and the streak helpers rebuild every date with
      [time.Date(y, m, d, 0, 0, 0, 0, time.UTC)].  Such a date is the number of
      days since 1970-01-01, so [AddDate(0, 0, k)] is [+ k] and
      [Equal]/[Before] are [=]/[<].
    - [time.Now()] is an explicit argument, and so is the order in which Go
      iterates over a map.
    - lipgloss, the styling library, is outside the repository: a rendered
      text is the tree of the calls made to it. *)

From Stdlib Require Import ZArith Lia Ascii String DecimalString.
From stdpp Require Import base option list gmap strings sorting.

Local Open Scope Z_scope.

(** ** Machine integers *)

Module GoInt.

Definition maxInt : Z := 2 ^ 63 - 1.
Definition minInt : Z := - 2 ^ 63.

(** Two's-complement reduction of a mathematical integer to [int]. *)
Definition wrap (z : Z) : Z := (z + 2 ^ 63) mod 2 ^ 64 - 2 ^ 63.

Definition int_add (a b : Z) : Z := wrap (a + b).

Definition int_sub (a b : Z) : Z := wrap (a - b).

(** Go's [/] on integers truncates toward zero and panics on a zero
    divisor ([None]). *)
Definition int_div (a b : Z) : option Z :=
  if b =? 0 then None else Some (wrap (Z.quot a b)).

Definition in_range (z : Z) : Prop := minInt <= z <= maxInt.

End GoInt.

Import GoInt.

(** ** Data model (graph component) *)

Definition weeksToDisplay : Z := 52.
Definition daysPerWeek : Z := 7.
Definition cellWidth : Z := 2.
Definition dayLabelWidth : Z := 4.
Definition minTerminalWidth : Z := dayLabelWidth + weeksToDisplay * cellWidth.

(** [type Contribution struct { Date time.Time; Count int }] *)
Record Contribution := mkContribution { Date : Z; Count : Z }.

(** ** Intensity classifier *)

Definition getContributionLevel (count : Z) : Z :=
  if count =? 0 then 0
  else if count <=? 3 then 1
  else if count <=? 6 then 2
  else if count <=? 9 then 3
  else 4.

(** ** Aggregate statistics *)

Record Stats := mkStats {
  Total : Z;
  ActiveDays : Z;
  TotalDays : Z;
  AverageDay : Z;
  MaxDay : Z
}.

(** One iteration of the [for _, contrib := range contributions] loop. *)
Definition stats_step (stats : Stats) (contrib : Contribution) : Stats :=
  let stats := mkStats (int_add (Total stats) (Count contrib)) (ActiveDays stats)
                       (TotalDays stats) (AverageDay stats) (MaxDay stats) in
  let stats := if Count contrib >? 0
               then mkStats (Total stats) (ActiveDays stats + 1) (TotalDays stats)
                            (AverageDay stats) (MaxDay stats)
               else stats in
  if Count contrib >? MaxDay stats
  then mkStats (Total stats) (ActiveDays stats) (TotalDays stats)
               (AverageDay stats) (Count contrib)
  else stats.

(** [None] stands for a run-time panic (integer division by zero). *)
Definition CalculateStats (contributions : list Contribution) : option Stats :=
  let stats := mkStats 0 0 (Z.of_nat (length contributions)) 0 0 in
  let stats := foldl stats_step stats contributions in
  if TotalDays stats >? 0
  then average ← int_div (Total stats) (TotalDays stats);
       Some (mkStats (Total stats) (ActiveDays stats) (TotalDays stats)
                     average (MaxDay stats))
  else Some stats.

(** ** Streaks (dashboard model helpers) *)

(** The backward scan of [calculateCurrentStreak]:
    [for i := len(contributions) - 1; i >= 0; i--], run over the reversed
    slice, with the loop variables [streak] and [expectedDate] as arguments.
    Returning [streak] without a recursive call is the source's [break]. *)
Fixpoint currentStreak_scan (today streak expectedDate : Z)
    (backwards : list Contribution) : Z :=
  match backwards with
  | [] => streak
  | contrib :: rest =>
    let contribDate := Date contrib in
    if contribDate =? expectedDate then
      if Count contrib >? 0
      then currentStreak_scan today (streak + 1) (expectedDate - 1) rest
      else streak
    else if contribDate <? expectedDate then
      if (streak =? 0) && (expectedDate =? today) then
        let expectedDate := today - 1 in
        if (contribDate =? expectedDate) && (Count contrib >? 0)
        then currentStreak_scan today (streak + 1) (expectedDate - 1) rest
        else streak
      else streak
    else currentStreak_scan today streak expectedDate rest
  end.

(** [today] is the civil date of [time.Now()]. *)
Definition calculateCurrentStreak (today : Z) (contributions : list Contribution) : Z :=
  if (length contributions =? 0)%nat then 0
  else currentStreak_scan today 0 today (rev contributions).

(** The zero [time.Time] (0001-01-01), the initial value of [prevDate]. *)
Definition zeroTimeDay : Z := -719162.

Record LongestState := mkLongest { longest : Z; current : Z; prevDate : Z }.

(** One iteration of the forward loop of [calculateLongestStreak]. *)
Definition longest_step (st : LongestState) (contrib : Contribution) : LongestState :=
  let contribDate := Date contrib in
  let current :=
    if current st >? 0 then
      let expectedDate := prevDate st + 1 in
      if negb (contribDate =? expectedDate) then 0 else current st
    else current st in
  if Count contrib >? 0 then
    let current := current + 1 in
    let longest := if current >? longest st then current else longest st in
    mkLongest longest current contribDate
  else mkLongest (longest st) 0 (prevDate st).

Definition calculateLongestStreak (contributions : list Contribution) : Z :=
  if (length contributions =? 0)%nat then 0
  else longest (foldl longest_step (mkLongest 0 0 zeroTimeDay) contributions).

(** ** Vocabulary of the statements about contribution sequences *)

(** Loop invariant of [CalculateStats] after [k] entries. *)
Definition stats_inv (k : Z) (st : Stats) : Prop :=
  0 <= ActiveDays st <= k /\
  0 <= MaxDay st <= Total st /\
  Total st <= k * MaxDay st.

(** Loop invariant of [calculateLongestStreak]. *)
Definition longest_inv (st : LongestState) : Prop :=
  0 <= current st <= longest st.

(** The mathematical sum of the counts, against which the wrapping [Total]
    is compared. *)
Definition sum_counts (l : list Contribution) : Z :=
  foldr (fun c acc => Count c + acc) 0 l.

(** Documented precondition: dates in non-decreasing order. *)
Definition dates_sorted (l : list Contribution) : Prop :=
  Sorted Z.le (Date <$> l).

(** Documented precondition: one entry per date. *)
Definition one_entry_per_date (l : list Contribution) : Prop :=
  NoDup (Date <$> l).

(** Both preconditions at once: strictly increasing dates. *)
Definition dates_increasing (l : list Contribution) : Prop :=
  StronglySorted (fun a b => Date a < Date b) l.

(** The entries of [blk] are dated [d], [d+1], ... in this order and every
    one of them has a positive count. *)
Fixpoint consecutive_from (d : Z) (blk : list Contribution) : Prop :=
  match blk with
  | [] => True
  | c :: rest => Date c = d /\ 0 < Count c /\ consecutive_from (d + 1) rest
  end.

(** The same run read backwards: dates [d], [d-1], ... *)
Fixpoint consecutive_down (d : Z) (blk : list Contribution) : Prop :=
  match blk with
  | [] => True
  | c :: rest => Date c = d /\ 0 < Count c /\ consecutive_down (d - 1) rest
  end.

(** A backward view of a sequence with strictly increasing dates, all of
    them at most [e]. *)
Fixpoint decreasing_below (e : Z) (backwards : list Contribution) : Prop :=
  match backwards with
  | [] => True
  | c :: rest => Date c <= e /\ decreasing_below (Date c - 1) rest
  end.

(** ** Grid builder *)

(** [type Graph struct { contributions []Contribution; title string; showLegend bool }] *)
Record Graph := mkGraph {
  contributions : list Contribution;
  title : string;
  showLegend : bool
}.

Definition NewGraph (contributions : list Contribution) : Graph :=
  mkGraph contributions "Contribution Activity" true.

(** [time.Time.Weekday] of a civil date, Sunday = 0; 1970-01-01 was a
    Thursday. *)
Definition Weekday (d : Z) : Z := (d + 4) mod 7.

(** [for startDate.Weekday() != time.Sunday { startDate = startDate.AddDate(0, 0, -1) }]
    with at most [n] iterations; [rewind_to_sunday_enough] shows that the loop
    has always left before the seventh. *)
Fixpoint rewind_to_sunday (n : nat) (startDate : Z) : Z :=
  match n with
  | O => startDate
  | S n =>
    if negb (Weekday startDate =? 0)
    then rewind_to_sunday n (startDate - 1)
    else startDate
  end.

Definition sundayBefore (d : Z) : Z := rewind_to_sunday 7 d.

(** [int(t.Sub(u).Hours() / 24)] on civil dates.  [Sub] saturates at the
    largest [time.Duration], 2^63 - 1 ns, a little under 106752 days. *)
Definition daysBetween (t u : Z) : Z :=
  Z.max (-106751) (Z.min 106751 (t - u)).

(** [[daysPerWeek][weeksToDisplay]int], a list of 7 rows of 52 cells. *)
Abbreviation Grid := (list (list Z)).

Definition zeroGrid : Grid :=
  replicate (Z.to_nat daysPerWeek) (replicate (Z.to_nat weeksToDisplay) 0).

(** [grid[day][week]] *)
Definition grid_get (grid : Grid) (day week : Z) : option Z :=
  if (day <? 0) || (week <? 0) then None
  else row ← grid !! Z.to_nat day; row !! Z.to_nat week.

(** [grid[day][week] = v]; the only assignment in the source sits behind the
    bounds check of [buildGrid_step]. *)
Definition grid_set (grid : Grid) (day week v : Z) : Grid :=
  alter (fun row => <[Z.to_nat week := v]> row) (Z.to_nat day) grid.

(** One iteration of the filling loop of [buildGrid]. *)
Definition buildGrid_step (startDate : Z) (grid : Grid) (contrib : Contribution) : Grid :=
  let daysSinceStart := daysBetween (Date contrib) startDate in
  let week := Z.quot daysSinceStart 7 in
  let dayOfWeek := Weekday (Date contrib) in
  if (week >=? 0) && (week <? weeksToDisplay) &&
     (dayOfWeek >=? 0) && (dayOfWeek <? daysPerWeek)
  then grid_set grid dayOfWeek week (Count contrib)
  else grid.

Definition buildGrid (g : Graph) : Grid :=
  match contributions g with
  | [] => zeroGrid
  | first :: _ =>
    let startDate := sundayBefore (Date first) in
    foldl (buildGrid_step startDate) zeroGrid (contributions g)
  end.

(** The week column the specification assigns to a date. *)
Definition week_of (anchor date : Z) : Z := (date - anchor) / 7.

Definition in_window (anchor date : Z) : Prop :=
  0 <= week_of anchor date < weeksToDisplay.

(** A grid of the declared dimensions. *)
Definition grid_shape (grid : Grid) : Prop :=
  length grid = Z.to_nat daysPerWeek /\
  Forall (fun row => length row = Z.to_nat weeksToDisplay) grid.

(** ** Activity statistics ([stats.go]) *)

(** [time.Time] of an activity: an instant, in nanoseconds since the Unix
    epoch, and the offset east of UTC, in seconds, of its location.  Offsets
    are fixed, so [AddDate(0, 0, n)] moves the instant by [n] times 24
    hours. *)
Record Time := mkTime { unixNano : Z; zoneOffset : Z }.

Definition Before (t u : Time) : bool := unixNano t <? unixNano u.

(** [t.Hour()]: the hour of the wall clock of [t]'s location. *)
Definition Hour (t : Time) : Z :=
  ((unixNano t / 10 ^ 9 + zoneOffset t) mod 86400) / 3600.

Definition AddDays (t : Time) (n : Z) : Time :=
  mkTime (unixNano t + n * 86400 * 10 ^ 9) (zoneOffset t).

(** The zero [time.Time], January 1 of year 1, UTC. *)
Definition zeroTime : Time := mkTime (-62135596800 * 10 ^ 9) 0.

(** [type Activity struct] of [github.go]. *)
Record Activity := mkActivity {
  Type_ : string;
  Repo : string;
  Action : string;
  Timestamp : Time;
  Public : bool
}.

(** [type TimeWindow int] with its three constants. *)
Definition ThisWeek : Z := 0.
Definition ThisMonth : Z := 1.
Definition ThisYear : Z := 2.

(** The [switch window] of [CalculatePeakCodingHour]; any other value leaves
    [cutoff] at the zero time. *)
Definition window_cutoff (now : Time) (window : Z) : Time :=
  if window =? ThisWeek then AddDays now (-7)
  else if window =? ThisMonth then AddDays now (-30)
  else if window =? ThisYear then AddDays now (-365)
  else zeroTime.

(** One iteration of the counting loop; [hourCounts[hour]++] reads 0 for an
    absent key. *)
Definition count_step (cutoff : Time) (hourCounts : gmap Z Z) (activity : Activity)
    : gmap Z Z :=
  if Before (Timestamp activity) cutoff then hourCounts
  else
    let hour := Hour (Timestamp activity) in
    <[hour := default 0 (hourCounts !! hour) + 1]> hourCounts.

Definition count_hours (cutoff : Time) (activities : list Activity) : gmap Z Z :=
  foldl (count_step cutoff) ∅ activities.

(** [if hours[i] > hours[j] { hours[i], hours[j] = hours[j], hours[i] }];
    both indices are below [len(hours)] wherever the loops use it. *)
Definition swap_if_greater (i j : nat) (hours : list Z) : list Z :=
  match hours !! i, hours !! j with
  | Some a, Some b => if a >? b then <[i := b]> (<[j := a]> hours) else hours
  | _, _ => hours
  end.

(** [for j := i + 1; j < len(hours); j++], with [n] iterations left. *)
Fixpoint sort_inner (i j n : nat) (hours : list Z) : list Z :=
  match n with
  | O => hours
  | S n => sort_inner i (S j) n (swap_if_greater i j hours)
  end.

(** [for i := 0; i < len(hours); i++], with [n] iterations left. *)
Fixpoint sort_outer (i n : nat) (hours : list Z) : list Z :=
  match n with
  | O => hours
  | S n => sort_outer (S i) n (sort_inner i (S i) (length hours - S i) hours)
  end.

Definition sort_hours (hours : list Z) : list Z :=
  sort_outer 0 (length hours) hours.

(** The scan for the maximum: state [(maxCount, peakHour)]. *)
Definition peak_step (hourCounts : gmap Z Z) (st : Z * Z) (hour : Z) : Z * Z :=
  let count := default 0 (hourCounts !! hour) in
  if count >? st.1 then (count, hour) else st.

(** [strings.ToLower] on the ASCII letters. *)
Definition lower_ascii (a : ascii) : ascii :=
  let n := nat_of_ascii a in
  if ((65 <=? n) && (n <=? 90))%nat then ascii_of_nat (n + 32) else a.

Fixpoint ToLower (s : string) : string :=
  match s with
  | EmptyString => EmptyString
  | String a rest => String (lower_ascii a) (ToLower rest)
  end.

(** The [%d] verb of [fmt.Sprintf]. *)
Definition itoa (z : Z) : string := NilZero.string_of_int (Z.to_int z).

Definition formatHourRange (start : Z) (startPeriod : string)
    (end_ : Z) (endPeriod : string) : string :=
  let startPeriod := ToLower startPeriod in
  let endPeriod := ToLower endPeriod in
  if String.eqb startPeriod endPeriod
  then itoa start +:+ "-" +:+ itoa end_ +:+ endPeriod
  else itoa start +:+ startPeriod +:+ "-" +:+ itoa end_ +:+ endPeriod.

Definition formatTime (hour : Z) : string := itoa hour.

(** The formatting tail of [CalculatePeakCodingHour]. *)
Definition peakString (maxCount peakHour : Z) : string :=
  if maxCount =? 0 then "No data"
  else
    let startHour := peakHour in
    let endHour := Z.rem (peakHour + 1) 24 in
    let startPeriod := if startHour >=? 12 then "PM" else "AM" in
    let displayStart :=
      if startHour >=? 12
      then (if startHour >? 12 then startHour - 12 else startHour)
      else startHour in
    let displayStart := if displayStart =? 0 then 12 else displayStart in
    let endPeriod := if endHour >=? 12 then "PM" else "AM" in
    let displayEnd :=
      if endHour >=? 12
      then (if endHour >? 12 then endHour - 12 else endHour)
      else endHour in
    let displayEnd := if displayEnd =? 0 then 12 else displayEnd in
    formatHourRange displayStart startPeriod displayEnd endPeriod.

Section MapOrder.

(** Go does not specify the order in which [for hour := range hourCounts]
    visits the keys: the order is a parameter of the model. *)
Variable range_keys : gmap Z Z -> list Z.

Definition findPeak (hourCounts : gmap Z Z) : Z * Z :=
  let hours := range_keys hourCounts in
  let hours := sort_hours hours in
  foldl (peak_step hourCounts) (0, 0) hours.

(** [now] is [time.Now()]. *)
Definition CalculatePeakCodingHour (now : Time) (activities : list Activity)
    (window : Z) : string * gmap Z Z :=
  let cutoff := window_cutoff now window in
  let hourCounts := count_hours cutoff activities in
  let '(maxCount, peakHour) := findPeak hourCounts in
  (peakString maxCount peakHour, hourCounts).

End MapOrder.

(** An admissible iteration order lists every key of the map once. *)
Definition range_order (range_keys : gmap Z Z -> list Z) : Prop :=
  forall m, range_keys m ≡ₚ (map_to_list m).*1.

(** The 12-hour clock in the words of the specification. *)
Definition clock12 (h : Z) : Z :=
  if h =? 0 then 12 else if 13 <=? h then h - 12 else h.

Definition meridiem (h : Z) : string := if h <? 12 then "am" else "pm".

Definition hour_range_label (h : Z) : string :=
  let e := (h + 1) mod 24 in
  if String.eqb (meridiem h) (meridiem e)
  then itoa (clock12 h) +:+ "-" +:+ itoa (clock12 e) +:+ meridiem e
  else itoa (clock12 h) +:+ meridiem h +:+ "-" +:+ itoa (clock12 e) +:+ meridiem e.

(** The inner loop of the sort read on a list: [x] is [hours[i]], [seen] are
    the entries already compared with it and [rest] those still to come. *)
Fixpoint bubble_min (x : Z) (seen rest : list Z) : Z * list Z :=
  match rest with
  | [] => (x, seen)
  | y :: rest =>
    if x >? y then bubble_min y (seen ++ [x]) rest
    else bubble_min x (seen ++ [y]) rest
  end.

(** What the peak scan is specified to return for a distribution [m]: on the
    empty map the initial [(0, 0)], otherwise the maximal count together with
    the lowest hour that reaches it. *)
Definition lowest_peak (m : gmap Z Z) (st : Z * Z) : Prop :=
  (m = ∅ /\ st = (0, 0)) \/
  (m !! st.2 = Some st.1 /\
   forall h c, m !! h = Some c -> c <= st.1 /\ (c = st.1 -> st.2 <= h)).

(** Every bucket of a distribution is an hour of the day with at least one
    event. *)
Definition hour_buckets (m : gmap Z Z) : Prop :=
  forall h c, m !! h = Some c -> 0 <= h < 24 /\ 1 <= c.

(** ** Calendar renderer *)

Definition colorLevelZero : string := "#161b22".
Definition colorLevelOne : string := "#0e4429".
Definition colorLevelTwo : string := "#006d32".
Definition colorLevelThree : string := "#26a641".
Definition colorLevelFour : string := "#39d353".
Definition colorTitle : string := "#58a6ff".
Definition colorLabel : string := "#7d8590".
Definition colorBorder : string := "#58a6ff".
Definition colorWarning : string := "#484f58".
Definition blockChar : string := "▄".

(** lipgloss is a library outside the repository.  The calls the renderer
    makes to it are recorded, not interpreted: a rendered text is the tree of
    the strings the program supplies and of the styles and joins it asks
    for. *)
Inductive StyleProp :=
| Bold
| Foreground (color : string)
| RoundedBorder
| BorderForeground (color : string)
| Padding (vertical horizontal : Z)
| Width (columns : Z)
| AlignCenter.

#[local] Set Warnings "-register-all".
Inductive Text :=
| Plain (s : string)
| Styled (style : list StyleProp) (t : Text)
| JoinVertical (ts : list Text)
| Join (sep : string) (ts : list Text).

(** The strings of the program that occur in a rendered text. *)
Fixpoint leaves (t : Text) : list string :=
  match t with
  | Plain s => [s]
  | Styled _ t => leaves t
  | JoinVertical ts => concat (map leaves ts)
  | Join _ ts => concat (map leaves ts)
  end.

(** A text whose outermost call is the bordered box of the width warning. *)
Definition is_warning_box (t : Text) : bool :=
  match t with
  | Styled (RoundedBorder :: _) _ => true
  | _ => false
  end.

(** The day of the year, counted from March 1, of day [doe] of a 400-year
    era of the proleptic Gregorian calendar. *)
Definition day_of_year_march (doe : Z) : Z :=
  let yoe := (doe - doe / 1460 + doe / 36524 - doe / 146096) / 365 in
  doe - (365 * yoe + yoe / 4 - yoe / 100).

(** [time.Time.Month] of a civil date (1 = January), by the usual
    days-to-civil conversion. *)
Definition Month (z : Z) : Z :=
  let doe := (z + 719468) mod 146097 in
  let mp := (5 * day_of_year_march doe + 2) / 153 in
  if mp <? 10 then mp + 3 else mp - 9.

(** [strings.Repeat] *)
Definition Repeat (s : string) (count : Z) : string :=
  String.concat "" (replicate (Z.to_nat count) s).

Definition renderTitle (g : Graph) : Text :=
  Styled [Bold; Foreground colorTitle] (Plain (title g)).

Definition months : list string :=
  ["Jan"; "Feb"; "Mar"; "Apr"; "May"; "Jun";
   "Jul"; "Aug"; "Sep"; "Oct"; "Nov"; "Dec"].

(** [for i, ch := range monthName { if pos+i < len(labelChars) { labelChars[pos+i] = ch } }] *)
Fixpoint stamp (pos : Z) (i : Z) (monthName : list ascii) (labelChars : list ascii)
    : list ascii :=
  match monthName with
  | [] => labelChars
  | ch :: rest =>
    let labelChars :=
      if pos + i <? Z.of_nat (length labelChars)
      then <[Z.to_nat (pos + i) := ch]> labelChars
      else labelChars in
    stamp pos (i + 1) rest labelChars
  end.

(** One iteration of the week loop of [renderMonthLabels]; the state is
    [(labelChars, currentMonth)], and [None] is an index out of range. *)
Definition month_label_step (startDate : Z) (st : list ascii * Z) (week : Z)
    : option (list ascii * Z) :=
  let '(labelChars, currentMonth) := st in
  let weekStart := startDate + week * 7 in
  let month := Month weekStart - 1 in
  if negb (month =? currentMonth) then
    let pos := week * cellWidth in
    if month <? 0 then None
    else
      monthName ← months !! Z.to_nat month;
      Some (stamp pos 0 (list_ascii_of_string monthName) labelChars, month)
  else Some st.

Fixpoint month_label_loop (startDate : Z) (weeks : list Z) (st : list ascii * Z)
    : option (list ascii * Z) :=
  match weeks with
  | [] => Some st
  | week :: rest =>
    st ← month_label_step startDate st week;
    month_label_loop startDate rest st
  end.

Definition renderMonthLabels (g : Graph) : option Text :=
  match contributions g with
  | [] => Some (Plain "")
  | first :: _ =>
    let startDate := sundayBefore (Date first) in
    let totalWidth := weeksToDisplay * cellWidth in
    let labelChars := replicate (Z.to_nat totalWidth) " "%char in
    '(labelChars, _) ← month_label_loop startDate (seqZ 0 weeksToDisplay) (labelChars, -1);
    let styled := Styled [Foreground colorLabel] (Plain (string_of_list_ascii labelChars)) in
    Some (Join "" [Plain (Repeat " " dayLabelWidth); styled])
  end.

Definition getColorForLevel (level : Z) : option string :=
  let colors := [colorLevelZero; colorLevelOne; colorLevelTwo;
                 colorLevelThree; colorLevelFour] in
  if (level >=? 0) && (level <? Z.of_nat (length colors))
  then colors !! Z.to_nat level
  else Some colorLevelZero.

Definition renderCell (count : Z) : option Text :=
  let level := getContributionLevel count in
  color ← getColorForLevel level;
  let block := Styled [Foreground color] (Plain blockChar) in
  Some (Join "" [block; Plain " "]).

Definition dayLabels : list string := [""; "Mon"; ""; "Wed"; ""; "Fri"; ""].

Definition renderRow (grid : Grid) (day : Z) : option Text :=
  dayLabel ← dayLabels !! Z.to_nat day;
  let label := Styled [Foreground colorLabel; Width dayLabelWidth] (Plain dayLabel) in
  cells ← mapM (fun week => count ← grid_get grid day week; renderCell count)
               (seqZ 0 weeksToDisplay);
  Some (Join "" (label :: cells)).

Definition newline : string := String "010" "".

Definition renderGrid (grid : Grid) : option Text :=
  rows ← mapM (renderRow grid) (seqZ 0 daysPerWeek);
  Some (Join newline rows).

Definition renderLegend (g : Graph) : option Text :=
  let less := Styled [Foreground colorLabel] (Plain "Less") in
  cells ← mapM (fun level =>
                  color ← getColorForLevel level;
                  Some (Styled [Foreground color] (Plain (blockChar +:+ " "))))
               (seqZ 0 5);
  let more := Styled [Foreground colorLabel] (Plain "More") in
  let parts := [less] ++ cells ++ [more] in
  Some (Join "" [Plain (Repeat " " dayLabelWidth);
                 Join "" parts]).

(** [fmt.Sprintf("Need %d columns, have %d", minWidth, currentWidth)] *)
Definition width_detail (minWidth currentWidth : Z) : string :=
  "Need " +:+ itoa minWidth +:+ " columns, have " +:+ itoa currentWidth.

Definition full_message : string :=
  "Increase terminal width to view contribution grid".

(** The message and the detail line [renderWidthWarning] settles on. *)
Definition warning_texts (currentWidth minWidth : Z) : string * string :=
  let maxBoxWidth := int_sub currentWidth 4 in
  let message := full_message in
  let detail := width_detail minWidth currentWidth in
  if maxBoxWidth <? Z.of_nat (String.length message) then
    if maxBoxWidth <? 30 then ("Terminal too narrow", "")
    else if maxBoxWidth <? 50 then ("Increase width for graph", "")
    else (message, detail)
  else (message, detail).

Definition renderWidthWarning (currentWidth minWidth : Z) : Text :=
  let maxBoxWidth := int_sub currentWidth 4 in
  let '(message, detail) := warning_texts currentWidth minWidth in
  let style := [RoundedBorder; BorderForeground colorBorder; Padding 1 2;
                Width maxBoxWidth; AlignCenter] in
  let content := Styled [Foreground colorLabel; Bold] (Plain message) in
  let content :=
    if negb (String.eqb detail "") then
      let detailStyle := Styled [Foreground colorWarning] (Plain detail) in
      JoinVertical [content; Plain ""; detailStyle]
    else content in
  Styled style content.

(** [None] is a run-time panic. *)
Definition Render (g : Graph) : option Text :=
  let grid := buildGrid g in
  monthLabels ← renderMonthLabels g;
  body ← renderGrid grid;
  legend ← (if showLegend g
            then legend ← renderLegend g; Some [Plain newline; legend; Plain newline]
            else Some []);
  Some (Join "" ([renderTitle g; Plain (newline +:+ newline);
                  monthLabels; Plain newline; body] ++ legend)).

Definition RenderResponsive (g : Graph) (terminalWidth : Z) : option Text :=
  if terminalWidth <? minTerminalWidth
  then Some (renderWidthWarning terminalWidth minTerminalWidth)
  else Render g.

(** [p] holds on the [n] integers from [z] on; used to check the calendar
    arithmetic over one 400-year era. *)
Fixpoint holds_from (n : nat) (z : Z) (p : Z -> bool) : bool :=
  match n with
  | O => true
  | S n => p z && holds_from n (z + 1) p
  end.





(** ** Sample data for the worked examples *)

(** One admissible iteration order: the library's listing of the keys, read
    backwards. *)
Definition reversed_keys (m : gmap Z Z) : list Z := reverse (map_to_list m).*1.

Definition at_utc (seconds : Z) : Time := mkTime (seconds * 10 ^ 9) 0.

Definition push_at (t : Time) : Activity := mkActivity "PushEvent" "" "" t true.

(** 2025-01-15 00:00:00 UTC. *)
Definition jan15 : Z := 1736899200.

(** Two events in the hour from 14:00, two in the hour from 10:00, one at
    09:00 the day before, and one a month earlier. *)
Definition sample_activities : list Activity :=
  [ push_at (at_utc (jan15 + 14 * 3600 + 1800));
    push_at (at_utc (jan15 + 10 * 3600));
    push_at (at_utc (jan15 + 14 * 3600 + 2700));
    push_at (at_utc (jan15 - 86400 + 9 * 3600));
    push_at (at_utc (jan15 + 10 * 3600 + 1800));
    push_at (at_utc (jan15 - 30 * 86400 + 20 * 3600)) ].

(** 2025-01-16 12:00:00 UTC. *)
Definition sample_now : Time := at_utc (jan15 + 86400 + 12 * 3600).

(** ** Vocabulary of the further properties *)

(** The number of active days of a sequence. *)
Definition active_days (l : list Contribution) : Z :=
  Z.of_nat (length (filter (fun c => 0 < Count c) l)).

(** The five colours of the heat map, by level. *)
Definition palette : list string :=
  [colorLevelZero; colorLevelOne; colorLevelTwo; colorLevelThree; colorLevelFour].

(** The sum of the counts of a distribution, added up as the repository's
    own test does. *)
Definition distribution_total (m : gmap Z Z) : Z :=
  map_fold (fun _ count total => total + count) 0 m.

(** The events at or after the cutoff. *)
Definition events_since (cutoff : Time) (activities : list Activity) : list Activity :=
  filter (fun a => Before (Timestamp a) cutoff = false) activities.

(** The events of one hour of the day. *)
Definition events_at_hour (hour : Z) (activities : list Activity) : list Activity :=
  filter (fun a => Hour (Timestamp a) = hour) activities.

(** ** Text layout of the dashboard *)

(** [len(s)]: the number of bytes of a string. *)
Definition len (s : string) : Z := Z.of_nat (String.length s).

(** The slice [s[:n]], which panics unless [0 <= n <= len(s)]. *)
Definition slice_to (s : string) (n : Z) : option string :=
  if (0 <=? n) && (n <=? len s) then Some (substring 0 (Z.to_nat n) s) else None.

Section WrapText.

(** [strings.Fields] belongs to Go's library: it is a parameter here. *)
Variable Fields : string -> list string.

(** One round of the loop of [wrapText] on the pair [(lines, currentLine)].
    The sum of the lengths is below 2^63, it is not reduced. *)
Definition wrap_word (width : Z) (st : list string * string) (word : string)
    : option (list string * string) :=
  let '(lines, currentLine) := st in
  if len currentLine + len word + 1 >? width then
    if String.eqb currentLine "" then
      truncated ← slice_to word (int_sub width 3);
      Some (lines ++ [truncated +:+ "..."], currentLine)
    else Some (lines ++ [currentLine], word)
  else
    if String.eqb currentLine "" then Some (lines, word)
    else Some (lines, currentLine +:+ " " +:+ word).

Fixpoint wrap_words (width : Z) (st : list string * string) (words : list string)
    : option (list string * string) :=
  match words with
  | [] => Some st
  | word :: rest => st' ← wrap_word width st word; wrap_words width st' rest
  end.

Definition wrapText (text : string) (width : Z) : option (list string) :=
  if len text <=? width then Some [text]
  else
    let words := Fields text in
    '(lines, currentLine) ← wrap_words width ([], ""%string) words;
    Some (if String.eqb currentLine "" then lines else lines ++ [currentLine]).

End WrapText.

(** The line in progress, as the list of lines it adds to the result. *)
Definition pending (currentLine : string) : list string :=
  if String.eqb currentLine "" then [] else [currentLine].

(** [strings.Fields] on text whose only white space is ASCII white space. *)
Definition asciiSpace (a : ascii) : bool :=
  let n := nat_of_ascii a in
  (((9 <=? n) && (n <=? 13)) || (n =? 32))%nat.

Fixpoint asciiFields_from (current : string) (s : string) : list string :=
  match s with
  | EmptyString => if String.eqb current "" then [] else [current]
  | String a rest =>
      if asciiSpace a then
        if String.eqb current "" then asciiFields_from "" rest
        else current :: asciiFields_from "" rest
      else asciiFields_from (current +:+ String a "") rest
  end.

Definition asciiFields (s : string) : list string := asciiFields_from "" s.

Definition estimatedOtherContent : Z := 38.

(** [calculateActivityViewportHeight] reads one field of the model, the
    terminal height. *)
Definition calculateActivityViewportHeight (height : Z) : Z :=
  if height <? 20 then 5
  else
    let availableHeight := int_sub height estimatedOtherContent in
    let availableHeight := if availableHeight <? 5 then 5 else availableHeight in
    let availableHeight := if availableHeight >? 15 then 15 else availableHeight in
    availableHeight.

(** ** Hexadecimal colours of the avatar colouring *)

Definition hexDigits : string := "0123456789ABCDEF".

(** [s[i]], which panics unless [0 <= i < len(s)]. *)
Definition byte_at (s : string) (i : Z) : option ascii :=
  if 0 <=? i then String.get (Z.to_nat i) s else None.

(** The divisor is the constant 16: [/] and [%] neither panic nor overflow. *)
Definition toHex (n : Z) : option string :=
  hi ← byte_at hexDigits (Z.quot n 16);
  lo ← byte_at hexDigits (Z.rem n 16);
  Some (String hi (String lo EmptyString)).

Definition formatHex (r g b : Z) : option string :=
  r' ← toHex r; g' ← toHex g; b' ← toHex b;
  Some ("#" +:+ r' +:+ g' +:+ b').

(** One round of the loop of [parseHex]; [c - '0'] and the like stay within
    a byte in their branch. *)
Definition parseHex_step (result : Z) (c : ascii) : Z :=
  let result := wrap (result * 16) in
  let c := Z.of_nat (nat_of_ascii c) in
  if (48 <=? c) && (c <=? 57) then int_add result (c - 48)
  else if (97 <=? c) && (c <=? 102) then int_add result (c - 97 + 10)
  else if (65 <=? c) && (c <=? 70) then int_add result (c - 65 + 10)
  else result.

(** [parseHex]; its error result is always [nil] and is left out. *)
Definition parseHex (s : string) : Z :=
  foldl parseHex_step 0 (list_ascii_of_string s).

(** ** The theme registry *)

Module Themes.

Record Theme := mkTheme {
  Background : string; Foreground : string; Subtle : string;
  Blue : string; Green : string; Red : string; Yellow : string;
  Purple : string; Gray : string; Dark : string;
  ContribNone : string; ContribLow : string; ContribMed : string;
  ContribHigh : string; ContribHigher : string
}.

(** The zero value of the struct, which a map yields for a missing key. *)
Definition zeroTheme : Theme :=
  mkTheme "" "" "" "" "" "" "" "" "" "" "" "" "" "" "".

(** The package-level variables of the theme system. *)
Record Globals := mkGlobals {
  themes : gmap string Theme;
  CurrentTheme : Theme;
  currentThemeName : string;
  themeOrder : list string
}.

Definition githubDarkTheme : Theme :=
  mkTheme "#0d1117" "#c9d1d9" "#484f58"
          "#58a6ff" "#3fb950" "#f85149" "#d29922" "#8957e5" "#7d8590" "#6e7681"
          "#161b22" "#0e4429" "#006d32" "#26a641" "#39d353".

Definition draculaTheme : Theme :=
  mkTheme "#282a36" "#f8f8f2" "#44475a"
          "#8be9fd" "#50fa7b" "#ff5555" "#f1fa8c" "#bd93f9" "#6272a4" "#44475a"
          "#282a36" "#44355b" "#6d4a9e" "#9d6fc9" "#bd93f9".

Definition nordTheme : Theme :=
  mkTheme "#2e3440" "#eceff4" "#4c566a"
          "#88c0d0" "#a3be8c" "#bf616a" "#ebcb8b" "#b48ead" "#616e88" "#4c566a"
          "#2e3440" "#46586a" "#5e7a94" "#81a1c1" "#88c0d0".

(** The package-level variables when the program starts. *)
Definition startup : Globals :=
  mkGlobals (<["github-dark"%string := githubDarkTheme]>
             (<["dracula"%string := draculaTheme]>
              (<["nord"%string := nordTheme]> ∅)))
            zeroTheme "" [].

Definition builtInThemes : list string := ["github-dark"; "dracula"; "nord"]%string.

(** The loop [for _, builtIn := range names { if name == builtIn ... }]. *)
Fixpoint name_in (name : string) (names : list string) : bool :=
  match names with
  | [] => false
  | builtIn :: rest => if String.eqb name builtIn then true else name_in name rest
  end.

Definition IsBuiltInTheme (name : string) : bool := name_in name builtInThemes.

(** [sort.Strings]: the ascending order of the bytes. *)
Definition string_le (s t : string) : Prop := String.leb s t = true.

#[global] Instance string_le_dec : RelDecision string_le.
Proof. intros s t. unfold string_le. apply _. Defined.

Definition sort_Strings (names : list string) : list string :=
  merge_sort string_le names.

Section MapOrder.

(** The order in which Go iterates over a map of themes, and the result of
    reading the themes directory ([None] when it cannot be read). *)
Variable range_themes : gmap string Theme -> list (string * Theme).
Variable loadedThemes : option (gmap string Theme).

Definition register (registry : gmap string Theme) (entry : string * Theme)
    : gmap string Theme :=
  let '(name, theme) := entry in
  match registry !! name with
  | Some _ => registry
  | None => <[name := theme]> registry
  end.

Definition loadExternalThemes (g : Globals) : Globals :=
  match loadedThemes with
  | None => g
  | Some loaded =>
      mkGlobals (foldl register (themes g) (range_themes loaded))
                (CurrentTheme g) (currentThemeName g) (themeOrder g)
  end.

Definition collect_other (otherThemes : list string) (name : string) : list string :=
  if name_in name builtInThemes then otherThemes else otherThemes ++ [name].

Definition buildThemeOrder (g : Globals) : Globals :=
  let themeOrder := builtInThemes in
  let otherThemes := foldl collect_other [] (range_themes (themes g)).*1 in
  let otherThemes := sort_Strings otherThemes in
  mkGlobals (themes g) (CurrentTheme g) (currentThemeName g) (themeOrder ++ otherThemes).

(** [GITTUI_THEME] is the value of the environment variable. *)
Definition InitTheme (GITTUI_THEME : string) (g : Globals) : Globals :=
  let g := loadExternalThemes g in
  let g := buildThemeOrder g in
  let themeName := if String.eqb GITTUI_THEME "" then "github-dark"%string
                   else GITTUI_THEME in
  let '(themeName, theme) :=
    match themes g !! themeName with
    | Some theme => (themeName, theme)
    | None => ("github-dark"%string, default zeroTheme (themes g !! "github-dark"%string))
    end in
  mkGlobals (themes g) theme themeName (themeOrder g).

End MapOrder.

(** The search loop of [NextTheme]: the index of the first occurrence of the
    current name, 0 when there is none. *)
Fixpoint find_current (current : string) (names : list string) (i : Z) : Z :=
  match names with
  | [] => 0
  | name :: rest => if String.eqb name current then i else find_current current rest (i + 1)
  end.

(** Go's [%] panics on a zero divisor. *)
Definition int_rem (a b : Z) : option Z :=
  if b =? 0 then None else Some (Z.rem a b).

Definition index_at (names : list string) (i : Z) : option string :=
  if 0 <=? i then names !! Z.to_nat i else None.

Definition NextTheme (g : Globals) : option (string * Globals) :=
  let currentIndex := find_current (currentThemeName g) (themeOrder g) 0 in
  nextIndex ← int_rem (currentIndex + 1) (Z.of_nat (length (themeOrder g)));
  nextThemeName ← index_at (themeOrder g) nextIndex;
  Some (nextThemeName,
        mkGlobals (themes g) (default zeroTheme (themes g !! nextThemeName))
                  nextThemeName (themeOrder g)).

(** [NextTheme] called [n] times in a row. *)
Fixpoint NextTheme_times (n : nat) (g : Globals) : option Globals :=
  match n with
  | O => Some g
  | S n => '(_, g') ← NextTheme g; NextTheme_times n g'
  end.

(** Sample data: one theme file on disk, and the listing order of the map
    library as the order of iteration. *)
Definition listing_order (m : gmap string Theme) : list (string * Theme) :=
  map_to_list m.

Definition one_theme_on_disk : option (gmap string Theme) :=
  Some (<["solarized"%string := nordTheme]> ∅).

(** The built-in themes only, with dracula selected. *)
Definition dracula_selected : Globals :=
  mkGlobals (themes startup) draculaTheme "dracula" builtInThemes.

End Themes.

(** * Properties *)

(** Case analysis on every integer comparison of the goal. *)
Ltac case_compare :=
  repeat match goal with
  | |- context [Z.eqb ?a ?b] => destruct (Z.eqb_spec a b)
  | |- context [Z.ltb ?a ?b] => destruct (Z.ltb_spec a b)
  | |- context [Z.leb ?a ?b] => destruct (Z.leb_spec a b)
  | |- context [Z.gtb ?a ?b] => destruct (Z.gtb_spec a b)
  | |- context [Z.geb ?a ?b] => destruct (Z.geb_spec a b)
  end.

(** ** Machine integers *)

Lemma wrap_in_range z : in_range z -> wrap z = z.
Proof.
  unfold in_range, wrap, minInt, maxInt. intros H.
  rewrite Z.mod_small by lia. lia.
Qed.

Lemma wrap_range z : in_range (wrap z).
Proof.
  unfold in_range, wrap, minInt, maxInt.
  pose proof (Z.mod_pos_bound (z + 2 ^ 63) (2 ^ 64)). lia.
Qed.

Lemma int_add_exact a b : in_range (a + b) -> int_add a b = a + b.
Proof. apply wrap_in_range. Qed.

(** ** Intensity classifier *)

Lemma getContributionLevel_cases c :
  (c = 0 /\ getContributionLevel c = 0) \/
  (c <> 0 /\ c <= 3 /\ getContributionLevel c = 1) \/
  (4 <= c <= 6 /\ getContributionLevel c = 2) \/
  (7 <= c <= 9 /\ getContributionLevel c = 3) \/
  (10 <= c /\ getContributionLevel c = 4).
Proof.
  unfold getContributionLevel. case_compare; lia.
Qed.

Lemma getContributionLevel_mono c c' :
  0 <= c -> c <= c' -> getContributionLevel c <= getContributionLevel c'.
Proof.
  intros Hc Hle.
  pose proof (getContributionLevel_cases c).
  pose proof (getContributionLevel_cases c'). lia.
Qed.

(** C4. For a count [c >= 0] the classifier returns level 0 at 0, 1 on 1..3,
    2 on 4..6, 3 on 7..9 and 4 from 10 on; it is monotone non-decreasing on
    non-negative counts, and [classify 0 = 0], [classify 10 = classify 1000 = 4]. *)
Theorem getContributionLevel_thresholds (c : Z) :
  0 <= c ->
  (c = 0 -> getContributionLevel c = 0) /\
  (1 <= c <= 3 -> getContributionLevel c = 1) /\
  (4 <= c <= 6 -> getContributionLevel c = 2) /\
  (7 <= c <= 9 -> getContributionLevel c = 3) /\
  (10 <= c -> getContributionLevel c = 4) /\
  (forall c', c <= c' -> getContributionLevel c <= getContributionLevel c') /\
  getContributionLevel 0 = 0 /\
  getContributionLevel 10 = 4 /\
  getContributionLevel 1000 = 4.
Proof.
  intros Hc.
  pose proof (getContributionLevel_cases c) as H.
  repeat split; try reflexivity; try lia.
  intros c' Hle. by apply getContributionLevel_mono.
Qed.

Lemma getContributionLevel_thresholds_witness :
  0 <= 5 /\ getContributionLevel 5 = 2 /\ getContributionLevel 5 <= getContributionLevel 8.
Proof.
  split; [lia|].
  pose proof (getContributionLevel_thresholds 5 ltac:(lia)) as (_ & _ & H46 & _ & _ & Hmono & _).
  split; [apply H46; lia | apply Hmono; lia].
Defined.

(** ** Aggregate statistics *)

Lemma stats_step_fields st c :
  TotalDays (stats_step st c) = TotalDays st /\
  AverageDay (stats_step st c) = AverageDay st.
Proof.
  unfold stats_step. by destruct (Count c >? 0), (Count c >? _).
Qed.

Lemma stats_step_inv k st c :
  stats_inv k st -> 0 <= k -> 0 <= Count c -> Total st + Count c <= maxInt ->
  stats_inv (k + 1) (stats_step st c) /\
  Total (stats_step st c) = Total st + Count c.
Proof.
  intros (Ha & Hm & Ht) Hk Hc Hfit.
  assert (int_add (Total st) (Count c) = Total st + Count c) as Hadd.
  { apply int_add_exact. unfold in_range, minInt, maxInt in *. lia. }
  unfold stats_step, stats_inv. rewrite Hadd. cbn [Total ActiveDays TotalDays AverageDay MaxDay].
  destruct (Z.gtb_spec (Count c) 0); cbn [Total ActiveDays TotalDays AverageDay MaxDay];
    destruct (Z.gtb_spec (Count c) (MaxDay st)); cbn [Total ActiveDays TotalDays AverageDay MaxDay];
    (split; [|reflexivity]); repeat split; try lia; nia.
Qed.

Lemma stats_loop_inv l : forall k st,
  stats_inv k st -> 0 <= k -> Forall (fun c => 0 <= Count c) l ->
  Total st + sum_counts l <= maxInt ->
  stats_inv (k + Z.of_nat (length l)) (foldl stats_step st l) /\
  TotalDays (foldl stats_step st l) = TotalDays st /\
  AverageDay (foldl stats_step st l) = AverageDay st.
Proof.
  induction l as [|c l IH]; intros k st Hinv Hk Hnn Hfit.
  - cbn. by rewrite Z.add_0_r.
  - inversion Hnn as [|? ? Hc Hl]; subst. cbn [foldl sum_counts foldr length] in *.
    assert (0 <= sum_counts l) as Hs.
    { clear -Hl. induction Hl; cbn; [lia|]. unfold sum_counts in IHHl. lia. }
    destruct (stats_step_inv k st c Hinv Hk Hc) as [Hinv' Htot].
    { fold (sum_counts l) in Hfit. lia. }
    destruct (IH (k + 1) (stats_step st c) Hinv') as (H1 & H2 & H3); [lia|done| |].
    { rewrite Htot. fold (sum_counts l) in Hfit. lia. }
    destruct (stats_step_fields st c) as [E1 E2].
    replace (k + Z.of_nat (S (length l))) with (k + 1 + Z.of_nat (length l)) by lia.
    rewrite H2, H3, E1, E2. done.
Qed.

Lemma sum_counts_nonneg l :
  Forall (fun c => 0 <= Count c) l -> 0 <= sum_counts l.
Proof. induction 1; cbn; [lia|]. unfold sum_counts in *. lia. Qed.

Lemma stats_loop_total l : forall st,
  Forall (fun c => 0 <= Count c) l ->
  0 <= Total st -> Total st + sum_counts l <= maxInt ->
  Total (foldl stats_step st l) = Total st + sum_counts l.
Proof.
  induction l as [|c l IH]; intros st Hnn H0 Hfit; cbn [foldl sum_counts foldr].
  - lia.
  - inversion Hnn as [|? ? Hc Hl]; subst.
    pose proof (sum_counts_nonneg l Hl) as Hs.
    cbn [sum_counts foldr] in Hfit. fold (sum_counts l) in Hfit |- *.
    assert (Total (stats_step st c) = Total st + Count c) as Ht.
    { unfold stats_step. rewrite int_add_exact
        by (unfold in_range, minInt, maxInt in *; lia).
      by destruct (Count c >? 0), (Count c >? _). }
    rewrite IH; [lia|done|lia|lia].
Qed.

(** C10 (amended). For a contribution sequence with non-negative counts whose
    sum fits in an [int] (at most 2^63 - 1), [CalculateStats] returns
    statistics with [0 <= ActiveDays <= TotalDays],
    [TotalDays = len(contributions)], [0 <= AverageDay <= MaxDay] and
    [MaxDay <= Total]. *)
Theorem CalculateStats_invariants (contributions : list Contribution) :
  Forall (fun c => 0 <= Count c) contributions ->
  sum_counts contributions <= maxInt ->
  exists s, CalculateStats contributions = Some s /\
    0 <= ActiveDays s <= TotalDays s /\
    TotalDays s = Z.of_nat (length contributions) /\
    0 <= AverageDay s <= MaxDay s /\
    MaxDay s <= Total s.
Proof.
  intros Hnn Hfit. unfold CalculateStats.
  set (st0 := mkStats 0 0 (Z.of_nat (length contributions)) 0 0).
  destruct (stats_loop_inv contributions 0 st0) as ((Ha & Hm & Ht) & Hd & Hav);
    [by (unfold stats_inv; cbn; lia)|lia|done|by (cbn; lia)|].
  pose proof (stats_loop_total contributions st0 Hnn) as Htot.
  cbn [Total TotalDays AverageDay st0] in Hd, Hav, Htot. rewrite Z.add_0_l in *.
  set (n := Z.of_nat (length contributions)) in *.
  set (st := foldl stats_step st0 contributions) in *.
  rewrite Hd.
  destruct (Z.gtb_spec n 0) as [Hpos|Hzero].
  - assert (int_div (Total st) n = Some (Total st / n)) as ->.
    { unfold int_div. destruct (Z.eqb_spec n 0); [lia|].
      rewrite Z.quot_div_nonneg by lia. f_equal.
      apply wrap_in_range. unfold in_range, minInt, maxInt in *.
      assert (0 <= Total st / n) by (apply Z.div_pos; lia).
      assert (Total st / n <= Total st) by (apply Z.div_le_upper_bound; nia).
      lia. }
    eexists. split; [reflexivity|]. cbn [Total ActiveDays TotalDays AverageDay MaxDay].
    repeat split; try lia.
    + apply Z.div_pos; lia.
    + apply Z.div_le_upper_bound; lia.
  - exists st. split; [done|]. rewrite Hd, Hav. repeat split; lia.
Qed.

Lemma CalculateStats_invariants_witness :
  let l := [mkContribution 19000 3; mkContribution 19001 0; mkContribution 19002 5] in
  Forall (fun c => 0 <= Count c) l /\
  sum_counts l <= maxInt /\
  CalculateStats l = Some (mkStats 8 2 3 2 5) /\
  exists s, CalculateStats l = Some s /\ MaxDay s <= Total s.
Proof.
  cbn zeta.
  assert (Forall (fun c => 0 <= Count c)
            [mkContribution 19000 3; mkContribution 19001 0; mkContribution 19002 5]) as Hnn
    by (repeat constructor; cbn; lia).
  assert (sum_counts [mkContribution 19000 3; mkContribution 19001 0; mkContribution 19002 5]
            <= maxInt) as Hfit by (vm_compute; discriminate).
  split; [exact Hnn|]. split; [exact Hfit|]. split; [reflexivity|].
  destruct (CalculateStats_invariants _ Hnn Hfit) as (s & Hs & _ & _ & _ & Hmax).
  exists s. split; [exact Hs|exact Hmax].
Defined.

(** [CalculateStats] never panics: the division is guarded by
    [TotalDays > 0]. *)
Lemma CalculateStats_total l : is_Some (CalculateStats l).
Proof.
  unfold CalculateStats. set (st := foldl stats_step _ l).
  destruct (Z.gtb_spec (TotalDays st) 0); [|done].
  unfold int_div. destruct (Z.eqb_spec (TotalDays st) 0); [lia|]. done.
Qed.

(** C10 as stated fails when the counts overflow [int]: two days of 2^62
    contributions wrap [Total] to -2^63, below [MaxDay] and below zero. *)
Lemma CalculateStats_invariants_overflow :
  let l := [mkContribution 19000 (2 ^ 62); mkContribution 19001 (2 ^ 62)] in
  Forall (fun c => 0 <= Count c) l /\
  CalculateStats l = Some (mkStats (- 2 ^ 63) 2 2 (- 2 ^ 62) (2 ^ 62)) /\
  ~ (exists s, CalculateStats l = Some s /\
       0 <= ActiveDays s <= TotalDays s /\
       TotalDays s = Z.of_nat (length l) /\
       0 <= AverageDay s <= MaxDay s /\
       MaxDay s <= Total s).
Proof.
  cbn zeta. split; [|split].
  - repeat constructor; cbn; lia.
  - reflexivity.
  - intros (s & Hs & _ & _ & _ & H). vm_compute in Hs. injection Hs as <-.
    vm_compute in H. by apply H.
Qed.

(** ** Streaks *)

Section Streaks.

Implicit Types (l blk pre post : list Contribution) (c : Contribution).

(** *** Sequences in chronological order *)

Lemma dates_increasing_of_sorted l :
  dates_sorted l -> one_entry_per_date l -> dates_increasing l.
Proof.
  unfold dates_sorted, one_entry_per_date, dates_increasing.
  intros Hs Hnd. apply Sorted_StronglySorted in Hs; [|by intros ???; lia].
  induction l as [|c l IH]; [constructor|].
  cbn [fmap list_fmap] in Hs, Hnd.
  apply StronglySorted_inv in Hs as [Hs Hall].
  apply NoDup_cons in Hnd as [Hni Hnd].
  constructor; [by apply IH|].
  apply Forall_forall. intros c' Hin.
  assert (Date c' ∈ Date <$> l) as Hd by (by apply list_elem_of_fmap_2).
  rewrite Forall_forall in Hall. specialize (Hall _ Hd).
  assert (Date c <> Date c') by (intros E; by rewrite E in Hni).
  lia.
Qed.

Lemma decreasing_below_weaken backwards : forall e e',
  e <= e' -> decreasing_below e backwards -> decreasing_below e' backwards.
Proof. destruct backwards; cbn; [done|]. intros e e' Hle [H1 H2]. split; [lia|done]. Qed.

Lemma decreasing_below_rev l : forall e,
  dates_increasing l -> Forall (fun c => Date c <= e) l ->
  decreasing_below e (rev l).
Proof.
  unfold dates_increasing.
  induction l as [|c l IH] using rev_ind; intros e Hs Hall; [done|].
  rewrite rev_app_distr. cbn.
  apply StronglySorted_app in Hs as (Hlt & Hl & _).
  apply Forall_app in Hall as [Hall Hc].
  rewrite Forall_singleton in Hc. split; [done|].
  apply IH; [done|].
  apply Forall_forall. intros c' Hin.
  specialize (Hlt c' c Hin ltac:(by apply list_elem_of_singleton)). lia.
Qed.

Lemma consecutive_from_snoc blk : forall d c,
  consecutive_from d blk -> Date c = d + Z.of_nat (length blk) -> 0 < Count c ->
  consecutive_from d (blk ++ [c]).
Proof.
  induction blk as [|c' blk IH]; intros d c H Hd Hc.
  - cbn in *. split; [lia|done].
  - destruct H as (Hd' & Hc' & Hrest). cbn [app consecutive_from].
    repeat split; [done..|]. apply IH; [done| |done].
    cbn [length] in Hd. lia.
Qed.

Lemma consecutive_down_rev blk : forall d,
  consecutive_down d blk ->
  consecutive_from (d - Z.of_nat (length blk) + 1) (rev blk).
Proof.
  induction blk as [|c blk IH]; intros d H; [done|].
  destruct H as (Hd & Hc & Hrest). cbn [rev length].
  apply consecutive_from_snoc; [|rewrite length_rev; lia|done].
  specialize (IH _ Hrest).
  by replace (d - Z.of_nat (S (length blk)) + 1)
    with (d - 1 - Z.of_nat (length blk) + 1) by lia.
Qed.

(** *** The longest streak dominates every run of active days *)

Lemma longest_step_inv st c :
  longest_inv st ->
  longest_inv (longest_step st c) /\ longest st <= longest (longest_step st c).
Proof.
  unfold longest_inv, longest_step. intros H.
  destruct (Z.gtb_spec (current st) 0);
    [destruct (Z.eqb_spec (Date c) (prevDate st + 1)); cbn [negb]|];
    case_compare; cbn [current longest]; lia.
Qed.

Lemma longest_loop_mono l : forall st,
  longest_inv st ->
  longest_inv (foldl longest_step st l) /\ longest st <= longest (foldl longest_step st l).
Proof.
  induction l as [|c l IH]; intros st H; cbn [foldl]; [split; [done|lia]|].
  destruct (longest_step_inv st c H) as [H1 H2].
  destruct (IH _ H1) as [H3 H4]. split; [done|lia].
Qed.

(** Entering a run: whatever the state, the first active day leaves
    [current >= 1] and records its date. *)
Lemma longest_step_first st c :
  longest_inv st -> 0 < Count c ->
  1 <= current (longest_step st c) /\ prevDate (longest_step st c) = Date c.
Proof.
  unfold longest_inv, longest_step. intros H Hc.
  destruct (Z.gtb_spec (current st) 0);
    [destruct (Z.eqb_spec (Date c) (prevDate st + 1)); cbn [negb]|];
    case_compare; cbn [current prevDate]; lia.
Qed.

(** Inside a run: the next consecutive active day extends [current]. *)
Lemma longest_step_next st c :
  0 < current st -> Date c = prevDate st + 1 -> 0 < Count c ->
  current (longest_step st c) = current st + 1 /\
  prevDate (longest_step st c) = Date c.
Proof.
  unfold longest_step. intros Hcur Hd Hc.
  destruct (Z.gtb_spec (current st) 0); [|lia].
  destruct (Z.eqb_spec (Date c) (prevDate st + 1)); [|lia]. cbn [negb].
  destruct (Z.gtb_spec (Count c) 0); [|lia]. done.
Qed.

Lemma longest_loop_run blk : forall d st k,
  consecutive_from d blk -> longest_inv st ->
  0 < k -> k <= current st -> prevDate st = d - 1 ->
  k + Z.of_nat (length blk) <= current (foldl longest_step st blk).
Proof.
  induction blk as [|c blk IH]; intros d st k H Hinv Hk Hcur Hprev.
  - cbn. lia.
  - destruct H as (Hd & Hc & Hrest). cbn [foldl length].
    destruct (longest_step_next st c) as [E1 E2]; [lia..|].
    destruct (longest_step_inv st c Hinv) as [Hinv' _].
    specialize (IH (d + 1) (longest_step st c) (k + 1) Hrest Hinv').
    lia.
Qed.

Lemma longest_loop_block pre blk post st :
  longest_inv st -> forall d, consecutive_from d blk ->
  Z.of_nat (length blk) <= longest (foldl longest_step st (pre ++ blk ++ post)).
Proof.
  intros Hinv d Hrun. rewrite !foldl_app.
  destruct (longest_loop_mono pre st Hinv) as [Hinv1 _].
  set (st1 := foldl longest_step st pre) in *.
  destruct blk as [|c blk].
  - cbn [length foldl]. destruct (longest_loop_mono post st1 Hinv1) as [[? ?] _]. lia.
  - destruct Hrun as (Hd & Hc & Hrest). cbn [foldl length].
    destruct (longest_step_first st1 c Hinv1 Hc) as [Hcur Hprev].
    destruct (longest_step_inv st1 c Hinv1) as [Hinv2 _].
    pose proof (longest_loop_run blk (d + 1) _ 1 Hrest Hinv2 ltac:(lia) Hcur ltac:(lia)) as Hlen.
    destruct (longest_loop_mono blk _ Hinv2) as [Hinv3 _].
    destruct (longest_loop_mono post _ Hinv3) as [_ Hmono].
    unfold longest_inv in Hinv3. lia.
Qed.

Lemma calculateLongestStreak_block pre blk post d :
  consecutive_from d blk ->
  Z.of_nat (length blk) <= calculateLongestStreak (pre ++ blk ++ post).
Proof.
  intros Hrun. unfold calculateLongestStreak.
  destruct (Nat.eqb_spec (length (pre ++ blk ++ post)) 0) as [E|_].
  - rewrite !length_app in E. lia.
  - by eapply longest_loop_block; [unfold longest_inv; cbn|].
Qed.

(** *** The current streak is a run of active days *)

(** Once the scan has left its initial state (a day was counted, or the
    expected date is no longer today) it counts the leading entries that
    continue the run and stops at the first one that does not. *)
Lemma currentStreak_scan_chain today backwards : forall streak e,
  decreasing_below e backwards -> 0 <= streak -> (0 < streak \/ e <> today) ->
  exists blk post,
    backwards = blk ++ post /\ consecutive_down e blk /\
    currentStreak_scan today streak e backwards = streak + Z.of_nat (length blk).
Proof.
  induction backwards as [|c rest IH]; intros streak e Hdec Hs Hleft.
  - exists [], []. cbn. repeat split; lia.
  - destruct Hdec as [Hle Hdec]. cbn [currentStreak_scan].
    destruct (Z.eqb_spec (Date c) e) as [He|Hne].
    + destruct (Z.gtb_spec (Count c) 0) as [Hpos|Hzero].
      * destruct (IH (streak + 1) (e - 1)) as (blk & post & -> & Hrun & Hres);
          [by rewrite <- He|lia|lia|].
        exists (c :: blk), post. cbn [app consecutive_down length].
        repeat split; [done|lia|done|lia].
      * exists [], (c :: rest). cbn. repeat split; lia.
    + destruct (Z.ltb_spec (Date c) e) as [_|Hge]; [|lia].
      assert ((streak =? 0) && (e =? today) = false) as ->.
      { destruct Hleft; [destruct (Z.eqb_spec streak 0); [lia|done]|].
        destruct (Z.eqb_spec e today); [done|]. by rewrite andb_false_r. }
      exists [], (c :: rest). cbn. repeat split; lia.
Qed.

(** From its initial state the scan skips entries dated after today, then
    counts a run that ends today or, by the grace rule, yesterday. *)
Lemma currentStreak_scan_block today backwards : forall e0,
  decreasing_below e0 backwards ->
  exists pre blk post e,
    backwards = pre ++ blk ++ post /\ consecutive_down e blk /\
    currentStreak_scan today 0 today backwards = Z.of_nat (length blk).
Proof.
  induction backwards as [|c rest IH]; intros e0 Hdec.
  - exists [], [], [], today. by cbn.
  - destruct Hdec as [Hle Hdec]. cbn [currentStreak_scan].
    destruct (Z.eqb_spec (Date c) today) as [He|Hne].
    + destruct (Z.gtb_spec (Count c) 0) as [Hpos|Hzero].
      * destruct (currentStreak_scan_chain today rest (0 + 1) (today - 1))
          as (blk & post & -> & Hrun & Hres); [by rewrite <- He|lia|lia|].
        exists [], (c :: blk), post, today. cbn [app consecutive_down length].
        repeat split; [done|lia|done|lia].
      * exists [], [], (c :: rest), today. by cbn.
    + destruct (Z.ltb_spec (Date c) today) as [Hlt|Hge].
      * rewrite !Z.eqb_refl. cbn [andb].
        destruct (Z.eqb_spec (Date c) (today - 1)) as [Hy|Hny]; cbn [andb];
          [destruct (Z.gtb_spec (Count c) 0) as [Hpos|Hzero]|].
        -- destruct (currentStreak_scan_chain today rest (0 + 1) (today - 1 - 1))
             as (blk & post & -> & Hrun & Hres); [by rewrite <- Hy|lia|lia|].
           exists [], (c :: blk), post, (today - 1). cbn [app consecutive_down length].
           repeat split; [done|lia|done|lia].
        -- exists [], [], (c :: rest), today. by cbn.
        -- exists [], [], (c :: rest), today. by cbn.
      * destruct (IH _ Hdec) as (pre & blk & post & e & -> & Hrun & Hres).
        exists (c :: pre), blk, post, e. by cbn.
Qed.

Lemma calculateCurrentStreak_block today l :
  dates_increasing l ->
  exists pre blk post d,
    l = pre ++ blk ++ post /\ consecutive_from d blk /\
    calculateCurrentStreak today l = Z.of_nat (length blk).
Proof.
  intros Hinc. unfold calculateCurrentStreak.
  destruct (Nat.eqb_spec (length l) 0) as [E|_].
  - exists [], [], l, today. by cbn.
  - assert (exists e0, Forall (fun c => Date c <= e0) l) as [e0 Hall].
    { clear. induction l as [|c l [e IH]]; [by exists 0|].
      exists (Z.max e (Date c)). constructor; [lia|].
      eapply Forall_impl; [exact IH|]. cbn. lia. }
    destruct (currentStreak_scan_block today (rev l) e0)
      as (pre & blk & post & e & Hl & Hrun & Hres);
      [by apply decreasing_below_rev|].
    exists (rev post), (rev blk), (rev pre), (e - Z.of_nat (length blk) + 1).
    split; [|split].
    + rewrite <- (rev_involutive l), Hl, !rev_app_distr. by rewrite app_assoc.
    + by apply consecutive_down_rev.
    + by rewrite length_rev.
Qed.

(** C2. For every contribution sequence in non-decreasing date order, with
    one entry per date and non-negative counts, the longest streak is at least
    the current streak, whatever today's date is.  (The proof does not use the
    hypothesis on the counts.) *)
Theorem longest_streak_ge_current (today : Z) (contributions : list Contribution) :
  dates_sorted contributions ->
  one_entry_per_date contributions ->
  Forall (fun c => 0 <= Count c) contributions ->
  calculateCurrentStreak today contributions <= calculateLongestStreak contributions.
Proof.
  intros Hs Hnd _.
  pose proof (dates_increasing_of_sorted _ Hs Hnd) as Hinc.
  destruct (calculateCurrentStreak_block today contributions Hinc)
    as (pre & blk & post & d & -> & Hrun & ->).
  by apply (calculateLongestStreak_block pre blk post d).
Qed.

Lemma longest_streak_ge_current_witness :
  let l := [mkContribution 19000 3; mkContribution 19001 0; mkContribution 19002 5] in
  dates_sorted l /\ one_entry_per_date l /\ Forall (fun c => 0 <= Count c) l /\
  calculateCurrentStreak 19002 l = 1 /\ calculateLongestStreak l = 1 /\
  calculateCurrentStreak 19002 l <= calculateLongestStreak l.
Proof.
  cbn zeta.
  assert (dates_sorted
    [mkContribution 19000 3; mkContribution 19001 0; mkContribution 19002 5]) as Hs
    by (unfold dates_sorted; cbn; repeat constructor; lia).
  assert (one_entry_per_date
    [mkContribution 19000 3; mkContribution 19001 0; mkContribution 19002 5]) as Hnd
    by (unfold one_entry_per_date; cbn; apply (bool_decide_unpack _); vm_compute; exact I).
  assert (Forall (fun c => 0 <= Count c)
    [mkContribution 19000 3; mkContribution 19001 0; mkContribution 19002 5]) as Hnn
    by (repeat constructor; cbn; lia).
  split; [exact Hs|]. split; [exact Hnd|]. split; [exact Hnn|].
  split; [reflexivity|]. split; [reflexivity|].
  exact (longest_streak_ge_current 19002 _ Hs Hnd Hnn).
Defined.

(** The precondition of C2 is needed: with two entries on one date the
    backward scan skips the zero entry that the forward scan sees. *)
Remark longest_streak_needs_one_entry_per_date :
  let l := [mkContribution 19001 1; mkContribution 19002 0; mkContribution 19002 1] in
  dates_sorted l /\ calculateCurrentStreak 19002 l = 2 /\ calculateLongestStreak l = 1.
Proof.
  cbn zeta. split; [|split; reflexivity].
  unfold dates_sorted; cbn; repeat constructor; lia.
Qed.

(** The scenarios of the specification: a zero day breaks the run that ends
    today, and fourteen active days in a row ending today are a streak of
    fourteen, current and longest. *)
Example streak_after_a_zero_day :
  calculateCurrentStreak 19002
    [mkContribution 19000 3; mkContribution 19001 0; mkContribution 19002 5] = 1.
Proof. reflexivity. Qed.

Example streak_of_fourteen_days :
  let l := (fun i => mkContribution (19000 + i) 2) <$> seqZ 0 14 in
  calculateLongestStreak l = 14 /\ calculateCurrentStreak 19013 l = 14.
Proof. split; reflexivity. Qed.

(** *** The grace rule *)

Lemma consecutive_down_snoc blk : forall d c,
  consecutive_down d blk -> Date c = d - Z.of_nat (length blk) -> 0 < Count c ->
  consecutive_down d (blk ++ [c]).
Proof.
  induction blk as [|c' blk IH]; intros d c H Hd Hc.
  - cbn in *. split; [lia|done].
  - destruct H as (Hd' & Hc' & Hrest). cbn [app consecutive_down].
    repeat split; [done..|]. apply IH; [done| |done].
    cbn [length] in Hd. lia.
Qed.

Lemma consecutive_from_rev blk : forall d,
  consecutive_from d blk ->
  consecutive_down (d + Z.of_nat (length blk) - 1) (rev blk).
Proof.
  induction blk as [|c blk IH]; intros d H; [done|].
  destruct H as (Hd & Hc & Hrest). cbn [rev length].
  apply consecutive_down_snoc; [|rewrite length_rev; lia|done].
  specialize (IH _ Hrest).
  by replace (d + Z.of_nat (S (length blk)) - 1)
    with (d + 1 + Z.of_nat (length blk) - 1) by lia.
Qed.

(** Entries that continue the run are all counted. *)
Lemma currentStreak_scan_run today blk : forall rest streak e,
  consecutive_down e blk ->
  currentStreak_scan today streak e (blk ++ rest) =
  currentStreak_scan today (streak + Z.of_nat (length blk))
    (e - Z.of_nat (length blk)) rest.
Proof.
  induction blk as [|c blk IH]; intros rest streak e H.
  - cbn. by rewrite Z.add_0_r, Z.sub_0_r.
  - destruct H as (Hd & Hc & Hrest). cbn [app currentStreak_scan length].
    rewrite Hd, Z.eqb_refl. destruct (Z.gtb_spec (Count c) 0); [|lia].
    rewrite IH by done. f_equal; lia.
Qed.

(** The scan stops at an entry that does not continue a started run. *)
Lemma currentStreak_scan_stop today streak e c rest :
  0 < streak -> Date c <= e -> (Date c = e -> Count c <= 0) ->
  currentStreak_scan today streak e (c :: rest) = streak.
Proof.
  intros Hs Hle Hzero. cbn [currentStreak_scan].
  destruct (Z.eqb_spec (Date c) e) as [He|Hne].
  - destruct (Z.gtb_spec (Count c) 0); [specialize (Hzero He); lia|done].
  - destruct (Z.ltb_spec (Date c) e); [|lia].
    destruct (Z.eqb_spec streak 0); [lia|done].
Qed.

(** What the code does when today's entry is present with a zero count:
    the scan stops at once, there is no retry from yesterday. *)
Lemma calculateCurrentStreak_zero_today today l c :
  Date c = today -> Count c <= 0 ->
  calculateCurrentStreak today (l ++ [c]) = 0.
Proof.
  intros Hd Hc. unfold calculateCurrentStreak.
  rewrite length_app, rev_app_distr. cbn [length rev app currentStreak_scan].
  destruct (Nat.eqb_spec (length l + 1) 0); [done|].
  rewrite Hd, Z.eqb_refl. destruct (Z.gtb_spec (Count c) 0); [lia|done].
Qed.

(** The path of the grace rule that the code does take.  When the sequence
    has no entry for today (nor later), its last [n] entries are the [n] days
    immediately before today, on consecutive dates with positive counts, and
    the entry before them is not an active day adjacent to the run, the
    current streak is [n]: the scan has retried once from yesterday.  Once an
    entry for today with count 0 is appended, the current streak is 0. *)
Theorem currentStreak_grace_today_absent (today : Z) (pre run : list Contribution) :
  dates_sorted (pre ++ run) ->
  one_entry_per_date (pre ++ run) ->
  Forall (fun c => Date c < today) (pre ++ run) ->
  consecutive_from (today - Z.of_nat (length run)) run ->
  (forall c, last pre = Some c ->
     Date c = today - Z.of_nat (length run) - 1 -> Count c <= 0) ->
  calculateCurrentStreak today (pre ++ run) = Z.of_nat (length run) /\
  calculateCurrentStreak today ((pre ++ run) ++ [mkContribution today 0]) = 0.
Proof.
  intros Hs Hnd Hbefore Hrun Hmax.
  split; [|by apply calculateCurrentStreak_zero_today].
  pose proof (dates_increasing_of_sorted _ Hs Hnd) as Hinc.
  unfold calculateCurrentStreak. rewrite rev_app_distr.
  pose proof (consecutive_from_rev _ _ Hrun) as Hdown.
  replace (today - Z.of_nat (length run) + Z.of_nat (length run) - 1)
    with (today - 1) in Hdown by lia.
  (* the entry just before the run, if any, is dated before it *)
  assert (forall c, last pre = Some c -> Date c <= today - Z.of_nat (length run) - 1) as Hlast.
  { intros c Hc. apply last_Some in Hc as [pre' ->].
    destruct run as [|r run'].
    - apply Forall_app in Hbefore as [Hbefore _].
      apply Forall_app in Hbefore as [_ Hbefore].
      rewrite Forall_singleton in Hbefore. cbn [length]. lia.
    - destruct Hrun as (Hr & _ & _).
      apply StronglySorted_app in Hinc as (Hlt & _ & _).
      specialize (Hlt c r). rewrite Hr in Hlt.
      assert (Date c < today - Z.of_nat (length (r :: run'))); [|lia].
      apply Hlt; [apply elem_of_app; right; by apply list_elem_of_singleton|by left]. }
  destruct (rev run) as [|r back] eqn:Hrev.
  - (* n = 0: the retry from yesterday finds no active day *)
    assert (run = []) as -> by (by apply (f_equal (@rev _)) in Hrev;
                                rewrite rev_involutive in Hrev).
    rewrite app_nil_r in *. cbn [length app] in *.
    destruct (Nat.eqb_spec (length pre) 0); [done|].
    destruct pre as [|p pre'] using rev_ind; [done|]. clear IHpre'.
    rewrite rev_app_distr. cbn [rev app currentStreak_scan].
    specialize (Hlast p (last_snoc _ _)). specialize (Hmax p (last_snoc _ _)).
    destruct (Z.eqb_spec (Date p) today); [lia|].
    destruct (Z.ltb_spec (Date p) today); [|lia].
    rewrite !Z.eqb_refl. cbn [andb].
    destruct (Z.eqb_spec (Date p) (today - 1)) as [Hy|]; [|done].
    destruct (Z.gtb_spec (Count p) 0); [|done].
    specialize (Hmax ltac:(lia)). lia.
  - (* n >= 1: yesterday's entry is re-checked against today - 1 *)
    assert (length run = S (length back)) as Hlen
      by (by rewrite <- (length_rev run), Hrev).
    destruct (Nat.eqb_spec (length (pre ++ run)) 0) as [E|_];
      [rewrite length_app in E; lia|].
    destruct Hdown as (Hd & Hc & Hdown).
    cbn [app currentStreak_scan].
    destruct (Z.eqb_spec (Date r) today); [lia|].
    destruct (Z.ltb_spec (Date r) today); [|lia].
    rewrite !Z.eqb_refl. cbn [andb].
    destruct (Z.eqb_spec (Date r) (today - 1)); [|lia].
    destruct (Z.gtb_spec (Count r) 0); [|lia]. cbn [andb].
    rewrite currentStreak_scan_run by done.
    destruct pre as [|p pre'] using rev_ind.
    + cbn. lia.
    + clear IHpre'. rewrite rev_app_distr. cbn [rev app].
      specialize (Hlast p (last_snoc _ _)). specialize (Hmax p (last_snoc _ _)).
      rewrite currentStreak_scan_stop; [lia|lia|lia|].
      intros E. apply Hmax. lia.
Qed.

Lemma currentStreak_grace_today_absent_witness :
  let pre := [mkContribution 18997 4; mkContribution 18999 0] in
  let run := [mkContribution 19000 1; mkContribution 19001 3] in
  dates_sorted (pre ++ run) /\ one_entry_per_date (pre ++ run) /\
  Forall (fun c => Date c < 19002) (pre ++ run) /\
  consecutive_from (19002 - 2) run /\
  calculateCurrentStreak 19002 (pre ++ run) = 2 /\
  calculateCurrentStreak 19002 ((pre ++ run) ++ [mkContribution 19002 0]) = 0.
Proof.
  cbn zeta.
  set (pre := [mkContribution 18997 4; mkContribution 18999 0]).
  set (run := [mkContribution 19000 1; mkContribution 19001 3]).
  assert (dates_sorted (pre ++ run)) as Hs
    by (unfold dates_sorted; cbn; repeat constructor; lia).
  assert (one_entry_per_date (pre ++ run)) as Hnd
    by (unfold one_entry_per_date; cbn; apply (bool_decide_unpack _); vm_compute; exact I).
  assert (Forall (fun c => Date c < 19002) (pre ++ run)) as Hb
    by (repeat constructor; cbn; lia).
  assert (consecutive_from (19002 - 2) run) as Hrun by (cbn; lia).
  split; [exact Hs|]. split; [exact Hnd|]. split; [exact Hb|]. split; [exact Hrun|].
  apply (currentStreak_grace_today_absent 19002 pre run Hs Hnd Hb Hrun).
  intros c Hc Hd. cbn in Hc. injection Hc as <-. cbn. lia.
Defined.

(** C1. The grace rule on a day without contributions yet: yesterday was an
    active day after a zero day, and today's entry is present with count 0.
    The claim promises a current streak of 1 (the scan retries from
    yesterday); the code stops at today's entry and returns 0. *)
Lemma currentStreak_grace_zero_today_fails :
  let today := 19002 in
  let run := [mkContribution 19001 5] in
  let l := [mkContribution 19000 0] ++ run ++ [mkContribution today 0] in
  dates_sorted l /\ one_entry_per_date l /\
  consecutive_from (today - Z.of_nat (length run)) run /\
  calculateCurrentStreak today l = 0 /\
  calculateCurrentStreak today l <> Z.of_nat (length run).
Proof.
  cbn zeta. split; [|split; [|split; [|split]]].
  - unfold dates_sorted; cbn; repeat constructor; lia.
  - unfold one_entry_per_date; cbn; apply (bool_decide_unpack _); vm_compute; exact I.
  - cbn; lia.
  - reflexivity.
  - vm_compute. discriminate.
Qed.

End Streaks.

(** ** Grid builder *)

Section GridBuilder.

Implicit Types (grid : Grid) (c : Contribution) (l : list Contribution).

(** *** The anchor *)

Lemma Weekday_range d : 0 <= Weekday d < 7.
Proof. unfold Weekday. apply Z.mod_pos_bound. lia. Qed.

Lemma Weekday_pred d : Weekday d <> 0 -> Weekday (d - 1) = Weekday d - 1.
Proof. unfold Weekday. intros H. Z.to_euclidean_division_equations. lia. Qed.

Lemma Weekday_shift anchor d :
  Weekday anchor = 0 -> Weekday d = (d - anchor) mod 7.
Proof. unfold Weekday. intros H. Z.to_euclidean_division_equations. lia. Qed.

Lemma rewind_to_sunday_spec n : forall d,
  Weekday d <= Z.of_nat n -> rewind_to_sunday n d = d - Weekday d.
Proof.
  induction n as [|n IH]; intros d Hn; cbn [rewind_to_sunday].
  - pose proof (Weekday_range d). lia.
  - destruct (Z.eqb_spec (Weekday d) 0) as [E|Hne]; cbn [negb]; [lia|].
    rewrite IH; rewrite Weekday_pred by done; lia.
Qed.

(** The rewinding loop never needs a seventh iteration: any bound from 6 on
    gives the same date, the Sunday on or before [d]. *)
Lemma rewind_to_sunday_enough n d :
  (6 <= n)%nat -> rewind_to_sunday n d = d - Weekday d.
Proof. intros Hn. apply rewind_to_sunday_spec. pose proof (Weekday_range d). lia. Qed.

Lemma sundayBefore_spec d :
  sundayBefore d = d - Weekday d /\
  Weekday (sundayBefore d) = 0 /\
  sundayBefore d <= d < sundayBefore d + 7.
Proof.
  unfold sundayBefore. rewrite rewind_to_sunday_enough by lia.
  pose proof (Weekday_range d). repeat split; try lia.
  unfold Weekday in *. Z.to_euclidean_division_equations. lia.
Qed.

(** *** Cells *)

Lemma zeroGrid_shape : grid_shape zeroGrid.
Proof.
  unfold grid_shape, zeroGrid. rewrite length_replicate. split; [done|].
  apply Forall_replicate. by rewrite length_replicate.
Qed.

Lemma grid_set_shape grid day week v :
  grid_shape grid -> grid_shape (grid_set grid day week v).
Proof.
  unfold grid_shape, grid_set. intros [Hlen Hrows].
  rewrite length_alter. split; [done|].
  apply Forall_forall. intros row Hin.
  apply list_elem_of_lookup in Hin as [i Hi].
  destruct (decide (Z.to_nat day = i)) as [<-|Hne].
  - rewrite list_lookup_alter_eq in Hi.
    destruct (grid !! Z.to_nat day) as [row0|] eqn:Hrow; [|done].
    injection Hi as <-. rewrite length_insert.
    rewrite Forall_forall in Hrows. apply Hrows.
    apply list_elem_of_lookup. eauto.
  - rewrite list_lookup_alter_ne in Hi by done.
    rewrite Forall_forall in Hrows. apply Hrows.
    apply list_elem_of_lookup. eauto.
Qed.

Lemma grid_get_set_eq grid day week v :
  grid_shape grid ->
  0 <= day < daysPerWeek -> 0 <= week < weeksToDisplay ->
  grid_get (grid_set grid day week v) day week = Some v.
Proof.
  unfold grid_shape, grid_get, grid_set. intros [Hlen Hrows] Hd Hw.
  destruct (Z.ltb_spec day 0); [lia|]. destruct (Z.ltb_spec week 0); [lia|]. cbn [orb].
  rewrite list_lookup_alter_eq.
  destruct (grid !! Z.to_nat day) as [row|] eqn:Hrow.
  - cbn. apply list_lookup_insert_eq.
    rewrite Forall_forall in Hrows. rewrite (Hrows row).
    + unfold weeksToDisplay in *. lia.
    + apply list_elem_of_lookup. eauto.
  - apply lookup_ge_None in Hrow. unfold daysPerWeek in *. lia.
Qed.

Lemma grid_get_set_ne grid day week v day' week' :
  0 <= day -> 0 <= week ->
  (day, week) <> (day', week') ->
  grid_get (grid_set grid day week v) day' week' = grid_get grid day' week'.
Proof.
  unfold grid_get, grid_set. intros Hd Hw Hne.
  destruct (Z.ltb_spec day' 0); [done|]. destruct (Z.ltb_spec week' 0); [done|]. cbn [orb].
  destruct (decide (Z.to_nat day = Z.to_nat day')) as [E|Hday].
  - assert (day = day') as <- by lia.
    rewrite list_lookup_alter_eq.
    destruct (grid !! Z.to_nat day) as [row|]; [|done]. cbn.
    apply list_lookup_insert_ne. intros E'. apply Hne. f_equal. lia.
  - by rewrite list_lookup_alter_ne.
Qed.

Lemma zeroGrid_get day week :
  0 <= day < daysPerWeek -> 0 <= week < weeksToDisplay ->
  grid_get zeroGrid day week = Some 0.
Proof.
  unfold grid_get, zeroGrid, daysPerWeek, weeksToDisplay. intros Hd Hw.
  destruct (Z.ltb_spec day 0); [lia|]. destruct (Z.ltb_spec week 0); [lia|]. cbn [orb].
  rewrite lookup_replicate_2 by lia. cbn.
  apply lookup_replicate_2. lia.
Qed.

(** *** The filling loop *)

Section Anchored.

Variable anchor : Z.
Hypothesis anchor_sunday : Weekday anchor = 0.

(** An in-window contribution dated on or after the anchor is written into
    its cell. *)
Lemma buildGrid_step_in grid c :
  anchor <= Date c -> week_of anchor (Date c) < weeksToDisplay ->
  buildGrid_step anchor grid c =
  grid_set grid (Weekday (Date c)) (week_of anchor (Date c)) (Count c).
Proof.
  unfold buildGrid_step, week_of, weeksToDisplay, daysPerWeek, daysBetween.
  intros Hge Hw. pose proof (Weekday_range (Date c)).
  assert (Date c - anchor < 364) by (Z.to_euclidean_division_equations; lia).
  rewrite Z.min_r, Z.max_r by lia.
  rewrite Z.quot_div_nonneg by lia.
  assert (0 <= (Date c - anchor) / 7) by (apply Z.div_pos; lia).
  destruct (Z.geb_spec ((Date c - anchor) / 7) 0); [|lia].
  destruct (Z.ltb_spec ((Date c - anchor) / 7) 52); [|lia].
  destruct (Z.geb_spec (Weekday (Date c)) 0); [|lia].
  destruct (Z.ltb_spec (Weekday (Date c)) 7); [|lia]. done.
Qed.

(** A contribution past the last week column is dropped. *)
Lemma buildGrid_step_out grid c :
  anchor <= Date c -> weeksToDisplay <= week_of anchor (Date c) ->
  buildGrid_step anchor grid c = grid.
Proof.
  unfold buildGrid_step, week_of, weeksToDisplay, daysPerWeek, daysBetween.
  intros Hge Hw.
  assert (364 <= Date c - anchor) by (Z.to_euclidean_division_equations; lia).
  rewrite Z.max_r by lia.
  assert (52 <= Z.min 106751 (Date c - anchor) ÷ 7) as Hq.
  { rewrite Z.quot_div_nonneg by lia. apply Z.div_le_lower_bound; lia. }
  destruct (Z.ltb_spec (Z.min 106751 (Date c - anchor) ÷ 7) 52); [lia|].
  by rewrite andb_false_r.
Qed.

Lemma buildGrid_step_shape grid c :
  grid_shape grid -> grid_shape (buildGrid_step anchor grid c).
Proof.
  intros H. unfold buildGrid_step.
  destruct (_ && _); [by apply grid_set_shape|done].
Qed.

Lemma buildGrid_loop_shape l : forall grid,
  grid_shape grid -> grid_shape (foldl (buildGrid_step anchor) grid l).
Proof.
  induction l as [|c l IH]; intros grid H; cbn [foldl]; [done|].
  by apply IH, buildGrid_step_shape.
Qed.

(** The cell of a date on or after the anchor determines the date. *)
Lemma cell_injective d d' :
  anchor <= d -> anchor <= d' ->
  (Weekday d, week_of anchor d) = (Weekday d', week_of anchor d') -> d = d'.
Proof.
  intros Hd Hd' [= Hday Hweek].
  rewrite !(Weekday_shift anchor) in Hday by done. unfold week_of in Hweek.
  Z.to_euclidean_division_equations. lia.
Qed.

(** A cell that no contribution of [l] addresses keeps its value. *)
Lemma buildGrid_loop_preserves l : forall grid day week,
  Forall (fun c => anchor <= Date c /\
                   (Weekday (Date c), week_of anchor (Date c)) <> (day, week)) l ->
  grid_get (foldl (buildGrid_step anchor) grid l) day week = grid_get grid day week.
Proof.
  induction l as [|c l IH]; intros grid day week Hall; cbn [foldl]; [done|].
  inversion Hall as [|? ? [Hge Hne] Hrest]; subst.
  rewrite IH by done.
  destruct (Z.lt_ge_cases (week_of anchor (Date c)) weeksToDisplay).
  - rewrite buildGrid_step_in by done.
    apply grid_get_set_ne; [pose proof (Weekday_range (Date c)); lia| |done].
    unfold week_of. apply Z.div_pos; lia.
  - by rewrite buildGrid_step_out.
Qed.

Lemma buildGrid_loop_read l : forall grid c,
  grid_shape grid ->
  Forall (fun c => anchor <= Date c) l ->
  one_entry_per_date l ->
  c ∈ l -> week_of anchor (Date c) < weeksToDisplay ->
  grid_get (foldl (buildGrid_step anchor) grid l)
    (Weekday (Date c)) (week_of anchor (Date c)) = Some (Count c).
Proof.
  unfold one_entry_per_date.
  induction l as [|c0 l IH]; intros grid c Hshape Hge Hnd Hin Hw; [by inversion Hin|].
  cbn [fmap list_fmap] in Hnd. apply NoDup_cons in Hnd as [Hfresh Hnd].
  inversion Hge as [|? ? Hge0 Hgel]; subst. cbn [foldl].
  apply elem_of_cons in Hin as [->|Hin].
  - rewrite buildGrid_loop_preserves.
    + rewrite buildGrid_step_in by done.
      apply grid_get_set_eq; [done|pose proof (Weekday_range (Date c0)); by unfold daysPerWeek|].
      split; [|done]. unfold week_of. apply Z.div_pos; lia.
    + apply Forall_forall. intros c' Hc'.
      rewrite Forall_forall in Hgel. split; [by apply Hgel|].
      intros E. apply cell_injective in E; [|by apply Hgel|done].
      apply Hfresh. rewrite <- E. by apply list_elem_of_fmap_2.
  - apply IH; [by apply buildGrid_step_shape|done..].
Qed.

End Anchored.

Lemma first_date_least first rest c :
  dates_sorted (first :: rest) -> c ∈ first :: rest -> Date first <= Date c.
Proof.
  unfold dates_sorted. intros Hs Hin. cbn [fmap list_fmap] in Hs.
  apply Sorted_StronglySorted in Hs; [|by intros ???; lia].
  apply StronglySorted_inv in Hs as [_ Hall].
  apply elem_of_cons in Hin as [->|Hin]; [lia|].
  rewrite Forall_forall in Hall. apply Hall. by apply list_elem_of_fmap_2.
Qed.

(** C3. Grid round trip with windowing.  The empty sequence gives the all-zero
    grid.  For a non-empty sequence in non-decreasing date order with one entry
    per date, with [anchor] the Sunday on or before the first date: the loop
    starts from that anchor; every contribution whose week [(date - anchor) / 7]
    lies in [0, 52) is read back from [grid[weekday(date)][week]] with its
    count; every other contribution leaves the grid as it was, so that a cell
    no in-window contribution addresses stays 0. *)
Theorem buildGrid_round_trip (g : Graph) :
  dates_sorted (contributions g) ->
  one_entry_per_date (contributions g) ->
  (contributions g = [] ->
     buildGrid g = zeroGrid /\
     forall day week, 0 <= day < daysPerWeek -> 0 <= week < weeksToDisplay ->
       grid_get (buildGrid g) day week = Some 0) /\
  (forall first rest anchor,
     contributions g = first :: rest ->
     Weekday anchor = 0 -> anchor <= Date first < anchor + 7 ->
     sundayBefore (Date first) = anchor /\
     (forall c, c ∈ contributions g -> in_window anchor (Date c) ->
        grid_get (buildGrid g) (Weekday (Date c)) (week_of anchor (Date c))
        = Some (Count c)) /\
     (forall c grid, c ∈ contributions g -> ~ in_window anchor (Date c) ->
        buildGrid_step (sundayBefore (Date first)) grid c = grid) /\
     (forall day week,
        0 <= day < daysPerWeek -> 0 <= week < weeksToDisplay ->
        (forall c, c ∈ contributions g -> in_window anchor (Date c) ->
           (Weekday (Date c), week_of anchor (Date c)) <> (day, week)) ->
        grid_get (buildGrid g) day week = Some 0)).
Proof.
  intros Hs Hnd. split.
  - intros Hnil. unfold buildGrid. rewrite Hnil. split; [done|].
    intros day week Hd Hw. by apply zeroGrid_get.
  - intros first rest anchor Hl Hsun Hnear.
    assert (sundayBefore (Date first) = anchor) as Hanchor.
    { destruct (sundayBefore_spec (Date first)) as (-> & _ & _).
      unfold Weekday in *. Z.to_euclidean_division_equations. lia. }
    split; [done|]. rewrite Hanchor.
    assert (Forall (fun c => anchor <= Date c) (contributions g)) as Hge.
    { apply Forall_forall. intros c Hc. rewrite Hl in Hs, Hc.
      pose proof (first_date_least _ _ _ Hs Hc). lia. }
    assert (forall c, c ∈ contributions g -> 0 <= week_of anchor (Date c)) as Hweek.
    { intros c Hc. rewrite Forall_forall in Hge. specialize (Hge c Hc).
      unfold week_of. apply Z.div_pos; lia. }
    split; [|split].
    + intros c Hc [_ Hw]. unfold buildGrid. rewrite Hl, Hanchor, <- Hl.
      apply buildGrid_loop_read; [done|apply zeroGrid_shape|done..].
    + intros c grid Hc Hout. rewrite Forall_forall in Hge.
      apply buildGrid_step_out; [by apply Hge|].
      unfold in_window in Hout. specialize (Hweek c Hc). lia.
    + intros day week Hd Hw Hfree. unfold buildGrid. rewrite Hl, Hanchor, <- Hl.
      rewrite buildGrid_loop_preserves; [by apply zeroGrid_get|].
      apply Forall_forall. intros c Hc. rewrite Forall_forall in Hge.
      split; [by apply Hge|].
      destruct (Z.lt_ge_cases (week_of anchor (Date c)) weeksToDisplay) as [Hin|Hout].
      * apply Hfree; [done|]. split; [by apply Hweek|done].
      * intros [= _ E]. lia.
Qed.

Lemma buildGrid_round_trip_witness :
  let late := mkContribution 19500 7 in
  let g := NewGraph [mkContribution 19000 3; mkContribution 19001 0;
                     mkContribution 19002 5; late] in
  dates_sorted (contributions g) /\ one_entry_per_date (contributions g) /\
  Weekday 18994 = 0 /\ 18994 <= 19000 < 18994 + 7 /\
  grid_get (buildGrid g) (Weekday 19002) (week_of 18994 19002) = Some 5 /\
  ~ in_window 18994 (Date late) /\
  buildGrid_step (sundayBefore 19000) (buildGrid g) late = buildGrid g.
Proof.
  cbn zeta.
  set (g := NewGraph [mkContribution 19000 3; mkContribution 19001 0;
                      mkContribution 19002 5; mkContribution 19500 7]).
  assert (dates_sorted (contributions g)) as Hs
    by (unfold dates_sorted; cbn; repeat constructor; lia).
  assert (one_entry_per_date (contributions g)) as Hnd
    by (unfold one_entry_per_date; cbn; apply (bool_decide_unpack _); vm_compute; exact I).
  assert (~ in_window 18994 (Date (mkContribution 19500 7))) as Hout
    by (unfold in_window; vm_compute; intros [_ H]; discriminate H).
  destruct (buildGrid_round_trip g Hs Hnd) as [_ Hne].
  destruct (Hne (mkContribution 19000 3) _ 18994 eq_refl eq_refl ltac:(cbn; lia))
    as (_ & Hread & Hdrop & _).
  split; [exact Hs|]. split; [exact Hnd|]. split; [reflexivity|]. split; [lia|].
  split; [|split; [exact Hout|]].
  - apply (Hread (mkContribution 19002 5)).
    + cbn. repeat constructor.
    + unfold in_window. vm_compute. split; [discriminate|reflexivity].
  - apply Hdrop; [cbn; repeat constructor|exact Hout].
Defined.

End GridBuilder.

(** ** Peak coding hour *)

(** *** The hand-written sort *)

Lemma swap_if_greater_spec pre x seen y rest :
  swap_if_greater (length pre) (length pre + 1 + length seen)
    (pre ++ x :: seen ++ y :: rest) =
  if x >? y then pre ++ y :: seen ++ x :: rest
  else pre ++ x :: seen ++ y :: rest.
Proof.
  unfold swap_if_greater.
  rewrite list_lookup_middle by done.
  replace (pre ++ x :: seen ++ y :: rest) with ((pre ++ x :: seen) ++ y :: rest)
    by (by rewrite <- app_assoc).
  rewrite list_lookup_middle by (rewrite length_app; cbn; lia).
  destruct (x >? y); [|done].
  replace (length pre + 1 + length seen)%nat with (length (pre ++ x :: seen) + 0)%nat
    by (rewrite length_app; cbn; lia).
  rewrite insert_app_r. cbn [insert list_insert].
  rewrite <- app_assoc. cbn [app].
  replace (length pre) with (length pre + 0)%nat at 1 by lia.
  by rewrite insert_app_r.
Qed.

Lemma sort_inner_spec rest : forall pre x seen,
  sort_inner (length pre) (length pre + 1 + length seen) (length rest)
    (pre ++ x :: seen ++ rest) =
  pre ++ (bubble_min x seen rest).1 :: (bubble_min x seen rest).2.
Proof.
  induction rest as [|y rest IH]; intros pre x seen; cbn [length sort_inner bubble_min].
  - by rewrite app_nil_r.
  - rewrite swap_if_greater_spec.
    replace (S (length pre + 1 + length seen))
      with (length pre + 1 + length (seen ++ [x]))%nat
      by (rewrite length_app; cbn; lia).
    destruct (x >? y).
    + replace (pre ++ y :: seen ++ x :: rest) with (pre ++ y :: (seen ++ [x]) ++ rest)
        by (by rewrite <- app_assoc).
      apply IH.
    + replace (length (seen ++ [x])) with (length (seen ++ [y]))
        by (by rewrite !length_app).
      replace (pre ++ x :: seen ++ y :: rest) with (pre ++ x :: (seen ++ [y]) ++ rest)
        by (by rewrite <- app_assoc).
      apply IH.
Qed.

Lemma bubble_min_perm rest : forall x seen,
  (bubble_min x seen rest).1 :: (bubble_min x seen rest).2 ≡ₚ x :: seen ++ rest.
Proof.
  induction rest as [|y rest IH]; intros x seen; cbn [bubble_min].
  - by rewrite app_nil_r.
  - destruct (x >? y); rewrite IH, <- app_assoc; cbn [app].
    + rewrite (Permutation_middle seen (y :: rest) x).
      rewrite <- !Permutation_middle. apply perm_swap.
    + done.
Qed.

Lemma bubble_min_least rest : forall x seen,
  Forall (Z.le x) seen ->
  Forall (Z.le (bubble_min x seen rest).1) (bubble_min x seen rest).2.
Proof.
  induction rest as [|y rest IH]; intros x seen Hseen; cbn [bubble_min]; [done|].
  destruct (Z.gtb_spec x y).
  - apply IH. apply Forall_app. split; [|by apply Forall_singleton; lia].
    eapply Forall_impl; [exact Hseen|]. cbn. lia.
  - apply IH. apply Forall_app. split; [done|]. apply Forall_singleton. lia.
Qed.

Lemma sort_outer_spec n : forall pre suf,
  length suf = n ->
  exists suf', sort_outer (length pre) n (pre ++ suf) = pre ++ suf' /\
               suf' ≡ₚ suf /\ StronglySorted Z.le suf'.
Proof.
  induction n as [|n IH]; intros pre suf Hlen.
  - destruct suf; [|done]. exists []. cbn. repeat split; constructor.
  - destruct suf as [|x rest]; [done|]. injection Hlen as Hlen.
    cbn [sort_outer].
    replace (length (pre ++ x :: rest) - S (length pre))%nat with (length rest)
      by (rewrite length_app; cbn; lia).
    pose proof (sort_inner_spec rest pre x []) as Hin.
    cbn [length app] in Hin. rewrite Nat.add_0_r, Nat.add_1_r in Hin. rewrite Hin.
    pose proof (bubble_min_perm rest x []) as Hperm.
    pose proof (bubble_min_least rest x [] ltac:(constructor)) as Hleast.
    destruct (bubble_min x [] rest) as [m r]. cbn [fst snd app] in *.
    destruct (IH (pre ++ [m]) r) as (r' & Heq & Hp & Hsorted).
    { apply Permutation_length in Hperm. cbn in Hperm. lia. }
    rewrite length_app in Heq. cbn [length] in Heq. rewrite Nat.add_1_r in Heq.
    rewrite <- app_assoc in Heq. cbn [app] in Heq.
    exists (m :: r'). split; [by rewrite Heq, <- app_assoc|]. split.
    + by rewrite Hp.
    + constructor; [done|]. by rewrite Hp.
Qed.

(** The two loops of [CalculatePeakCodingHour] sort the hours ascending. *)
Lemma sort_hours_sorted hours :
  sort_hours hours ≡ₚ hours /\ StronglySorted Z.le (sort_hours hours).
Proof.
  unfold sort_hours.
  destruct (sort_outer_spec (length hours) [] hours eq_refl) as (s & Heq & Hp & Hs).
  cbn [length app] in Heq. by rewrite Heq.
Qed.

(** *** The scan for the maximum *)

Lemma peak_scan m ks :
  StronglySorted Z.lt ks ->
  (forall k, k ∈ ks -> exists c, m !! k = Some c /\ 1 <= c) ->
  let st := foldl (peak_step m) (0, 0) ks in
  (ks = [] /\ st = (0, 0)) \/
  (st.2 ∈ ks /\ m !! st.2 = Some st.1 /\
   forall k c, k ∈ ks -> m !! k = Some c -> c <= st.1 /\ (c = st.1 -> st.2 <= k)).
Proof.
  induction ks as [|k ks IH] using rev_ind; intros Hs Hpos; cbn zeta; [by left|].
  right. rewrite foldl_app. cbn [foldl].
  apply StronglySorted_app in Hs as (Hlt & Hks & _).
  destruct (Hpos k) as (ck & Hk & Hck); [apply elem_of_app; right; by left|].
  specialize (IH Hks (fun k' Hin => Hpos k' ltac:(apply elem_of_app; by left))).
  cbn zeta in IH.
  assert (forall st, peak_step m st k = if ck >? st.1 then (ck, k) else st) as Hstep
    by (intros st; unfold peak_step; by rewrite Hk).
  rewrite Hstep.
  destruct IH as [[-> ->]|(Hin & Hph & Hmax)].
  - cbn [fst]. destruct (Z.gtb_spec ck 0); [|lia]. cbn [fst snd].
    split; [by left|]. split; [done|].
    intros k' c Hin' Hc. apply list_elem_of_singleton in Hin' as ->.
    rewrite Hk in Hc. injection Hc as <-. lia.
  - set (st := foldl (peak_step m) (0, 0) ks) in *.
    destruct (Z.gtb_spec ck st.1) as [Hgt|Hle]; cbn [fst snd].
    + split; [apply elem_of_app; right; by left|]. split; [done|].
      intros k' c Hin' Hc. apply elem_of_app in Hin' as [Hin'|Hin'].
      * destruct (Hmax k' c Hin' Hc). lia.
      * apply list_elem_of_singleton in Hin' as ->.
        rewrite Hk in Hc. injection Hc as <-. lia.
    + split; [apply elem_of_app; by left|]. split; [done|].
      intros k' c Hin' Hc. apply elem_of_app in Hin' as [Hin'|Hin'].
      * by apply Hmax.
      * apply list_elem_of_singleton in Hin' as ->.
        rewrite Hk in Hc. injection Hc as <-. split; [done|].
        intros _. specialize (Hlt st.2 k Hin ltac:(by left)). lia.
Qed.

Lemma sorted_keys_increasing range_keys m :
  range_order range_keys ->
  sort_hours (range_keys m) ≡ₚ (map_to_list m).*1 /\
  StronglySorted Z.lt (sort_hours (range_keys m)).
Proof.
  intros Hord. destruct (sort_hours_sorted (range_keys m)) as [Hp Hs].
  assert (sort_hours (range_keys m) ≡ₚ (map_to_list m).*1) as Hkeys
    by (by rewrite Hp).
  split; [done|].
  assert (NoDup (sort_hours (range_keys m))) as Hnd
    by (rewrite Hkeys; apply NoDup_fst_map_to_list).
  revert Hs Hnd. generalize (sort_hours (range_keys m)). clear.
  induction l as [|x l IH]; intros Hs Hnd; [constructor|].
  apply StronglySorted_inv in Hs as [Hs Hall].
  apply NoDup_cons in Hnd as [Hx Hnd].
  constructor; [by apply IH|].
  apply Forall_forall. intros y Hy. rewrite Forall_forall in Hall.
  specialize (Hall y Hy). assert (x <> y) by (by intros ->). lia.
Qed.

Lemma findPeak_lowest range_keys m :
  range_order range_keys -> hour_buckets m ->
  lowest_peak m (findPeak range_keys m).
Proof.
  intros Hord Hm. unfold findPeak, lowest_peak.
  destruct (sorted_keys_increasing range_keys m Hord) as [Hkeys Hs].
  assert (forall k, k ∈ sort_hours (range_keys m) <-> is_Some (m !! k)) as Hdom.
  { intros k. rewrite Hkeys, list_elem_of_fmap. split.
    - intros ([k' c] & -> & Hin). apply elem_of_map_to_list in Hin. by exists c.
    - intros [c Hc]. exists (k, c). split; [done|]. by apply elem_of_map_to_list. }
  destruct (peak_scan m _ Hs) as [[Hnil ->]|(Hin & Hph & Hmax)].
  - intros k Hin. apply Hdom in Hin as [c Hc]. exists c. split; [done|].
    by destruct (Hm k c Hc).
  - left. split; [|done]. apply map_empty. intros k.
    apply eq_None_not_Some. rewrite <- Hdom, Hnil. by intros ?%elem_of_nil.
  - right. split; [done|]. intros h c Hc. apply Hmax; [|done].
    apply Hdom. by exists c.
Qed.

Lemma lowest_peak_unique m st st' :
  lowest_peak m st -> lowest_peak m st' -> st = st'.
Proof.
  intros [[Hm ->]|[Hph Hmax]] [[Hm' ->]|[Hph' Hmax']]; [done| | |].
  - subst m. by rewrite lookup_empty in Hph'.
  - subst m. by rewrite lookup_empty in Hph.
  - destruct st as [mc ph], st' as [mc' ph']. cbn [fst snd] in *.
    destruct (Hmax _ _ Hph') as [H1 H2]. destruct (Hmax' _ _ Hph) as [H3 H4].
    assert (mc = mc') by lia. subst. f_equal. specialize (H2 eq_refl).
    specialize (H4 eq_refl). lia.
Qed.

(** *** The distribution *)

Lemma Hour_range t : 0 <= Hour t < 24.
Proof. unfold Hour. Z.to_euclidean_division_equations. lia. Qed.

Lemma count_step_buckets cutoff m a :
  hour_buckets m -> hour_buckets (count_step cutoff m a).
Proof.
  unfold hour_buckets, count_step. intros Hm h c.
  destruct (Before _ _); [by apply Hm|].
  destruct (decide (Hour (Timestamp a) = h)) as [<-|Hne].
  - rewrite lookup_insert_eq. intros [= <-]. split; [apply Hour_range|].
    destruct (m !! Hour (Timestamp a)) as [c0|] eqn:E; cbn; [|lia].
    destruct (Hm _ _ E). lia.
  - rewrite lookup_insert_ne by done. apply Hm.
Qed.

Lemma count_hours_buckets cutoff activities :
  hour_buckets (count_hours cutoff activities).
Proof.
  unfold count_hours.
  assert (hour_buckets (∅ : gmap Z Z)) as H0 by (intros h c; by rewrite lookup_empty).
  revert H0. generalize (∅ : gmap Z Z).
  induction activities as [|a l IH]; intros m Hm; cbn [foldl]; [done|].
  by apply IH, count_step_buckets.
Qed.

Lemma count_step_comm cutoff m a b :
  count_step cutoff (count_step cutoff m a) b =
  count_step cutoff (count_step cutoff m b) a.
Proof.
  unfold count_step.
  destruct (Before (Timestamp a) cutoff), (Before (Timestamp b) cutoff); try done.
  destruct (decide (Hour (Timestamp a) = Hour (Timestamp b))) as [E|Hne].
  - by rewrite E.
  - rewrite !lookup_insert_ne by done. by apply insert_insert_ne.
Qed.

(** The distribution does not depend on the order of the events. *)
Lemma count_hours_perm cutoff l l' :
  l ≡ₚ l' -> count_hours cutoff l = count_hours cutoff l'.
Proof.
  unfold count_hours. generalize (∅ : gmap Z Z).
  intros m Hp. revert m.
  induction Hp as [|a l l' _ IH|a b l|l1 l2 l3 _ IH1 _ IH2]; intros m; cbn [foldl].
  - done.
  - apply IH.
  - by rewrite count_step_comm.
  - by rewrite IH1.
Qed.

Lemma count_hours_none cutoff activities :
  Forall (fun a => Before (Timestamp a) cutoff = true) activities ->
  count_hours cutoff activities = ∅.
Proof.
  unfold count_hours. generalize (∅ : gmap Z Z).
  induction 1 as [|a l Ha _ IH]; intros; cbn [foldl]; [done|].
  unfold count_step at 2. by rewrite Ha.
Qed.

(** C7. Peak-hour tie-break.  Whatever order the map is iterated in and
    whatever order the events come in, the hours are scanned in ascending
    order and the reported peak is the lowest hour of the day (0..23) among
    those whose in-window count is maximal; the label is built from it. *)
Theorem peak_hour_lowest_of_maxima (range_keys : gmap Z Z -> list Z)
    (now : Time) (activities : list Activity) (window : Z) :
  range_order range_keys ->
  let hourCounts := count_hours (window_cutoff now window) activities in
  exists maxCount peakHour,
    findPeak range_keys hourCounts = (maxCount, peakHour) /\
    CalculatePeakCodingHour range_keys now activities window
      = (peakString maxCount peakHour, hourCounts) /\
    StronglySorted Z.lt (sort_hours (range_keys hourCounts)) /\
    (hourCounts = ∅ -> maxCount = 0) /\
    (hourCounts <> ∅ ->
       0 <= peakHour < 24 /\ 0 < maxCount /\
       hourCounts !! peakHour = Some maxCount /\
       forall h c, hourCounts !! h = Some c ->
         c <= maxCount /\ (c = maxCount -> peakHour <= h)) /\
    (forall range_keys' activities',
       range_order range_keys' -> activities' ≡ₚ activities ->
       CalculatePeakCodingHour range_keys' now activities' window
       = CalculatePeakCodingHour range_keys now activities window).
Proof.
  intros Hord hourCounts.
  pose proof (count_hours_buckets (window_cutoff now window) activities) as Hb.
  fold hourCounts in Hb.
  pose proof (findPeak_lowest range_keys hourCounts Hord Hb) as Hpeak.
  destruct (findPeak range_keys hourCounts) as [maxCount peakHour] eqn:Hfind.
  exists maxCount, peakHour. split; [done|].
  split; [by unfold CalculatePeakCodingHour; fold hourCounts; rewrite Hfind|].
  split; [by apply sorted_keys_increasing|].
  split; [|split].
  - intros Hempty. destruct Hpeak as [[_ [= -> _]]|[Hph _]]; [done|].
    rewrite Hempty in Hph. by rewrite lookup_empty in Hph.
  - intros Hne. destruct Hpeak as [[? _]|[Hph Hmax]]; [done|]. cbn [fst snd] in *.
    destruct (Hb _ _ Hph). split; [lia|]. split; [lia|]. split; [done|]. exact Hmax.
  - intros range_keys' activities' Hord' Hperm.
    unfold CalculatePeakCodingHour.
    rewrite (count_hours_perm _ _ _ Hperm). fold hourCounts.
    pose proof (findPeak_lowest range_keys' hourCounts Hord' Hb) as Hpeak'.
    rewrite Hfind in *.
    by rewrite (lowest_peak_unique _ _ _ Hpeak' Hpeak).
Qed.

Lemma reversed_keys_order : range_order reversed_keys.
Proof. intros m. unfold reversed_keys. apply reverse_Permutation. Qed.

Example sample_peak :
  CalculatePeakCodingHour reversed_keys sample_now sample_activities ThisWeek
  = ("10-11am"%string, {[ 9 := 1; 10 := 2; 14 := 2 ]}).
Proof. vm_compute. reflexivity. Qed.

Lemma peak_hour_lowest_of_maxima_witness :
  range_order reversed_keys /\
  exists maxCount peakHour,
    findPeak reversed_keys
      (count_hours (window_cutoff sample_now ThisWeek) sample_activities)
      = (maxCount, peakHour) /\
    CalculatePeakCodingHour reversed_keys sample_now sample_activities ThisWeek
      = (peakString maxCount peakHour,
         count_hours (window_cutoff sample_now ThisWeek) sample_activities) /\
    (forall range_keys' activities',
       range_order range_keys' -> activities' ≡ₚ sample_activities ->
       CalculatePeakCodingHour range_keys' sample_now activities' ThisWeek
       = CalculatePeakCodingHour reversed_keys sample_now sample_activities ThisWeek).
Proof.
  split; [exact reversed_keys_order|].
  destruct (peak_hour_lowest_of_maxima reversed_keys sample_now sample_activities
              ThisWeek reversed_keys_order)
    as (maxCount & peakHour & Hfind & Hres & _ & _ & _ & Hindep).
  exists maxCount, peakHour. split; [exact Hfind|]. split; [exact Hres|exact Hindep].
Defined.

(** *** The label *)

Lemma hour_cases h :
  0 <= h < 24 ->
  h ∈ [0; 1; 2; 3; 4; 5; 6; 7; 8; 9; 10; 11; 12; 13; 14; 15; 16; 17; 18; 19;
       20; 21; 22; 23].
Proof.
  intros H. apply list_elem_of_In.
  assert (h = 0 \/ h = 1 \/ h = 2 \/ h = 3 \/ h = 4 \/ h = 5 \/ h = 6 \/ h = 7 \/
          h = 8 \/ h = 9 \/ h = 10 \/ h = 11 \/ h = 12 \/ h = 13 \/ h = 14 \/
          h = 15 \/ h = 16 \/ h = 17 \/ h = 18 \/ h = 19 \/ h = 20 \/ h = 21 \/
          h = 22 \/ h = 23) as Hh by lia.
  cbn. intuition auto.
Qed.

Lemma peakString_range_all :
  Forall (fun h => peakString 1 h = hour_range_label h)
    [0; 1; 2; 3; 4; 5; 6; 7; 8; 9; 10; 11; 12; 13; 14; 15; 16; 17; 18; 19;
     20; 21; 22; 23].
Proof. repeat constructor. Qed.

Lemma peakString_nonzero maxCount h :
  maxCount <> 0 -> peakString maxCount h = peakString 1 h.
Proof.
  intros H. unfold peakString. by destruct (Z.eqb_spec maxCount 0).
Qed.

(** C9. For a peak hour [h] in 0..23 (and a non-zero maximum) the label is the
    range from [h] to [(h + 1) mod 24] on the 12-hour clock, with lower-case
    am/pm: [<start>-<end><meridiem>] when both ends share the meridiem,
    [<start><meridiem>-<end><meridiem>] otherwise; hour 0 shows as 12, hours
    13..23 lose 12, and 12 is pm. *)
Theorem peak_label_12_hour_range (h : Z) :
  0 <= h < 24 ->
  (forall maxCount, maxCount <> 0 -> peakString maxCount h = hour_range_label h) /\
  (forall start end_ period,
     formatHourRange start period end_ period
     = itoa start +:+ "-" +:+ itoa end_ +:+ ToLower period) /\
  (forall start end_ startPeriod endPeriod,
     ToLower startPeriod <> ToLower endPeriod ->
     formatHourRange start startPeriod end_ endPeriod
     = itoa start +:+ ToLower startPeriod +:+ "-" +:+ itoa end_ +:+ ToLower endPeriod) /\
  formatHourRange 2 "PM" 3 "PM" = "2-3pm"%string /\
  formatHourRange 11 "AM" 12 "PM" = "11am-12pm"%string /\
  clock12 0 = 12 /\ meridiem 12 = "pm"%string /\ meridiem 0 = "am"%string.
Proof.
  intros Hh. split; [|split; [|split; [|by repeat split]]].
  - intros maxCount Hmax. rewrite peakString_nonzero by done.
    pose proof peakString_range_all as Hall. rewrite Forall_forall in Hall.
    by apply Hall, hour_cases.
  - intros start end_ period. unfold formatHourRange.
    by rewrite String.eqb_refl.
  - intros start end_ startPeriod endPeriod Hne. unfold formatHourRange.
    apply String.eqb_neq in Hne. by rewrite Hne.
Qed.

Lemma peak_label_12_hour_range_witness :
  0 <= 23 < 24 /\ (1 : Z) <> 0 /\
  peakString 1 23 = hour_range_label 23 /\
  hour_range_label 23 = "11pm-12am"%string /\
  hour_range_label 0 = "12-1am"%string /\
  hour_range_label 11 = "11am-12pm"%string /\
  hour_range_label 12 = "12-1pm"%string /\
  hour_range_label 14 = "2-3pm"%string.
Proof.
  split; [lia|]. split; [lia|].
  split; [|by repeat split].
  apply (proj1 (peak_label_12_hour_range 23 ltac:(lia)) 1). lia.
Defined.

(** ** Calendar renderer *)

Example Month_samples :
  Month 0 = 1 /\ Month 58 = 2 /\ Month 59 = 3 /\ Month 19000 = 1 /\
  Month 19782 = 2 /\ Month 19783 = 3 /\ Month 20088 = 12 /\ Month (-1) = 12.
Proof. by repeat split. Qed.

Lemma holds_from_spec n : forall z p x,
  holds_from n z p = true -> z <= x < z + Z.of_nat n -> p x = true.
Proof.
  induction n as [|n IH]; intros z p x H Hx; [lia|].
  cbn [holds_from] in H. apply andb_true_iff in H as [Hz Hrest].
  destruct (decide (x = z)) as [->|Hne]; [done|].
  apply (IH (z + 1)); [done|lia].
Qed.

Lemma day_of_year_march_check :
  holds_from (Z.to_nat 146097) 0
    (fun doe => (0 <=? day_of_year_march doe) && (day_of_year_march doe <=? 365))
  = true.
Proof. vm_cast_no_check (@eq_refl bool true). Qed.

Lemma day_of_year_march_range doe :
  0 <= doe < 146097 -> 0 <= day_of_year_march doe <= 365.
Proof.
  intros H.
  pose proof (holds_from_spec _ _ _ doe day_of_year_march_check
                ltac:(rewrite Z2Nat.id; lia)) as Hd.
  cbn beta in Hd. lia.
Qed.

Lemma Month_range z : 1 <= Month z <= 12.
Proof.
  unfold Month.
  pose proof (day_of_year_march_range ((z + 719468) mod 146097)
                ltac:(apply Z.mod_pos_bound; lia)) as H.
  set (doy := day_of_year_march _) in *.
  assert (0 <= (5 * doy + 2) / 153 <= 11) by (Z.to_euclidean_division_equations; lia).
  destruct (Z.ltb_spec ((5 * doy + 2) / 153) 10); lia.
Qed.

(** *** No index of the renderer is out of range *)

Lemma month_label_step_total startDate st week :
  is_Some (month_label_step startDate st week).
Proof.
  unfold month_label_step. destruct st as [labelChars currentMonth].
  pose proof (Month_range (startDate + week * 7)) as Hm.
  destruct (negb _); [|done].
  destruct (Z.ltb_spec (Month (startDate + week * 7) - 1) 0); [lia|].
  destruct (lookup_lt_is_Some_2 months (Z.to_nat (Month (startDate + week * 7) - 1)))
    as [name ->]; [cbn; lia|done].
Qed.

Lemma month_label_loop_total startDate weeks : forall st,
  is_Some (month_label_loop startDate weeks st).
Proof.
  induction weeks as [|week rest IH]; intros st; cbn [month_label_loop]; [done|].
  destruct (month_label_step_total startDate st week) as [st' ->]. cbn. apply IH.
Qed.

Lemma renderMonthLabels_total g : is_Some (renderMonthLabels g).
Proof.
  unfold renderMonthLabels. destruct (contributions g) as [|first rest]; [done|].
  cbn zeta.
  destruct (month_label_loop_total (sundayBefore (Date first)) (seqZ 0 weeksToDisplay)
              (replicate (Z.to_nat (weeksToDisplay * cellWidth)) " "%char, -1))
    as [[labelChars month] ->].
  done.
Qed.

Lemma getColorForLevel_total level : is_Some (getColorForLevel level).
Proof.
  unfold getColorForLevel. cbn [length].
  destruct (Z.geb_spec level 0); cbn [andb]; [|done].
  destruct (Z.ltb_spec level (Z.of_nat 5)); [|done].
  apply lookup_lt_is_Some_2. cbn. lia.
Qed.

Lemma renderCell_total count : is_Some (renderCell count).
Proof.
  unfold renderCell.
  by destruct (getColorForLevel_total (getContributionLevel count)) as [color ->].
Qed.

Lemma grid_get_total grid day week :
  grid_shape grid ->
  0 <= day < daysPerWeek -> 0 <= week < weeksToDisplay ->
  is_Some (grid_get grid day week).
Proof.
  unfold grid_shape, grid_get, daysPerWeek, weeksToDisplay. intros [Hlen Hrows] Hd Hw.
  destruct (Z.ltb_spec day 0); [lia|]. destruct (Z.ltb_spec week 0); [lia|]. cbn [orb].
  destruct (lookup_lt_is_Some_2 grid (Z.to_nat day)) as [row Hrow]; [lia|].
  rewrite Hrow. cbn. apply lookup_lt_is_Some_2.
  rewrite Forall_forall in Hrows. rewrite (Hrows row); [lia|].
  apply list_elem_of_lookup. eauto.
Qed.

Lemma renderRow_total grid day :
  grid_shape grid -> 0 <= day < daysPerWeek -> is_Some (renderRow grid day).
Proof.
  intros Hshape Hd. unfold renderRow.
  destruct (lookup_lt_is_Some_2 dayLabels (Z.to_nat day)) as [label ->];
    [unfold daysPerWeek in Hd; cbn; lia|]. cbn.
  match goal with |- context [mapM ?f ?l] =>
    destruct (mapM_is_Some_2 f l) as [cells ->] end; [|done].
  apply Forall_forall. intros week Hw. apply elem_of_seqZ in Hw. cbn.
  destruct (grid_get_total grid day week Hshape Hd ltac:(lia)) as [count ->]. cbn.
  apply renderCell_total.
Qed.

Lemma renderGrid_total grid : grid_shape grid -> is_Some (renderGrid grid).
Proof.
  intros Hshape. unfold renderGrid.
  destruct (mapM_is_Some_2 (renderRow grid) (seqZ 0 daysPerWeek)) as [rows ->]; [|done].
  apply Forall_forall. intros day Hd. apply elem_of_seqZ in Hd. cbn.
  apply renderRow_total; [done|lia].
Qed.

Lemma buildGrid_shape g : grid_shape (buildGrid g).
Proof.
  unfold buildGrid. destruct (contributions g); [apply zeroGrid_shape|].
  apply buildGrid_loop_shape, zeroGrid_shape.
Qed.

Lemma renderLegend_total g : is_Some (renderLegend g).
Proof. by eexists. Qed.

(** The full graph is always rendered. *)
Lemma Render_total g : exists text, Render g = Some text /\ is_warning_box text = false.
Proof.
  unfold Render.
  destruct (renderMonthLabels_total g) as [labels ->].
  destruct (renderGrid_total (buildGrid g) (buildGrid_shape g)) as [body ->].
  destruct (showLegend g).
  - destruct (renderLegend_total g) as [legend ->]. by eexists.
  - by eexists.
Qed.

(** *** The width warning *)

Lemma renderWidthWarning_box currentWidth minWidth :
  is_warning_box (renderWidthWarning currentWidth minWidth) = true.
Proof.
  unfold renderWidthWarning. by destruct (warning_texts currentWidth minWidth).
Qed.

Example warning_at_80 :
  renderWidthWarning 80 108 =
  Styled [RoundedBorder; BorderForeground colorBorder; Padding 1 2; Width 76; AlignCenter]
    (JoinVertical
       [Styled [Foreground colorLabel; Bold]
          (Plain "Increase terminal width to view contribution grid");
        Plain "";
        Styled [Foreground colorWarning] (Plain "Need 108 columns, have 80")]).
Proof. reflexivity. Qed.

(** C5. The responsive renderer always returns a text and never panics; the
    text is the warning box exactly when the terminal is narrower than
    108 = 4 + 52 * 2 columns, and the full graph otherwise; at 80 columns the
    box carries the detail line "Need 108 columns, have 80". *)
Theorem RenderResponsive_total (g : Graph) (terminalWidth : Z) :
  minTerminalWidth = 108 /\
  (exists text,
     RenderResponsive g terminalWidth = Some text /\
     (is_warning_box text = true <-> terminalWidth < 108) /\
     (terminalWidth < 108 -> text = renderWidthWarning terminalWidth 108) /\
     (108 <= terminalWidth -> Render g = Some text)) /\
  RenderResponsive g 80 = Some (renderWidthWarning 80 108) /\
  "Need 108 columns, have 80"%string ∈ leaves (renderWidthWarning 80 108).
Proof.
  split; [reflexivity|]. split; [|split; [reflexivity|]].
  - unfold RenderResponsive. change minTerminalWidth with 108.
    destruct (Z.ltb_spec terminalWidth 108) as [Hlt|Hge].
    + eexists. split; [reflexivity|].
      rewrite renderWidthWarning_box. repeat split; try done; lia.
    + destruct (Render_total g) as (text & Htext & Hbox).
      exists text. rewrite Hbox. repeat split; try done; lia.
  - cbn. set_solver.
Qed.

(** *** The tiers of the warning message *)









(** ** Empty inputs *)

Lemma findPeak_empty range_keys :
  range_order range_keys -> findPeak range_keys ∅ = (0, 0).
Proof.
  intros Hord. unfold findPeak.
  assert (range_keys ∅ = []) as ->; [|done].
  apply Permutation_nil_r. rewrite (Hord ∅). by rewrite map_to_list_empty.
Qed.

(** C8. Empty or out-of-window input gives zero and sentinel results and no
    error: the statistics of the empty sequence are returned (no division by
    zero) with [TotalDays = 0] and [AverageDay = 0]; its grid is all zeros;
    both of its streaks are 0; and a peak-hour query with no event at or after
    the cutoff returns "No data" with an empty distribution. *)
Theorem empty_inputs_give_zero_results (range_keys : gmap Z Z -> list Z)
    (now : Time) (today window : Z) (activities : list Activity) :
  range_order range_keys ->
  Forall (fun a => Before (Timestamp a) (window_cutoff now window) = true) activities ->
  (exists s, CalculateStats [] = Some s /\ TotalDays s = 0 /\ AverageDay s = 0) /\
  (forall day week, 0 <= day < daysPerWeek -> 0 <= week < weeksToDisplay ->
     grid_get (buildGrid (NewGraph [])) day week = Some 0) /\
  calculateCurrentStreak today [] = 0 /\
  calculateLongestStreak [] = 0 /\
  CalculatePeakCodingHour range_keys now activities window = ("No data"%string, ∅).
Proof.
  intros Hord Hold.
  split; [by eexists|]. split; [|split; [done|split; [done|]]].
  - intros day week Hd Hw. by apply zeroGrid_get.
  - unfold CalculatePeakCodingHour.
    rewrite (count_hours_none _ _ Hold), (findPeak_empty _ Hord). done.
Qed.

Lemma empty_inputs_give_zero_results_witness :
  let old := [push_at (at_utc (jan15 - 30 * 86400 + 20 * 3600))] in
  range_order reversed_keys /\
  Forall (fun a => Before (Timestamp a) (window_cutoff sample_now ThisWeek) = true) old /\
  CalculatePeakCodingHour reversed_keys sample_now old ThisWeek = ("No data"%string, ∅) /\
  CalculatePeakCodingHour reversed_keys sample_now [] ThisWeek = ("No data"%string, ∅).
Proof.
  cbn zeta.
  assert (Forall (fun a => Before (Timestamp a) (window_cutoff sample_now ThisWeek) = true)
            [push_at (at_utc (jan15 - 30 * 86400 + 20 * 3600))]) as Hold
    by (repeat constructor).
  split; [exact reversed_keys_order|]. split; [exact Hold|]. split.
  - exact (proj2 (proj2 (proj2 (proj2
      (empty_inputs_give_zero_results reversed_keys sample_now 0 ThisWeek _
         reversed_keys_order Hold))))).
  - exact (proj2 (proj2 (proj2 (proj2
      (empty_inputs_give_zero_results reversed_keys sample_now 0 ThisWeek []
         reversed_keys_order (Forall_nil_2 _)))))).
Defined.

(** * Further properties *)

(** ** Aggregate statistics on arbitrary input *)

Lemma active_days_cons c l :
  active_days (c :: l) = (if Count c >? 0 then 1 else 0) + active_days l.
Proof.
  unfold active_days. rewrite filter_cons.
  destruct (decide (0 < Count c)); destruct (Z.gtb_spec (Count c) 0); try lia.
  cbn [length]. lia.
Qed.

Lemma active_days_bounds l : 0 <= active_days l <= Z.of_nat (length l).
Proof.
  unfold active_days. pose proof (length_filter (fun c => 0 < Count c) l). lia.
Qed.

Lemma stats_step_active st c :
  ActiveDays (stats_step st c) = ActiveDays st + (if Count c >? 0 then 1 else 0).
Proof.
  unfold stats_step. destruct (Count c >? 0); cbn [MaxDay ActiveDays];
    destruct (Count c >? MaxDay st); cbn [ActiveDays]; lia.
Qed.

Lemma stats_step_max st c :
  MaxDay (stats_step st c) = Z.max (MaxDay st) (Count c).
Proof.
  unfold stats_step. destruct (Count c >? 0); cbn [MaxDay ActiveDays];
    destruct (Z.gtb_spec (Count c) (MaxDay st)); cbn [MaxDay]; lia.
Qed.

Lemma stats_loop_active l : forall st,
  ActiveDays (foldl stats_step st l) = ActiveDays st + active_days l.
Proof.
  induction l as [|c l IH]; intros st; cbn [foldl].
  - unfold active_days. cbn. lia.
  - rewrite IH, stats_step_active, active_days_cons. lia.
Qed.

Lemma stats_loop_fields l : forall st,
  TotalDays (foldl stats_step st l) = TotalDays st /\
  AverageDay (foldl stats_step st l) = AverageDay st.
Proof.
  induction l as [|c l IH]; intros st; cbn [foldl]; [done|].
  destruct (IH (stats_step st c)) as [-> ->]. apply stats_step_fields.
Qed.

Lemma stats_loop_max l : forall st,
  MaxDay st <= MaxDay (foldl stats_step st l) /\
  Forall (fun c => Count c <= MaxDay (foldl stats_step st l)) l /\
  (MaxDay (foldl stats_step st l) = MaxDay st \/
   exists c, c ∈ l /\ Count c = MaxDay (foldl stats_step st l)).
Proof.
  induction l as [|c l IH]; intros st; cbn [foldl].
  - split; [lia|]. split; [constructor|by left].
  - destruct (IH (stats_step st c)) as (Hle & Hall & Hwit).
    rewrite stats_step_max in Hle, Hwit.
    split; [lia|]. split; [constructor; [lia|done]|].
    destruct Hwit as [Heq|(c' & Hin & Hc')].
    + destruct (Z.max_spec (MaxDay st) (Count c)) as [[? Hm]|[? Hm]];
        rewrite Hm in Heq; [right; exists c; split; [by left|done]|by left].
    + right. exists c'. split; [by right|done].
Qed.

Lemma CalculateStats_days (contributions : list Contribution) :
  exists s, CalculateStats contributions = Some s /\
    TotalDays s = Z.of_nat (length contributions) /\
    ActiveDays s = active_days contributions.
Proof.
  unfold CalculateStats.
  set (st0 := mkStats 0 0 (Z.of_nat (length contributions)) 0 0).
  destruct (stats_loop_fields contributions st0) as [Hd _].
  pose proof (stats_loop_active contributions st0) as Ha.
  cbn [TotalDays ActiveDays st0] in Hd, Ha.
  set (st := foldl stats_step st0 contributions) in *.
  destruct (Z.gtb_spec (TotalDays st) 0) as [Hpos|Hzero].
  - unfold int_div. destruct (Z.eqb_spec (TotalDays st) 0); [lia|].
    eexists. split; [reflexivity|]. cbn [TotalDays ActiveDays]. lia.
  - exists st. split; [done|]. lia.
Qed.

(** X1. For any contribution sequence, whatever its counts, the statistics are
    returned (the division cannot fail), [TotalDays] is the number of entries
    and [ActiveDays] the number of entries with a positive count. *)
Theorem CalculateStats_day_counts (contributions : list Contribution) :
  exists s, CalculateStats contributions = Some s /\
    TotalDays s = Z.of_nat (length contributions) /\
    ActiveDays s = active_days contributions /\
    0 <= ActiveDays s <= TotalDays s.
Proof.
  destruct (CalculateStats_days contributions) as (s & Hs & Hd & Ha).
  pose proof (active_days_bounds contributions) as Hb.
  exists s. split; [done|]. split; [done|]. split; [done|]. lia.
Qed.

(** X2. [MaxDay] is the largest count of the sequence, and 0 when no count is
    positive: negative or zero counts never become the maximum. *)
Theorem CalculateStats_max_day (contributions : list Contribution) :
  exists s, CalculateStats contributions = Some s /\
    0 <= MaxDay s /\
    Forall (fun c => Count c <= MaxDay s) contributions /\
    (MaxDay s = 0 \/ exists c, c ∈ contributions /\ Count c = MaxDay s).
Proof.
  destruct (CalculateStats_total contributions) as [s Hs].
  exists s. split; [done|]. revert Hs. unfold CalculateStats.
  set (st0 := mkStats 0 0 (Z.of_nat (length contributions)) 0 0).
  destruct (stats_loop_max contributions st0) as (Hle & Hall & Hwit).
  cbn [MaxDay st0] in Hle, Hwit.
  set (st := foldl stats_step st0 contributions) in *.
  assert (MaxDay s = MaxDay st -> 0 <= MaxDay s /\
            Forall (fun c => Count c <= MaxDay s) contributions /\
            (MaxDay s = 0 \/ exists c, c ∈ contributions /\ Count c = MaxDay s)) as Hgoal
    by (intros ->; done).
  destruct (TotalDays st >? 0).
  - destruct (int_div _ _); [|done]. cbn. intros [= <-]. by apply Hgoal.
  - intros [= <-]. by apply Hgoal.
Qed.

(** X3. Without overflow, on a non-empty sequence of non-negative counts, [Total]
    is the sum of the counts and [AverageDay] its floored quotient by the
    number of days. *)
Theorem CalculateStats_average_floor (contributions : list Contribution) :
  contributions <> [] ->
  Forall (fun c => 0 <= Count c) contributions ->
  sum_counts contributions <= maxInt ->
  exists s, CalculateStats contributions = Some s /\
    Total s = sum_counts contributions /\
    TotalDays s * AverageDay s <= Total s < TotalDays s * (AverageDay s + 1).
Proof.
  intros Hne Hnn Hfit. unfold CalculateStats.
  set (st0 := mkStats 0 0 (Z.of_nat (length contributions)) 0 0).
  destruct (stats_loop_fields contributions st0) as [Hd _].
  pose proof (stats_loop_total contributions st0 Hnn) as Htot.
  pose proof (sum_counts_nonneg contributions Hnn) as Hsum.
  cbn [Total TotalDays st0] in Hd, Htot. rewrite Z.add_0_l in Htot.
  specialize (Htot ltac:(lia) Hfit).
  set (n := Z.of_nat (length contributions)) in *.
  set (st := foldl stats_step st0 contributions) in *.
  assert (0 < n) as Hn by (subst n; destruct contributions; [done|cbn; lia]).
  rewrite Hd. destruct (Z.gtb_spec n 0); [|lia].
  unfold int_div. destruct (Z.eqb_spec n 0); [lia|].
  rewrite Z.quot_div_nonneg by lia.
  assert (0 <= Total st / n <= Total st) as Hq.
  { split; [apply Z.div_pos; lia|]. apply Z.div_le_upper_bound; nia. }
  rewrite wrap_in_range by (unfold in_range, minInt, maxInt in *; lia).
  eexists. split; [reflexivity|]. cbn [Total TotalDays AverageDay].
  split; [done|].
  pose proof (Z.mul_div_le (Total st) n Hn).
  pose proof (Z.mul_succ_div_gt (Total st) n Hn). lia.
Qed.

Lemma CalculateStats_average_floor_witness :
  let l := [mkContribution 19000 3; mkContribution 19001 0; mkContribution 19002 5] in
  l <> [] /\ Forall (fun c => 0 <= Count c) l /\ sum_counts l <= maxInt /\
  exists s, CalculateStats l = Some s /\ Total s = sum_counts l /\
    TotalDays s * AverageDay s <= Total s < TotalDays s * (AverageDay s + 1).
Proof.
  cbn zeta.
  assert ([mkContribution 19000 3; mkContribution 19001 0; mkContribution 19002 5] <> [])
    as Hne by discriminate.
  assert (Forall (fun c => 0 <= Count c)
            [mkContribution 19000 3; mkContribution 19001 0; mkContribution 19002 5]) as Hnn
    by (repeat constructor; cbn; lia).
  assert (sum_counts [mkContribution 19000 3; mkContribution 19001 0; mkContribution 19002 5]
            <= maxInt) as Hfit by (vm_compute; discriminate).
  split; [exact Hne|]. split; [exact Hnn|]. split; [exact Hfit|].
  exact (CalculateStats_average_floor _ Hne Hnn Hfit).
Defined.

(** ** Streaks on arbitrary input *)

Section StreakBounds.

Implicit Types (l : list Contribution) (c : Contribution).

Lemma active_days_app l l' : active_days (l ++ l') = active_days l + active_days l'.
Proof. unfold active_days. rewrite filter_app, length_app. lia. Qed.

Lemma active_days_rev l : active_days (rev l) = active_days l.
Proof.
  induction l as [|c l IH]; [done|]. cbn [rev].
  rewrite active_days_app, IH, !active_days_cons. unfold active_days. cbn. lia.
Qed.

(** Every day the backward scan counts is an entry with a positive count. *)
Lemma currentStreak_scan_bounds today backwards : forall streak e,
  streak <= currentStreak_scan today streak e backwards
         <= streak + active_days backwards.
Proof.
  induction backwards as [|c rest IH]; intros streak e; cbn [currentStreak_scan].
  - unfold active_days. cbn. lia.
  - rewrite active_days_cons. pose proof (active_days_bounds rest).
    pose proof (IH (streak + 1) (e - 1)). pose proof (IH (streak + 1) (today - 1 - 1)).
    pose proof (IH streak e).
    destruct (Z.gtb_spec (Count c) 0);
      repeat (case_compare; cbn [andb]); lia.
Qed.

Lemma longest_step_active st c k :
  longest_inv st -> longest st <= k ->
  longest (longest_step st c) <= k + (if Count c >? 0 then 1 else 0).
Proof.
  unfold longest_inv, longest_step. intros H Hk.
  destruct (Z.gtb_spec (current st) 0);
    [destruct (Z.eqb_spec (Date c) (prevDate st + 1)); cbn [negb]|];
    case_compare; cbn [current longest]; lia.
Qed.

Lemma longest_loop_active l : forall st k,
  longest_inv st -> longest st <= k ->
  longest (foldl longest_step st l) <= k + active_days l.
Proof.
  induction l as [|c l IH]; intros st k Hinv Hk; cbn [foldl].
  - unfold active_days. cbn. lia.
  - rewrite active_days_cons.
    destruct (longest_step_inv st c Hinv) as [Hinv' _].
    pose proof (longest_step_active st c k Hinv Hk) as Hstep.
    pose proof (IH _ _ Hinv' Hstep). lia.
Qed.

Lemma calculateCurrentStreak_active today l :
  0 <= calculateCurrentStreak today l <= active_days l.
Proof.
  unfold calculateCurrentStreak. pose proof (active_days_bounds l).
  destruct (length l =? 0)%nat; [lia|].
  pose proof (currentStreak_scan_bounds today (rev l) 0 today) as Hscan.
  rewrite active_days_rev in Hscan. lia.
Qed.

Lemma calculateLongestStreak_active l :
  0 <= calculateLongestStreak l <= active_days l.
Proof.
  unfold calculateLongestStreak. pose proof (active_days_bounds l).
  destruct (length l =? 0)%nat; [lia|].
  assert (longest_inv (mkLongest 0 0 zeroTimeDay)) as H0 by (unfold longest_inv; cbn; lia).
  destruct (longest_loop_mono l _ H0) as [_ Hge].
  pose proof (longest_loop_active l _ 0 H0 ltac:(cbn; lia)) as Hle.
  cbn [longest] in Hge. lia.
Qed.

(** X4. Neither streak is negative, and neither exceeds the number of active days
    that [CalculateStats] reports for the same sequence, whatever the dates
    and counts are. *)
Theorem streaks_at_most_active_days (today : Z) (contributions : list Contribution) :
  exists s, CalculateStats contributions = Some s /\
    0 <= calculateCurrentStreak today contributions <= ActiveDays s /\
    0 <= calculateLongestStreak contributions <= ActiveDays s.
Proof.
  destruct (CalculateStats_days contributions) as (s & Hs & _ & Ha).
  exists s. split; [done|]. rewrite Ha.
  split; [apply calculateCurrentStreak_active|apply calculateLongestStreak_active].
Qed.

(** X5. More history never shortens the longest streak. *)
Theorem calculateLongestStreak_append (l l' : list Contribution) :
  calculateLongestStreak l <= calculateLongestStreak (l ++ l').
Proof.
  pose proof (calculateLongestStreak_active (l ++ l')) as Hnn.
  unfold calculateLongestStreak in *.
  destruct (Nat.eqb_spec (length l) 0) as [|Hl]; [lia|].
  destruct (Nat.eqb_spec (length (l ++ l')) 0) as [E|_];
    [rewrite length_app in E; lia|].
  rewrite foldl_app.
  assert (longest_inv (mkLongest 0 0 zeroTimeDay)) as H0 by (unfold longest_inv; cbn; lia).
  destruct (longest_loop_mono l _ H0) as [H1 _].
  destruct (longest_loop_mono l' _ H1) as [_ H2]. done.
Qed.

(** X6. An unbroken run of active days is a longest streak of its own length. *)
Theorem calculateLongestStreak_unbroken (d : Z) (l : list Contribution) :
  consecutive_from d l -> calculateLongestStreak l = Z.of_nat (length l).
Proof.
  intros Hrun.
  pose proof (calculateLongestStreak_block [] l [] d Hrun) as Hlow.
  rewrite app_nil_r in Hlow. cbn [app] in Hlow.
  pose proof (calculateLongestStreak_active l). pose proof (active_days_bounds l). lia.
Qed.

Lemma calculateLongestStreak_unbroken_witness :
  let l := [mkContribution 19000 2; mkContribution 19001 7; mkContribution 19002 1] in
  consecutive_from 19000 l /\ calculateLongestStreak l = 3.
Proof.
  cbn zeta. split; [cbn; lia|].
  apply (calculateLongestStreak_unbroken 19000). cbn. lia.
Defined.

(** X7. Entries dated after today are skipped: appending any number of them
    leaves the current streak as it was. *)
Theorem calculateCurrentStreak_ignores_future (today : Z) (l future : list Contribution) :
  Forall (fun c => today < Date c) future ->
  calculateCurrentStreak today (l ++ future) = calculateCurrentStreak today l.
Proof.
  intros Hfut. unfold calculateCurrentStreak. rewrite rev_app_distr.
  assert (forall rest, currentStreak_scan today 0 today (rev future ++ rest)
                       = currentStreak_scan today 0 today rest) as Hskip.
  { induction Hfut as [|c future Hc _ IH]; intros rest; [done|].
    cbn [rev]. rewrite <- app_assoc, IH. cbn [app currentStreak_scan].
    destruct (Z.eqb_spec (Date c) today); [lia|].
    destruct (Z.ltb_spec (Date c) today); [lia|done]. }
  rewrite Hskip.
  destruct (Nat.eqb_spec (length (l ++ future)) 0) as [E|_];
    destruct (Nat.eqb_spec (length l) 0) as [E'|Hne]; try done.
  - rewrite length_app in E. lia.
  - by destruct l.
Qed.

Lemma calculateCurrentStreak_ignores_future_witness :
  let l := [mkContribution 19001 4; mkContribution 19002 5] in
  let future := [mkContribution 19003 9; mkContribution 19010 1] in
  Forall (fun c => 19002 < Date c) future /\
  calculateCurrentStreak 19002 (l ++ future) = 2.
Proof.
  cbn zeta.
  assert (Forall (fun c => 19002 < Date c)
            [mkContribution 19003 9; mkContribution 19010 1]) as Hfut
    by (repeat constructor; cbn; lia).
  split; [exact Hfut|].
  rewrite (calculateCurrentStreak_ignores_future 19002 _ _ Hfut). reflexivity.
Defined.

(** X8. A sequence whose most recent entry is older than yesterday has no current
    streak. *)
Theorem calculateCurrentStreak_stale (today : Z) (l : list Contribution) (c : Contribution) :
  Date c < today - 1 ->
  calculateCurrentStreak today (l ++ [c]) = 0.
Proof.
  intros Hold. unfold calculateCurrentStreak.
  rewrite length_app, rev_app_distr. cbn [length rev app currentStreak_scan].
  destruct (Nat.eqb_spec (length l + 1) 0); [done|].
  destruct (Z.eqb_spec (Date c) today); [lia|].
  destruct (Z.ltb_spec (Date c) today); [|lia].
  rewrite !Z.eqb_refl. cbn [andb].
  destruct (Z.eqb_spec (Date c) (today - 1)); [lia|done].
Qed.

Lemma calculateCurrentStreak_stale_witness :
  Date (mkContribution 19000 8) < 19002 - 1 /\
  calculateCurrentStreak 19002 ([mkContribution 18999 3] ++ [mkContribution 19000 8]) = 0.
Proof.
  split; [cbn; lia|]. apply calculateCurrentStreak_stale. cbn. lia.
Defined.

(** X9. The current streak of a run of active days that ends today is the length
    of the run, when the entry before it does not continue it. *)
Theorem calculateCurrentStreak_run_ending_today (today : Z)
    (pre run : list Contribution) :
  dates_sorted (pre ++ run) ->
  one_entry_per_date (pre ++ run) ->
  run <> [] ->
  consecutive_from (today - Z.of_nat (length run) + 1) run ->
  (forall c, last pre = Some c ->
     Date c = today - Z.of_nat (length run) -> Count c <= 0) ->
  calculateCurrentStreak today (pre ++ run) = Z.of_nat (length run).
Proof.
  intros Hs Hnd Hne Hrun Hmax.
  pose proof (dates_increasing_of_sorted _ Hs Hnd) as Hinc.
  unfold calculateCurrentStreak. rewrite rev_app_distr.
  pose proof (consecutive_from_rev _ _ Hrun) as Hdown.
  replace (today - Z.of_nat (length run) + 1 + Z.of_nat (length run) - 1)
    with today in Hdown by lia.
  destruct (Nat.eqb_spec (length (pre ++ run)) 0) as [E|_].
  { rewrite length_app in E. destruct run; [done|cbn in E; lia]. }
  rewrite currentStreak_scan_run by done. rewrite length_rev, Z.add_0_l.
  destruct pre as [|p pre' _] using rev_ind; [done|].
  rewrite rev_app_distr. cbn [rev app].
  specialize (Hmax p (last_snoc _ _)).
  destruct run as [|r run']; [done|]. destruct Hrun as (Hr & _ & _).
  apply StronglySorted_app in Hinc as (Hlt & _ & _).
  specialize (Hlt p r ltac:(apply elem_of_app; right; by left) ltac:(by left)).
  apply currentStreak_scan_stop; cbn [length] in *; lia.
Qed.

Lemma calculateCurrentStreak_run_ending_today_witness :
  let pre := [mkContribution 18998 4; mkContribution 18999 0] in
  let run := [mkContribution 19000 1; mkContribution 19001 3; mkContribution 19002 2] in
  dates_sorted (pre ++ run) /\ one_entry_per_date (pre ++ run) /\ run <> [] /\
  consecutive_from (19002 - 3 + 1) run /\
  calculateCurrentStreak 19002 (pre ++ run) = 3.
Proof.
  cbn zeta.
  set (pre := [mkContribution 18998 4; mkContribution 18999 0]).
  set (run := [mkContribution 19000 1; mkContribution 19001 3; mkContribution 19002 2]).
  assert (dates_sorted (pre ++ run)) as Hs
    by (unfold dates_sorted; cbn; repeat constructor; lia).
  assert (one_entry_per_date (pre ++ run)) as Hnd
    by (unfold one_entry_per_date; cbn; apply (bool_decide_unpack _); vm_compute; exact I).
  assert (run <> []) as Hne by discriminate.
  assert (consecutive_from (19002 - 3 + 1) run) as Hrun by (cbn; lia).
  split; [exact Hs|]. split; [exact Hnd|]. split; [exact Hne|]. split; [exact Hrun|].
  apply (calculateCurrentStreak_run_ending_today 19002 pre run Hs Hnd Hne Hrun).
  intros c Hc Hd. cbn in Hc. injection Hc as <-. cbn. lia.
Defined.

End StreakBounds.

(** ** The grid on input that breaks the preconditions *)

Section GridEdges.

Implicit Types (grid : Grid) (c : Contribution) (l : list Contribution).

(** X10. Several entries on one date: the last one is the one the grid shows. *)
Theorem buildGrid_last_write_wins (g : Graph) (first c : Contribution)
    (rest before after : list Contribution) :
  contributions g = first :: rest ->
  first :: rest = before ++ c :: after ->
  dates_sorted (contributions g) ->
  in_window (sundayBefore (Date first)) (Date c) ->
  Forall (fun c' => Date c' <> Date c) after ->
  grid_get (buildGrid g) (Weekday (Date c)) (week_of (sundayBefore (Date first)) (Date c))
  = Some (Count c).
Proof.
  intros Hl Hsplit Hs [Hw0 Hw] Hafter.
  destruct (sundayBefore_spec (Date first)) as (_ & Hsun & Hnear & _).
  set (anchor := sundayBefore (Date first)) in *.
  assert (Forall (fun c' => anchor <= Date c') (before ++ c :: after)) as Hge.
  { apply Forall_forall. intros c' Hc'. rewrite <- Hsplit in Hc'.
    rewrite Hl in Hs. pose proof (first_date_least _ _ _ Hs Hc'). lia. }
  unfold buildGrid. rewrite Hl. fold anchor. rewrite Hsplit.
  rewrite foldl_app. cbn [foldl].
  apply Forall_app in Hge as [_ Hge]. inversion Hge as [|? ? Hc Hge']; subst.
  rewrite buildGrid_loop_preserves.
  - rewrite buildGrid_step_in by done.
    apply grid_get_set_eq; [|pose proof (Weekday_range (Date c)); by unfold daysPerWeek|done].
    apply buildGrid_loop_shape, zeroGrid_shape.
  - apply Forall_forall. intros c' Hc'.
    rewrite Forall_forall in Hge', Hafter. split; [by apply Hge'|].
    intros E. apply (cell_injective anchor) in E; [|done|by apply Hge'|done].
    by apply (Hafter c').
Qed.

Lemma buildGrid_last_write_wins_witness :
  let first := mkContribution 19000 3 in
  let c := mkContribution 19001 9 in
  let g := NewGraph [first; mkContribution 19001 4; c; mkContribution 19002 5] in
  dates_sorted (contributions g) /\
  in_window (sundayBefore (Date first)) (Date c) /\
  grid_get (buildGrid g) (Weekday 19001) (week_of (sundayBefore 19000) 19001) = Some 9.
Proof.
  cbn zeta.
  set (g := NewGraph [mkContribution 19000 3; mkContribution 19001 4;
                      mkContribution 19001 9; mkContribution 19002 5]).
  assert (dates_sorted (contributions g)) as Hs
    by (unfold dates_sorted; cbn; repeat constructor; lia).
  assert (in_window (sundayBefore 19000) 19001) as Hw
    by (unfold in_window; vm_compute; split; [discriminate|reflexivity]).
  split; [exact Hs|]. split; [exact Hw|].
  apply (buildGrid_last_write_wins g (mkContribution 19000 3) (mkContribution 19001 9)
           _ [mkContribution 19000 3; mkContribution 19001 4] [mkContribution 19002 5]
           eq_refl eq_refl Hs Hw).
  repeat constructor; cbn; lia.
Defined.

(** Integer division truncates toward zero, so an entry dated one to six days
    before the start Sunday lands in week column 0; only from seven days
    before is it dropped. *)
Lemma buildGrid_step_before_anchor anchor grid c :
  anchor - 7 < Date c < anchor ->
  buildGrid_step anchor grid c = grid_set grid (Weekday (Date c)) 0 (Count c).
Proof.
  unfold buildGrid_step, weeksToDisplay, daysPerWeek, daysBetween. intros Hd.
  pose proof (Weekday_range (Date c)).
  rewrite Z.min_r, Z.max_r by lia.
  assert ((Date c - anchor) ÷ 7 = 0) as -> by (apply Z.quot_small_iff; lia).
  cbn [Z.geb Z.ltb Z.compare andb].
  destruct (Z.geb_spec (Weekday (Date c)) 0); [|lia].
  destruct (Z.ltb_spec (Weekday (Date c)) 7); [|lia]. done.
Qed.

Lemma buildGrid_step_long_before_anchor anchor grid c :
  Date c <= anchor - 7 -> buildGrid_step anchor grid c = grid.
Proof.
  unfold buildGrid_step, weeksToDisplay, daysPerWeek, daysBetween. intros Hd.
  rewrite Z.min_r by lia.
  assert (Z.max (-106751) (Date c - anchor) ÷ 7 < 0) as Hq.
  { destruct (Z.max_spec (-106751) (Date c - anchor)) as [[_ ->]|[_ ->]].
    - Z.to_euclidean_division_equations. lia.
    - vm_compute. reflexivity. }
  destruct (Z.geb_spec (Z.max (-106751) (Date c - anchor) ÷ 7) 0); [lia|done].
Qed.

(** A step leaves alone every cell but the one it addresses. *)
Lemma buildGrid_step_other_cell anchor grid c day week :
  (Weekday (Date c), Z.quot (daysBetween (Date c) anchor) 7) <> (day, week) ->
  grid_get (buildGrid_step anchor grid c) day week = grid_get grid day week.
Proof.
  intros Hne. unfold buildGrid_step.
  destruct (Z.geb_spec (Z.quot (daysBetween (Date c) anchor) 7) 0) as [Hw|_]; [|done].
  destruct (Z.geb_spec (Weekday (Date c)) 0) as [Hd|_];
    [|by rewrite andb_false_r].
  match goal with |- context [if ?b then _ else _] => destruct b end; [|done].
  by apply grid_get_set_ne.
Qed.

Lemma buildGrid_loop_other_cells anchor l : forall grid day week,
  Forall (fun c => (Weekday (Date c), Z.quot (daysBetween (Date c) anchor) 7)
                   <> (day, week)) l ->
  grid_get (foldl (buildGrid_step anchor) grid l) day week = grid_get grid day week.
Proof.
  induction l as [|c l IH]; intros grid day week Hall; cbn [foldl]; [done|].
  apply Forall_cons in Hall as [Hc Hl].
  rewrite IH by done. by apply buildGrid_step_other_cell.
Qed.

(** The entries that address the week-0 cell of a date [d] shortly before
    the anchor are those dated [d] or [d + 7]. *)
Lemma week_zero_cell anchor d d' :
  Weekday anchor = 0 -> anchor - 7 < d < anchor ->
  (Weekday d', Z.quot (daysBetween d' anchor) 7) = (Weekday d, 0) ->
  d' = d \/ d' = d + 7.
Proof.
  unfold Weekday, daysBetween. intros Hsun Hd [= Hday Hweek].
  apply Z.quot_small_iff in Hweek; [|lia].
  assert (-7 < d' - anchor < 7) as Hnear by lia.
  Z.to_euclidean_division_equations. lia.
Qed.

(** X11. An entry that is out of date order, anywhere after the first and
    dated before the Sunday the grid starts on.  Up to six days before, the
    truncating division puts it in week column 0, on the row of its weekday,
    and the grid shows its count provided no later entry has the same date
    or the date seven days later.  A week or more before, it is dropped: the
    grid is the one of the slice without it. *)
Theorem buildGrid_out_of_order_entry (g : Graph) (first c : Contribution)
    (before after : list Contribution) :
  contributions g = first :: before ++ c :: after ->
  let anchor := sundayBefore (Date first) in
  (anchor - 7 < Date c < anchor ->
     Forall (fun c' => Date c' <> Date c /\ Date c' <> Date c + 7) after ->
     grid_get (buildGrid g) (Weekday (Date c)) 0 = Some (Count c)) /\
  (Date c <= anchor - 7 ->
     buildGrid g
     = buildGrid (mkGraph (first :: before ++ after) (title g) (showLegend g))).
Proof.
  intros Hl anchor. unfold buildGrid. rewrite Hl. cbn [contributions].
  fold anchor. change (first :: before ++ c :: after) with ((first :: before) ++ c :: after).
  change (first :: before ++ after) with ((first :: before) ++ after).
  rewrite !foldl_app. cbn [foldl].
  set (grid := foldl (buildGrid_step anchor) zeroGrid (first :: before)).
  assert (grid_shape grid) as Hshape by apply buildGrid_loop_shape, zeroGrid_shape.
  destruct (sundayBefore_spec (Date first)) as (_ & Hsun & _). fold anchor in Hsun.
  split.
  - intros Hd Hafter.
    rewrite buildGrid_loop_other_cells.
    + rewrite buildGrid_step_before_anchor by done.
      apply grid_get_set_eq; [done| |done].
      pose proof (Weekday_range (Date c)). by unfold daysPerWeek.
    + apply Forall_forall. intros c' Hc' Hcell. rewrite Forall_forall in Hafter.
      destruct (Hafter c' Hc') as [Hsame Hweek].
      destruct (week_zero_cell anchor (Date c) (Date c') Hsun Hd Hcell); done.
  - intros Hd. by rewrite buildGrid_step_long_before_anchor.
Qed.

Lemma buildGrid_out_of_order_entry_witness :
  let first := mkContribution 19000 3 in
  let c := mkContribution 18990 7 in
  let g := NewGraph (first :: [mkContribution 19001 2] ++ c :: [mkContribution 19002 4]) in
  contributions g = first :: [mkContribution 19001 2] ++ c :: [mkContribution 19002 4] /\
  sundayBefore (Date first) - 7 < Date c < sundayBefore (Date first) /\
  Forall (fun c' => Date c' <> Date c /\ Date c' <> Date c + 7) [mkContribution 19002 4] /\
  grid_get (buildGrid g) (Weekday 18990) 0 = Some 7.
Proof.
  intros first c g.
  assert (contributions g = first :: [mkContribution 19001 2] ++ c :: [mkContribution 19002 4])
    as Hl by reflexivity.
  assert (sundayBefore (Date first) - 7 < Date c < sundayBefore (Date first)) as Hd
    by (vm_compute; split; reflexivity).
  assert (Forall (fun c' => Date c' <> Date c /\ Date c' <> Date c + 7)
            [mkContribution 19002 4]) as Hafter.
  { apply Forall_singleton. split; vm_compute; discriminate. }
  split; [exact Hl|]. split; [exact Hd|]. split; [exact Hafter|].
  exact (proj1 (buildGrid_out_of_order_entry g first c [mkContribution 19001 2]
                  [mkContribution 19002 4] Hl) Hd Hafter).
Defined.

End GridEdges.

(** ** The rendered heat map *)

Section HeatMap.

Lemma getColorForLevel_palette level :
  getColorForLevel level =
  if (0 <=? level) && (level <? 5) then palette !! Z.to_nat level
  else Some colorLevelZero.
Proof.
  unfold getColorForLevel. cbn [length].
  change (Z.of_nat 5) with 5.
  destruct (Z.geb_spec level 0), (Z.leb_spec 0 level); try lia; [|done].
  done.
Qed.

(** The colour of a level: five different colours for the levels 0..4, and
    the colour of level 0 for any other level. *)
Theorem getColorForLevel_distinct (level level' : Z) :
  (exists color, getColorForLevel level = Some color) /\
  (0 <= level < 5 -> 0 <= level' < 5 ->
     getColorForLevel level = getColorForLevel level' -> level = level') /\
  (~ 0 <= level < 5 -> getColorForLevel level = getColorForLevel 0).
Proof.
  split; [apply getColorForLevel_total|]. split.
  - intros Hl Hl' E. rewrite !getColorForLevel_palette in E.
    destruct (Z.leb_spec 0 level), (Z.ltb_spec level 5); try lia.
    destruct (Z.leb_spec 0 level'), (Z.ltb_spec level' 5); try lia.
    cbn [andb] in E.
    assert (NoDup palette) as Hnd by (apply (bool_decide_unpack _); vm_compute; exact I).
    destruct (palette !! Z.to_nat level) as [color|] eqn:E1.
    + symmetry in E. pose proof (NoDup_lookup _ _ _ _ Hnd E1 E). lia.
    + apply lookup_ge_None in E1. cbn in E1. lia.
  - intros Hout. rewrite !getColorForLevel_palette.
    destruct (Z.leb_spec 0 level), (Z.ltb_spec level 5); try lia; done.
Qed.

Lemma mapM_lookup {A B} (f : A -> option B) l k i x :
  mapM f l = Some k -> l !! i = Some x -> exists y, k !! i = Some y /\ f x = Some y.
Proof.
  intros Hm Hx. apply mapM_Some in Hm.
  destruct (Forall2_lookup_l _ _ _ _ _ Hm Hx) as (y & Hy & Hf). eauto.
Qed.

Lemma renderRow_cells (grid : Grid) (day week : Z) (row : Text) :
  renderRow grid day = Some row ->
  0 <= week < weeksToDisplay ->
  exists dayLabel cells count cell,
    dayLabels !! Z.to_nat day = Some dayLabel /\
    row = Join "" (Styled [Foreground colorLabel; Width dayLabelWidth] (Plain dayLabel)
                   :: cells) /\
    length cells = 52%nat /\
    grid_get grid day week = Some count /\
    renderCell count = Some cell /\
    cells !! Z.to_nat week = Some cell.
Proof.
  intros Hrender Hw. unfold renderRow in Hrender.
  destruct (dayLabels !! Z.to_nat day) as [dayLabel|] eqn:Hlabel; [|done].
  cbn in Hrender.
  match type of Hrender with context [mapM ?f ?l] =>
    destruct (mapM f l) as [cells|] eqn:Hcells; [|done] end.
  cbn in Hrender. injection Hrender as <-.
  pose proof (length_mapM _ _ _ Hcells) as Hlenc. rewrite length_seqZ in Hlenc.
  destruct (mapM_lookup _ _ _ (Z.to_nat week) week Hcells) as (cell & Hcell & Hdraw).
  { rewrite lookup_seqZ. unfold weeksToDisplay in *. lia. }
  destruct (grid_get grid day week) as [count|] eqn:Hcount; [|done]. cbn in Hdraw.
  exists dayLabel, cells, count, cell.
  split; [done|]. split; [done|]. split; [by rewrite <- Hlenc|]. done.
Qed.

Lemma renderGrid_rows (grid : Grid) :
  grid_shape grid ->
  exists rows,
    renderGrid grid = Some (Join newline rows) /\
    length rows = 7%nat /\
    forall day, 0 <= day < daysPerWeek ->
      exists row, rows !! Z.to_nat day = Some row /\ renderRow grid day = Some row.
Proof.
  intros Hshape.
  destruct (renderGrid_total grid Hshape) as [text Htext].
  unfold renderGrid in Htext.
  destruct (mapM (renderRow grid) (seqZ 0 daysPerWeek)) as [rows|] eqn:Hrows; [|done].
  pose proof (length_mapM _ _ _ Hrows) as Hlen. rewrite length_seqZ in Hlen.
  exists rows. split; [by unfold renderGrid; rewrite Hrows|].
  split; [by rewrite <- Hlen|].
  intros day Hd. apply (mapM_lookup _ _ _ (Z.to_nat day) day Hrows).
  rewrite lookup_seqZ. unfold daysPerWeek in *. lia.
Qed.

(** X12. The body of the heat map has seven rows, each a day label followed by 52
    cells, and the cell of row [day] and column [week] is drawn from
    [grid[day][week]]. *)
Theorem renderGrid_layout (grid : Grid) (day week : Z) :
  grid_shape grid ->
  0 <= day < daysPerWeek -> 0 <= week < weeksToDisplay ->
  exists rows dayLabel cells count cell,
    renderGrid grid = Some (Join newline rows) /\
    length rows = 7%nat /\
    dayLabels !! Z.to_nat day = Some dayLabel /\
    rows !! Z.to_nat day
      = Some (Join "" (Styled [Foreground colorLabel; Width dayLabelWidth] (Plain dayLabel)
                       :: cells)) /\
    length cells = 52%nat /\
    grid_get grid day week = Some count /\
    renderCell count = Some cell /\
    cells !! Z.to_nat week = Some cell.
Proof.
  intros Hshape Hd Hw.
  destruct (renderGrid_rows grid Hshape) as (rows & Hrender & Hlen & Hrows).
  destruct (Hrows day Hd) as (row & Hrow & Hdraw).
  destruct (renderRow_cells grid day week row Hdraw Hw)
    as (dayLabel & cells & count & cell & Hlabel & -> & Hcells & Hget & Hcell & Hat).
  exists rows, dayLabel, cells, count, cell.
  split; [done|]. split; [done|]. split; [done|]. split; [done|].
  split; [done|]. split; [done|]. split; done.
Qed.

Lemma renderGrid_layout_witness :
  grid_shape zeroGrid /\ 0 <= 3 < daysPerWeek /\ 0 <= 51 < weeksToDisplay /\
  exists rows dayLabel cells count cell,
    renderGrid zeroGrid = Some (Join newline rows) /\
    length rows = 7%nat /\
    dayLabels !! Z.to_nat 3 = Some dayLabel /\
    rows !! Z.to_nat 3
      = Some (Join "" (Styled [Foreground colorLabel; Width dayLabelWidth] (Plain dayLabel)
                       :: cells)) /\
    length cells = 52%nat /\
    grid_get zeroGrid 3 51 = Some count /\
    renderCell count = Some cell /\
    cells !! Z.to_nat 51 = Some cell.
Proof.
  split; [apply zeroGrid_shape|]. split; [by unfold daysPerWeek|].
  split; [by unfold weeksToDisplay|].
  apply renderGrid_layout; [apply zeroGrid_shape|by unfold daysPerWeek|by unfold weeksToDisplay].
Defined.

(** X13. From the contributions to the picture: an in-window contribution of a
    sequence in date order with one entry per date is drawn in row
    [weekday(date)], column [(date - anchor) / 7], as a block in the colour of
    the level of its count followed by a space. *)
Theorem heat_map_cell_of_contribution (g : Graph) (first c : Contribution)
    (rest : list Contribution) :
  contributions g = first :: rest ->
  dates_sorted (contributions g) ->
  one_entry_per_date (contributions g) ->
  c ∈ contributions g ->
  in_window (sundayBefore (Date first)) (Date c) ->
  exists rows label cells color,
    renderGrid (buildGrid g) = Some (Join newline rows) /\
    rows !! Z.to_nat (Weekday (Date c)) = Some (Join "" (label :: cells)) /\
    palette !! Z.to_nat (getContributionLevel (Count c)) = Some color /\
    cells !! Z.to_nat (week_of (sundayBefore (Date first)) (Date c))
      = Some (Join "" [Styled [Foreground color] (Plain blockChar); Plain " "]).
Proof.
  intros Hl Hs Hnd Hc Hw.
  destruct (sundayBefore_spec (Date first)) as (_ & Hsun & Hnear).
  pose proof (Weekday_range (Date c)) as Hday.
  destruct (renderGrid_rows (buildGrid g) (buildGrid_shape g)) as (rows & Hrender & _ & Hrows).
  destruct (Hrows (Weekday (Date c)) ltac:(by unfold daysPerWeek)) as (row & Hrow & Hdraw).
  destruct (renderRow_cells (buildGrid g) (Weekday (Date c))
              (week_of (sundayBefore (Date first)) (Date c)) row Hdraw Hw)
    as (dayLabel & cells & count & cell & _ & -> & _ & Hget & Hcell & Hat).
  assert (count = Count c) as ->.
  { assert (Some count = Some (Count c)) as [= ->]; [|done].
    rewrite <- Hget. unfold buildGrid. rewrite Hl, <- Hl.
    destruct Hw as [_ Hw].
    apply buildGrid_loop_read; [done|apply zeroGrid_shape| |done..].
    apply Forall_forall. intros c' Hc'. rewrite Hl in Hs, Hc'.
    pose proof (first_date_least _ _ _ Hs Hc'). lia. }
  exists rows, (Styled [Foreground colorLabel; Width dayLabelWidth] (Plain dayLabel)), cells.
  unfold renderCell in Hcell.
  destruct (getColorForLevel (getContributionLevel (Count c))) as [color|] eqn:Hcolor; [|done].
  cbn in Hcell. injection Hcell as <-.
  exists color. split; [done|]. split; [done|]. split; [|done].
  rewrite getColorForLevel_palette in Hcolor.
  pose proof (getContributionLevel_cases (Count c)) as Hlevel.
  destruct (Z.leb_spec 0 (getContributionLevel (Count c))); [|lia].
  destruct (Z.ltb_spec (getContributionLevel (Count c)) 5); [done|lia].
Qed.

Lemma heat_map_cell_of_contribution_witness :
  let first := mkContribution 19000 3 in
  let c := mkContribution 19002 12 in
  let g := NewGraph [first; mkContribution 19001 0; c] in
  dates_sorted (contributions g) /\ one_entry_per_date (contributions g) /\
  c ∈ contributions g /\ in_window (sundayBefore (Date first)) (Date c) /\
  exists rows label cells color,
    renderGrid (buildGrid g) = Some (Join newline rows) /\
    rows !! Z.to_nat (Weekday (Date c)) = Some (Join "" (label :: cells)) /\
    palette !! Z.to_nat (getContributionLevel (Count c)) = Some color /\
    cells !! Z.to_nat (week_of (sundayBefore (Date first)) (Date c))
      = Some (Join "" [Styled [Foreground color] (Plain blockChar); Plain " "]).
Proof.
  cbn zeta.
  set (g := NewGraph [mkContribution 19000 3; mkContribution 19001 0;
                      mkContribution 19002 12]).
  assert (dates_sorted (contributions g)) as Hs
    by (unfold dates_sorted; cbn; repeat constructor; lia).
  assert (one_entry_per_date (contributions g)) as Hnd
    by (unfold one_entry_per_date; cbn; apply (bool_decide_unpack _); vm_compute; exact I).
  assert (mkContribution 19002 12 ∈ contributions g) as Hc by (cbn; repeat constructor).
  assert (in_window (sundayBefore (Date (mkContribution 19000 3)))
            (Date (mkContribution 19002 12))) as Hw
    by (unfold in_window; vm_compute; split; [discriminate|reflexivity]).
  split; [exact Hs|]. split; [exact Hnd|]. split; [exact Hc|]. split; [exact Hw|].
  exact (heat_map_cell_of_contribution g _ _ _ eq_refl Hs Hnd Hc Hw).
Defined.

(** *** The month labels *)

Lemma stamp_length monthName : forall pos i labelChars,
  length (stamp pos i monthName labelChars) = length labelChars.
Proof.
  induction monthName as [|ch rest IH]; intros pos i labelChars; cbn [stamp]; [done|].
  rewrite IH. destruct (_ <? _); [apply length_insert|done].
Qed.

Lemma stamp_lookup_before monthName : forall pos i labelChars (j : nat),
  0 <= pos + i -> Z.of_nat j < pos + i ->
  stamp pos i monthName labelChars !! j = labelChars !! j.
Proof.
  induction monthName as [|ch rest IH]; intros pos i labelChars j Hnn Hj; cbn [stamp]; [done|].
  rewrite IH by lia. destruct (_ <? _); [|done].
  apply list_lookup_insert_ne. lia.
Qed.

Lemma month_label_step_keeps startDate st week st' :
  month_label_step startDate st week = Some st' ->
  length st'.1 = length st.1 /\
  (1 <= week -> forall j : nat, (j < 2)%nat -> st'.1 !! j = st.1 !! j).
Proof.
  unfold month_label_step. destruct st as [labelChars currentMonth].
  destruct (negb _); [|by intros [= <-]].
  destruct (_ <? 0); [done|].
  destruct (months !! _) as [monthName|]; [|done]. cbn. intros [= <-]. cbn [fst].
  split; [apply stamp_length|].
  intros Hw j Hj. apply stamp_lookup_before; unfold cellWidth; lia.
Qed.

Lemma month_label_loop_keeps startDate weeks : forall st st',
  month_label_loop startDate weeks st = Some st' ->
  length st'.1 = length st.1 /\
  (Forall (fun week => 1 <= week) weeks ->
   forall j : nat, (j < 2)%nat -> st'.1 !! j = st.1 !! j).
Proof.
  induction weeks as [|week rest IH]; intros st st'; cbn [month_label_loop].
  - by intros [= <-].
  - destruct (month_label_step startDate st week) as [st1|] eqn:Hstep; [|done]. cbn.
    intros Hloop. destruct (month_label_step_keeps _ _ _ _ Hstep) as [Hlen1 Hkeep1].
    destruct (IH _ _ Hloop) as [Hlen Hkeep].
    split; [congruence|]. intros Hall j Hj.
    inversion Hall as [|? ? Hw Hrest]; subst.
    rewrite Hkeep, Hkeep1; done.
Qed.

Lemma length_string_of_list_ascii l :
  String.length (string_of_list_ascii l) = length l.
Proof. induction l as [|a l IH]; cbn; [done|]. by rewrite IH. Qed.

(** X14. The month row is as wide as the 52 cells below it (104 characters after
    the four of the day-label column, 108 in all), whatever the dates are, and
    it begins with the first two letters of the month of the start Sunday. *)
Theorem renderMonthLabels_width (g : Graph) (first : Contribution)
    (rest : list Contribution) :
  contributions g = first :: rest ->
  exists row monthName,
    renderMonthLabels g
      = Some (Join "" [Plain "    "; Styled [Foreground colorLabel] (Plain row)]) /\
    Z.of_nat (String.length row) = weeksToDisplay * cellWidth /\
    dayLabelWidth + Z.of_nat (String.length row) = minTerminalWidth /\
    months !! Z.to_nat (Month (sundayBefore (Date first)) - 1) = Some monthName /\
    take 2 (list_ascii_of_string row) = take 2 (list_ascii_of_string monthName).
Proof.
  intros Hl. unfold renderMonthLabels. rewrite Hl. cbn zeta.
  set (startDate := sundayBefore (Date first)).
  set (blank := replicate (Z.to_nat (weeksToDisplay * cellWidth)) " "%char).
  rewrite (seqZ_cons 0 weeksToDisplay) by done. cbn [month_label_loop].
  (* week 0 always stamps: no month is -1 *)
  pose proof (Month_range (startDate + 0 * 7)) as Hm.
  replace (startDate + 0 * 7) with startDate in Hm by lia.
  unfold month_label_step at 1. replace (startDate + 0 * 7) with startDate by lia.
  destruct (Z.eqb_spec (Month startDate - 1) (-1)); [lia|]. cbn [negb].
  destruct (Z.ltb_spec (Month startDate - 1) 0); [lia|].
  destruct (lookup_lt_is_Some_2 months (Z.to_nat (Month startDate - 1)))
    as [monthName Hname]; [change (length months) with 12%nat; lia|].
  rewrite Hname. cbn [mbind option_bind].
  set (st1 := (stamp (0 * cellWidth) 0 (list_ascii_of_string monthName) blank,
               Month startDate - 1)).
  destruct (month_label_loop_total startDate (seqZ (Z.succ 0) (Z.pred weeksToDisplay)) st1)
    as [[labelChars month] Hloop].
  rewrite Hloop. cbn [mbind option_bind].
  destruct (month_label_loop_keeps _ _ _ _ Hloop) as [Hlen Hkeep].
  cbn [fst] in Hlen, Hkeep. unfold st1 in Hlen. cbn [fst] in Hlen.
  rewrite stamp_length in Hlen. unfold blank in Hlen. rewrite length_replicate in Hlen.
  exists (string_of_list_ascii labelChars), monthName.
  split; [done|]. rewrite length_string_of_list_ascii, Hlen.
  split; [by rewrite Z2Nat.id|]. split; [by rewrite Z2Nat.id|]. split; [done|].
  rewrite list_ascii_of_string_of_list_ascii.
  assert (Forall (fun week => 1 <= week) (seqZ (Z.succ 0) (Z.pred weeksToDisplay))) as Hweeks.
  { apply Forall_forall. intros w Hw. apply elem_of_seqZ in Hw. lia. }
  specialize (Hkeep Hweeks).
  (* the twelve names have three letters each *)
  assert (exists a b rest', list_ascii_of_string monthName = a :: b :: rest') as (a & b & rest' & Hchars).
  { apply list_elem_of_lookup_2 in Hname.
    repeat (apply elem_of_cons in Hname as [->|Hname]; [by eexists _, _, _|]).
    by apply elem_of_nil in Hname. }
  assert (st1.1 !! 0%nat = Some a /\ st1.1 !! 1%nat = Some b) as [H0 H1].
  { unfold st1. cbn [fst]. rewrite Hchars. cbn [stamp].
    change (0 * cellWidth + 0 <? Z.of_nat (length blank)) with true. cbn iota.
    rewrite length_insert.
    change (0 * cellWidth + (0 + 1) <? Z.of_nat (length blank)) with true. cbn iota.
    split; (rewrite stamp_lookup_before by (cbn; lia)); reflexivity. }
  rewrite <- (Hkeep 0%nat) in H0 by lia. rewrite <- (Hkeep 1%nat) in H1 by lia.
  rewrite Hchars. cbn [take].
  destruct labelChars as [|x [|y tl]]; cbn in H0, H1; try done.
  by injection H0 as ->; injection H1 as ->.
Qed.

Lemma renderMonthLabels_width_witness :
  let g := NewGraph [mkContribution 19020 1; mkContribution 19021 2] in
  contributions g = mkContribution 19020 1 :: [mkContribution 19021 2] /\
  exists row monthName,
    renderMonthLabels g
      = Some (Join "" [Plain "    "; Styled [Foreground colorLabel] (Plain row)]) /\
    Z.of_nat (String.length row) = weeksToDisplay * cellWidth /\
    dayLabelWidth + Z.of_nat (String.length row) = minTerminalWidth /\
    months !! Z.to_nat (Month (sundayBefore 19020) - 1) = Some monthName /\
    take 2 (list_ascii_of_string row) = take 2 (list_ascii_of_string monthName).
Proof.
  cbn zeta. split; [reflexivity|].
  exact (renderMonthLabels_width (NewGraph [mkContribution 19020 1; mkContribution 19021 2])
           _ _ eq_refl).
Defined.

(** Labels of two months can run into each other: when the start Sunday is
    the last one of January, "Feb" is stamped two columns later, over the
    last letter of "Jan". *)
Example month_labels_overlap :
  exists row,
    renderMonthLabels (NewGraph [mkContribution 19024 1])
      = Some (Join "" [Plain "    "; Styled [Foreground colorLabel] (Plain row)]) /\
    substring 0 8 row = "JaFeb   "%string.
Proof. eexists. split; [vm_compute; reflexivity|reflexivity]. Qed.

End HeatMap.

(** ** The hour distribution *)

Section Distribution.

Implicit Types (m : gmap Z Z) (a : Activity) (l : list Activity).

Lemma events_since_cons cutoff a l :
  events_since cutoff (a :: l) =
  if Before (Timestamp a) cutoff then events_since cutoff l
  else a :: events_since cutoff l.
Proof.
  unfold events_since. rewrite filter_cons.
  destruct (Before (Timestamp a) cutoff); by case_decide.
Qed.

Lemma count_step_bucket cutoff m a h :
  default 0 (count_step cutoff m a !! h) =
  default 0 (m !! h) +
  (if Before (Timestamp a) cutoff then 0
   else if decide (Hour (Timestamp a) = h) then 1 else 0).
Proof.
  unfold count_step. destruct (Before (Timestamp a) cutoff); [lia|].
  case_decide as E.
  - subst h. rewrite lookup_insert_eq. cbn. lia.
  - rewrite lookup_insert_ne by done. lia.
Qed.

Lemma count_loop_bucket cutoff l : forall m h,
  default 0 (foldl (count_step cutoff) m l !! h) =
  default 0 (m !! h) + Z.of_nat (length (events_at_hour h (events_since cutoff l))).
Proof.
  induction l as [|a l IH]; intros m h; cbn [foldl].
  - cbn. lia.
  - rewrite IH, count_step_bucket, events_since_cons.
    destruct (Before (Timestamp a) cutoff); [lia|].
    unfold events_at_hour. rewrite filter_cons.
    case_decide; cbn [length]; lia.
Qed.

Lemma count_hours_bucket_size (cutoff : Time) (activities : list Activity) (hour : Z) :
  default 0 (count_hours cutoff activities !! hour)
    = Z.of_nat (length (events_at_hour hour (events_since cutoff activities))).
Proof. unfold count_hours. rewrite count_loop_bucket, lookup_empty. cbn. lia. Qed.

(** X15. Each bucket holds the number of events at or after the cutoff that fall in
    its hour of the day, and an hour without such an event has no bucket. *)
Theorem count_hours_bucket (cutoff : Time) (activities : list Activity) (hour : Z) :
  default 0 (count_hours cutoff activities !! hour)
    = Z.of_nat (length (events_at_hour hour (events_since cutoff activities))) /\
  (count_hours cutoff activities !! hour = None <->
   events_at_hour hour (events_since cutoff activities) = []).
Proof.
  pose proof (count_hours_bucket_size cutoff activities hour) as Hb.
  split; [done|].
  pose proof (count_hours_buckets cutoff activities hour) as Hpos.
  destruct (count_hours cutoff activities !! hour) as [c|] eqn:E.
  - destruct (Hpos c eq_refl) as [_ Hc]. cbn [default from_option id] in Hb.
    split; [done|]. intros Hnil. rewrite Hnil in Hb. cbn in Hb. lia.
  - split; [|done]. intros _. cbn [default from_option] in Hb.
    apply length_zero_iff_nil. lia.
Qed.

Lemma distribution_total_insert m h c :
  distribution_total (<[h := c]> m) = distribution_total m - default 0 (m !! h) + c.
Proof.
  unfold distribution_total.
  destruct (m !! h) as [c0|] eqn:E; cbn.
  - rewrite <- insert_delete_eq.
    rewrite map_fold_insert_L; [|intros; lia|apply lookup_delete_eq].
    rewrite (map_fold_delete_L _ _ h c0 m); [unfold id; lia|intros; lia|done].
  - rewrite map_fold_insert_L; [unfold id; lia|intros; lia|done].
Qed.

Lemma count_loop_total cutoff l : forall m,
  distribution_total (foldl (count_step cutoff) m l) =
  distribution_total m + Z.of_nat (length (events_since cutoff l)).
Proof.
  induction l as [|a l IH]; intros m; cbn [foldl].
  - cbn. lia.
  - rewrite IH, events_since_cons. unfold count_step.
    destruct (Before (Timestamp a) cutoff); [lia|].
    rewrite distribution_total_insert. cbn [length]. lia.
Qed.

(** X16. The counts of the distribution add up to the number of events at or
    after the cutoff: every such event is counted once, whatever its type,
    and no other event is counted. *)
Theorem count_hours_total (cutoff : Time) (activities : list Activity) :
  distribution_total (count_hours cutoff activities)
  = Z.of_nat (length (events_since cutoff activities)).
Proof.
  unfold count_hours. rewrite count_loop_total.
  unfold distribution_total. rewrite map_fold_empty. lia.
Qed.

Lemma window_cutoff_nested now :
  unixNano (window_cutoff now ThisYear) <= unixNano (window_cutoff now ThisMonth)
    <= unixNano (window_cutoff now ThisWeek).
Proof. cbn. lia. Qed.

Lemma events_since_later cutoff cutoff' h l :
  unixNano cutoff <= unixNano cutoff' ->
  (length (events_at_hour h (events_since cutoff' l))
   <= length (events_at_hour h (events_since cutoff l)))%nat.
Proof.
  intros Hle. induction l as [|a l IH]; [done|].
  rewrite !events_since_cons. unfold Before.
  destruct (Z.ltb_spec (unixNano (Timestamp a)) (unixNano cutoff'));
    destruct (Z.ltb_spec (unixNano (Timestamp a)) (unixNano cutoff)); try lia.
  - unfold events_at_hour in *. rewrite filter_cons. case_decide; cbn [length]; lia.
  - unfold events_at_hour in *. rewrite !filter_cons. case_decide; cbn [length]; lia.
Qed.

(** X17. A wider window never shows fewer events: hour by hour, the distribution
    of the week is below that of the month, which is below that of the
    year. *)
Theorem distribution_grows_with_window (range_keys : gmap Z Z -> list Z)
    (now : Time) (activities : list Activity) (hour : Z) :
  let bucket window :=
    default 0 ((CalculatePeakCodingHour range_keys now activities window).2 !! hour) in
  bucket ThisWeek <= bucket ThisMonth <= bucket ThisYear.
Proof.
  intros bucket. subst bucket. cbv beta.
  assert (forall window,
            (CalculatePeakCodingHour range_keys now activities window).2
            = count_hours (window_cutoff now window) activities) as Hdist.
  { intros window. unfold CalculatePeakCodingHour. by destruct (findPeak _ _). }
  rewrite !Hdist.
  rewrite !count_hours_bucket_size.
  pose proof (window_cutoff_nested now) as [H1 H2].
  pose proof (events_since_later _ _ hour activities H1).
  pose proof (events_since_later _ _ hour activities H2). lia.
Qed.

End Distribution.

(** ** The peak label *)

Lemma peakString_labels_distinct :
  NoDup (peakString 1 <$> seqZ 0 24) /\ "No data"%string ∉ (peakString 1 <$> seqZ 0 24).
Proof.
  split.
  - apply (bool_decide_unpack _). vm_compute. exact I.
  - apply (bool_decide_unpack _). vm_compute. exact I.
Qed.

Lemma peakString_not_no_data (maxCount h : Z) :
  maxCount <> 0 -> 0 <= h < 24 -> peakString maxCount h <> "No data"%string.
Proof.
  intros Hm Hh. rewrite (peakString_nonzero maxCount) by done.
  destruct peakString_labels_distinct as [_ Hno]. intros E. apply Hno. rewrite <- E.
  apply list_elem_of_fmap. exists h. split; [done|]. apply elem_of_seqZ. lia.
Qed.

(** X18. The label determines the hour: two different peak hours of the day never
    get the same label, and none of them is labelled "No data". *)
Theorem peakString_injective (maxCount maxCount' h h' : Z) :
  maxCount <> 0 -> maxCount' <> 0 -> 0 <= h < 24 -> 0 <= h' < 24 ->
  peakString maxCount h <> "No data"%string /\
  (peakString maxCount h = peakString maxCount' h' -> h = h').
Proof.
  intros Hm Hm' Hh Hh'.
  rewrite (peakString_nonzero maxCount), (peakString_nonzero maxCount') by done.
  destruct peakString_labels_distinct as [Hnd Hno].
  assert (forall x, 0 <= x < 24 ->
            (peakString 1 <$> seqZ 0 24) !! Z.to_nat x = Some (peakString 1 x)) as Hat.
  { intros x Hx. rewrite list_lookup_fmap.
    assert (seqZ 0 24 !! Z.to_nat x = Some x) as -> by (apply lookup_seqZ; lia).
    done. }
  split.
  - intros E. apply Hno. rewrite <- E. eapply list_elem_of_lookup_2, Hat. done.
  - intros E. pose proof (Hat h Hh) as H1. pose proof (Hat h' Hh') as H2.
    rewrite <- E in H2. pose proof (NoDup_lookup _ _ _ _ Hnd H1 H2). lia.
Qed.

Lemma peakString_injective_witness :
  (3 : Z) <> 0 /\ (1 : Z) <> 0 /\ 0 <= 11 < 24 /\ 0 <= 23 < 24 /\
  peakString 3 11 <> "No data"%string /\
  (peakString 3 11 = peakString 1 23 -> (11 : Z) = 23).
Proof.
  split; [lia|]. split; [lia|]. split; [lia|]. split; [lia|].
  apply peakString_injective; lia.
Defined.

(** X19. "No data" is shown exactly when no event lies at or after the cutoff. *)
Theorem no_data_iff_no_recent_event (range_keys : gmap Z Z -> list Z)
    (now : Time) (activities : list Activity) (window : Z) :
  range_order range_keys ->
  (CalculatePeakCodingHour range_keys now activities window).1 = "No data"%string
  <-> events_since (window_cutoff now window) activities = [].
Proof.
  intros Hord.
  set (cutoff := window_cutoff now window).
  pose proof (count_hours_buckets cutoff activities) as Hb.
  pose proof (findPeak_lowest range_keys _ Hord Hb) as Hpeak.
  assert (distribution_total (count_hours cutoff activities)
          = Z.of_nat (length (events_since cutoff activities))) as Htotal.
  { unfold count_hours. rewrite count_loop_total.
    unfold distribution_total. rewrite map_fold_empty. lia. }
  unfold CalculatePeakCodingHour. fold cutoff.
  destruct (findPeak range_keys (count_hours cutoff activities)) as [maxCount peakHour].
  cbn [fst].
  destruct Hpeak as [[Hempty [= -> ->]]|[Hph _]]; cbn [fst snd] in *.
  - rewrite Hempty in Htotal. unfold distribution_total in Htotal.
    rewrite map_fold_empty in Htotal.
    split; [intros _; apply length_zero_iff_nil; lia|done].
  - destruct (Hb _ _ Hph) as [Hrange Hpos].
    pose proof (peakString_not_no_data maxCount peakHour ltac:(lia) Hrange) as Hno.
    split; [done|]. intros Hnil.
    pose proof (count_hours_bucket_size cutoff activities peakHour) as Hbucket.
    rewrite Hph, Hnil in Hbucket. cbn in Hbucket. unfold id in Hbucket. lia.
Qed.

Lemma no_data_iff_no_recent_event_witness :
  range_order reversed_keys /\
  events_since (window_cutoff sample_now ThisWeek) sample_activities <> [] /\
  (CalculatePeakCodingHour reversed_keys sample_now sample_activities ThisWeek).1
    <> "No data"%string.
Proof.
  split; [exact reversed_keys_order|].
  assert (events_since (window_cutoff sample_now ThisWeek) sample_activities <> []) as Hne
    by (vm_compute; discriminate).
  split; [exact Hne|]. intros E. apply Hne.
  by apply (no_data_iff_no_recent_event reversed_keys sample_now sample_activities ThisWeek
              reversed_keys_order).
Defined.

(** X20. The two nested loops of [CalculatePeakCodingHour] sort any list of hours,
    duplicates included: the result is in ascending order and has the same
    elements. *)
Theorem sort_hours_ascending (hours : list Z) :
  sort_hours hours ≡ₚ hours /\
  Sorted Z.le (sort_hours hours) /\
  length (sort_hours hours) = length hours.
Proof.
  destruct (sort_hours_sorted hours) as [Hp Hs].
  split; [done|]. split; [by apply StronglySorted_Sorted|]. by rewrite Hp.
Qed.

(** ** Wrapping the biography *)

Lemma len_nonneg (s : string) : 0 <= len s.
Proof. unfold len. lia. Qed.

Lemma append_cons (a : ascii) (s t : string) : String a s +:+ t = String a (s +:+ t).
Proof. reflexivity. Qed.

Lemma length_append (s t : string) :
  String.length (s +:+ t) = (String.length s + String.length t)%nat.
Proof.
  induction s as [|a s IH]; [done|]. rewrite append_cons. simpl. by f_equal.
Qed.

Lemma len_app (s t : string) : len (s +:+ t) = len s + len t.
Proof. unfold len. rewrite length_append. lia. Qed.

Lemma len_zero (s : string) : len s = 0 <-> s = ""%string.
Proof. unfold len. destruct s; cbn; split; intros; (done || lia). Qed.

Lemma len_substring (s : string) (n : nat) :
  (n <= String.length s)%nat -> String.length (substring 0 n s) = n.
Proof.
  revert n. induction s as [|a s IH]; intros [|n] Hn; cbn in *; try lia.
  rewrite IH; lia.
Qed.

Lemma string_app_assoc (s t u : string) : (s +:+ t) +:+ u = s +:+ (t +:+ u).
Proof. induction s as [|a s IH]; [done|]. rewrite !append_cons. by f_equal. Qed.

Lemma eqb_empty (s : string) : String.eqb s "" = bool_decide (len s = 0).
Proof.
  destruct (String.eqb_spec s ""%string) as [->|Hne]; [done|].
  symmetry. apply bool_decide_eq_false. rewrite len_zero. done.
Qed.

Lemma wrap_small (z : Z) : in_range z -> wrap z = z.
Proof. unfold in_range, wrap, minInt, maxInt. intros Hz. rewrite Z.mod_small; lia. Qed.

Section WrapTextProperties.

Variable Fields : string -> list string.

Implicit Types (lines words : list string) (word currentLine : string).

Lemma wrap_words_total width words : forall lines currentLine,
  3 <= width <= maxInt ->
  is_Some (wrap_words width (lines, currentLine) words).
Proof.
  intros lines currentLine Hw. revert lines currentLine.
  induction words as [|word rest IH]; intros lines currentLine; cbn; [done|].
  destruct (Z.gtb_spec (len currentLine + len word + 1) width) as [Hover|Hfit].
  - rewrite eqb_empty. case_bool_decide as Hc.
    + unfold slice_to, int_sub. rewrite wrap_small by (unfold in_range, minInt, maxInt in *; lia).
      destruct (Z.leb_spec 0 (width - 3)); [|lia].
      destruct (Z.leb_spec (width - 3) (len word)); [|lia]. cbn. apply IH.
    + cbn. apply IH.
  - rewrite eqb_empty. case_bool_decide; cbn; apply IH.
Qed.

Lemma wrap_words_fit width words : forall lines currentLine,
  3 <= width <= maxInt ->
  Forall (fun line => len line <= width) lines ->
  len currentLine <= width ->
  Forall (fun word => len word <= width) words ->
  exists lines' currentLine',
    wrap_words width (lines, currentLine) words = Some (lines', currentLine') /\
    Forall (fun line => len line <= width) lines' /\ len currentLine' <= width.
Proof.
  intros lines currentLine Hw. revert lines currentLine.
  induction words as [|word rest IH]; intros lines currentLine Hl Hc Hwords; cbn.
  { eauto. }
  apply Forall_cons in Hwords as [Hword Hrest].
  destruct (Z.gtb_spec (len currentLine + len word + 1) width) as [Hover|Hfit].
  - rewrite eqb_empty. case_bool_decide as Hempty.
    + unfold slice_to, int_sub. rewrite wrap_small by (unfold in_range, minInt, maxInt in *; lia).
      destruct (Z.leb_spec 0 (width - 3)); [|lia].
      destruct (Z.leb_spec (width - 3) (len word)); [|lia]. cbn.
      apply IH; [|done..]. apply Forall_app. split; [done|]. apply Forall_singleton.
      rewrite len_app. unfold len at 1. rewrite len_substring by (unfold len in *; lia).
      change (len "...") with 3. lia.
    + cbn. apply IH; [|done..]. apply Forall_app. split; [done|].
      by apply Forall_singleton.
  - rewrite eqb_empty. case_bool_decide as Hempty; cbn; apply IH; try done.
    rewrite !len_app. change (len " ") with 1. lia.
Qed.

Lemma concat_cons_more (sep x : string) (l : list string) :
  l <> [] -> String.concat sep (x :: l) = x +:+ sep +:+ String.concat sep l.
Proof. by destruct l. Qed.

Lemma concat_merge (sep x y : string) (before after : list string) :
  String.concat sep (before ++ (x +:+ sep +:+ y) :: after)
  = String.concat sep (before ++ x :: y :: after).
Proof.
  induction before as [|b before IH].
  - cbn [app]. rewrite (concat_cons_more sep x) by done.
    destruct after as [|a after].
    + cbn. done.
    + rewrite !(concat_cons_more sep _ (a :: after)) by done.
      by rewrite !string_app_assoc.
  - cbn [app]. rewrite !(concat_cons_more sep b) by (by destruct before).
    by rewrite IH.
Qed.

Lemma wrap_words_keeps width words : forall lines currentLine lines' currentLine',
  Forall (fun word => 0 < len word < width) words ->
  wrap_words width (lines, currentLine) words = Some (lines', currentLine') ->
  String.concat " " (lines' ++ pending currentLine')
  = String.concat " " (lines ++ pending currentLine ++ words).
Proof.
  induction words as [|word rest IH]; intros lines currentLine lines' currentLine' Hwords;
    cbn [wrap_words].
  { intros [= <- <-]. by rewrite app_nil_r. }
  apply Forall_cons in Hwords as [Hword Hrest].
  assert (pending word = [word]) as Hpw.
  { unfold pending. rewrite eqb_empty. case_bool_decide; [lia|done]. }
  unfold wrap_word.
  destruct (Z.gtb_spec (len currentLine + len word + 1) width) as [Hover|Hfit].
  - unfold pending at 2. rewrite eqb_empty. case_bool_decide as Hempty.
    { pose proof (len_nonneg currentLine). lia. }
    cbn. intros Hrun. rewrite (IH _ _ _ _ Hrest Hrun), Hpw.
    by rewrite <- !app_assoc.
  - unfold pending at 2. rewrite eqb_empty. case_bool_decide as Hempty; cbn; intros Hrun.
    + rewrite (IH _ _ _ _ Hrest Hrun), Hpw. done.
    + rewrite (IH _ _ _ _ Hrest Hrun).
      assert (pending (currentLine +:+ " " +:+ word) = [currentLine +:+ " " +:+ word]) as ->.
      { unfold pending. rewrite eqb_empty. case_bool_decide as E; [|done].
        rewrite !len_app in E. pose proof (len_nonneg currentLine). change (len " ") with 1 in E. lia. }
      cbn [app]. apply (concat_merge " ").
Qed.

(** X21. From width 3 on, [wrapText] returns for every text, whatever
    [strings.Fields] yields: the cut [word[:width-3]] is only made on a word
    of at least [width] bytes.  Below width 3 that cut has a negative bound:
    the call panics when the text is longer than the width and its first
    word has at least [width] bytes. *)
Theorem wrapText_panics_only_when_narrow (text : string) (width : Z) :
  (3 <= width <= maxInt -> is_Some (wrapText Fields text width)) /\
  (forall word rest,
     minInt + 3 <= width < 3 ->
     width < len text ->
     Fields text = word :: rest ->
     width <= len word ->
     wrapText Fields text width = None).
Proof.
  split.
  - intros Hw. unfold wrapText. destruct (len text <=? width); [done|].
    destruct (wrap_words_total width (Fields text) [] ""%string Hw) as [[lines cur] ->].
    done.
  - intros word rest Hw Htext Hfields Hword. unfold wrapText.
    destruct (Z.leb_spec (len text) width); [lia|].
    rewrite Hfields. cbn.
    change (len "") with 0.
    destruct (Z.gtb_spec (0 + len word + 1) width); [|lia].
    unfold slice_to, int_sub.
    rewrite wrap_small by (unfold in_range, minInt, maxInt in *; lia).
    destruct (Z.leb_spec 0 (width - 3)); [lia|]. reflexivity.
Qed.

(** X22. When no word is longer than the width, no returned line is.  When the
    text is wrapped and every word is non-empty and shorter than the width,
    nothing is lost: the lines joined by single spaces are the words joined
    by single spaces. *)
Theorem wrapText_fits_and_keeps_words (text : string) (width : Z) :
  3 <= width <= maxInt ->
  Forall (fun word => len word <= width) (Fields text) ->
  exists lines,
    wrapText Fields text width = Some lines /\
    Forall (fun line => len line <= width) lines /\
    (width < len text ->
     Forall (fun word => 0 < len word < width) (Fields text) ->
     String.concat " " lines = String.concat " " (Fields text)).
Proof.
  intros Hw Hwords. unfold wrapText.
  destruct (Z.leb_spec (len text) width) as [Hshort|Hlong].
  { exists [text]. split; [done|]. split; [by apply Forall_singleton|lia]. }
  destruct (wrap_words_fit width (Fields text) [] ""%string Hw) as
    (lines & cur & Hrun & Hfit & Hcur); [done|change (len "") with 0; lia|done|].
  rewrite Hrun. cbn.
  exists (lines ++ pending cur). split.
  { unfold pending. destruct (String.eqb cur ""); [by rewrite app_nil_r|done]. }
  split.
  - apply Forall_app. split; [done|]. unfold pending.
    destruct (String.eqb cur ""); [done|by apply Forall_singleton].
  - intros _ Hshorter. by rewrite (wrap_words_keeps _ _ _ _ _ _ Hshorter Hrun).
Qed.

Lemma wrap_words_pending width words : forall lines currentLine,
  Forall (fun word => 0 < len word < width) words ->
  (words = [] -> currentLine <> ""%string) ->
  exists lines' currentLine',
    wrap_words width (lines, currentLine) words = Some (lines', currentLine') /\
    currentLine' <> ""%string.
Proof.
  induction words as [|word rest IH]; intros lines currentLine Hwords Hne; cbn.
  { eauto. }
  apply Forall_cons in Hwords as [Hword Hrest].
  assert (word <> ""%string) as Hw by (rewrite <- len_zero; lia).
  destruct (Z.gtb_spec (len currentLine + len word + 1) width) as [Hover|Hfit].
  - rewrite eqb_empty. case_bool_decide as Hempty.
    { pose proof (len_nonneg currentLine). lia. }
    cbn. by apply IH.
  - rewrite eqb_empty. case_bool_decide as Hempty; cbn; apply IH; try done.
    intros _ E. apply len_zero in E. rewrite !len_app in E.
    pose proof (len_nonneg currentLine). change (len " ") with 1 in E. lia.
Qed.

Lemma wrap_words_app width words words' : forall st,
  wrap_words width st (words ++ words')
  = st' ← wrap_words width st words; wrap_words width st' words'.
Proof.
  induction words as [|word rest IH]; intros st; cbn; [done|].
  destruct (wrap_word width st word) as [st'|]; cbn; [apply IH|done].
Qed.

(** X23. Only a word that starts the text, or follows a cut word, is cut: a word
    longer than the width that comes after shorter words is returned whole,
    as a line longer than the width. *)
Theorem wrapText_long_word_kept_whole (text long : string) (before : list string)
    (width : Z) :
  width < len text ->
  Fields text = before ++ [long] ->
  before <> [] ->
  Forall (fun word => 0 < len word < width) before ->
  width < len long ->
  exists lines, wrapText Fields text width = Some (lines ++ [long]) /\
                Forall (fun line => len line <= width) lines.
Proof.
  intros Htext Hfields Hne Hbefore Hlong. unfold wrapText.
  assert (1 < width) as Hwide.
  { destruct before as [|word0 before0]; [done|].
    apply Forall_cons in Hbefore as [Hword0 _]. lia. }
  destruct (Z.leb_spec (len text) width); [lia|].
  rewrite Hfields, wrap_words_app.
  destruct (wrap_words_pending width before [] ""%string Hbefore) as
    (lines & cur & Hrun & Hcur); [done|].
  assert (exists lines0 cur0, wrap_words width ([], ""%string) before = Some (lines0, cur0) /\
            Forall (fun line => len line <= width) lines0 /\ len cur0 <= width)
    as (lines0 & cur0 & Hrun0 & Hfit & Hcurfit).
  { clear Hrun Hcur lines cur.
    assert (forall lines currentLine,
              Forall (fun line => len line <= width) lines -> len currentLine <= width ->
              exists lines0 cur0,
                wrap_words width (lines, currentLine) before = Some (lines0, cur0) /\
                Forall (fun line => len line <= width) lines0 /\ len cur0 <= width) as Hgen.
    { clear Hne Hfields. induction before as [|word rest IH]; intros lines currentLine Hl Hc; cbn.
      { eauto. }
      apply Forall_cons in Hbefore as [Hword Hrest].
      destruct (Z.gtb_spec (len currentLine + len word + 1) width) as [Hover|Hfit].
      - rewrite eqb_empty. case_bool_decide as Hempty.
        { pose proof (len_nonneg currentLine). lia. }
        cbn. apply IH; [done| |lia]. apply Forall_app. split; [done|].
        by apply Forall_singleton.
      - rewrite eqb_empty. case_bool_decide as Hempty; cbn; apply IH; try done; try lia.
        rewrite !len_app. change (len " ") with 1. lia. }
    apply Hgen; [done|]. change (len "") with 0. lia. }
  rewrite Hrun in Hrun0. injection Hrun0 as <- <-.
  rewrite Hrun. cbn.
  destruct (Z.gtb_spec (len cur + len long + 1) width) as [_|Hfits].
  2: { pose proof (len_nonneg cur). lia. }
  destruct (String.eqb_spec cur ""%string) as [|_]; [done|]. cbn.
  destruct (String.eqb_spec long ""%string) as [->|_]; [change (len "") with 0 in Hlong; lia|].
  exists (lines ++ [cur]). split; [done|].
  apply Forall_app. split; [done|]. by apply Forall_singleton.
Qed.

End WrapTextProperties.

Lemma wrapText_fits_and_keeps_words_witness :
  3 <= 12 <= maxInt /\
  Forall (fun word => len word <= 12) (asciiFields "Go  developer and   tinkerer") /\
  exists lines,
    wrapText asciiFields "Go  developer and   tinkerer" 12 = Some lines /\
    Forall (fun line => len line <= 12) lines /\
    (12 < len "Go  developer and   tinkerer" ->
     Forall (fun word => 0 < len word < 12) (asciiFields "Go  developer and   tinkerer") ->
     String.concat " " lines
     = String.concat " " (asciiFields "Go  developer and   tinkerer")).
Proof.
  assert (3 <= 12 <= maxInt) as Hw by (unfold maxInt; lia).
  assert (Forall (fun word => len word <= 12) (asciiFields "Go  developer and   tinkerer"))
    as Hwords.
  { apply (bool_decide_unpack _). vm_compute. exact I. }
  split; [exact Hw|]. split; [exact Hwords|].
  exact (wrapText_fits_and_keeps_words asciiFields _ 12 Hw Hwords).
Defined.

Lemma wrapText_long_word_kept_whole_witness :
  10 < len "ab abcdefghijklmnop" /\
  asciiFields "ab abcdefghijklmnop" = ["ab"%string] ++ ["abcdefghijklmnop"%string] /\
  ["ab"%string] <> [] /\
  Forall (fun word => 0 < len word < 10) ["ab"%string] /\
  10 < len "abcdefghijklmnop" /\
  exists lines,
    wrapText asciiFields "ab abcdefghijklmnop" 10 = Some (lines ++ ["abcdefghijklmnop"%string]) /\
    Forall (fun line => len line <= 10) lines.
Proof.
  assert (10 < len "ab abcdefghijklmnop") as Ht by (vm_compute; done).
  assert (asciiFields "ab abcdefghijklmnop" = ["ab"%string] ++ ["abcdefghijklmnop"%string])
    as Hf by reflexivity.
  assert (["ab"%string] <> []) as Hne by discriminate.
  assert (Forall (fun word => 0 < len word < 10) ["ab"%string]) as Hb.
  { apply Forall_singleton. vm_compute. split; done. }
  assert (10 < len "abcdefghijklmnop") as Hl by (vm_compute; done).
  split; [exact Ht|]. split; [exact Hf|]. split; [exact Hne|]. split; [exact Hb|].
  split; [exact Hl|].
  exact (wrapText_long_word_kept_whole asciiFields _ _ _ 10 Ht Hf Hne Hb Hl).
Defined.

(** ** The height of the activity list *)

(** X24. The height of the activity viewport lies between 5 and 15 lines and
    never shrinks when the terminal grows; it is 5 up to a terminal height
    of 43, 15 from 53 on and [height - 38] in between. *)
Theorem calculateActivityViewportHeight_clamp (height height' : Z) :
  in_range height -> in_range height' -> height <= height' ->
  5 <= calculateActivityViewportHeight height /\
  calculateActivityViewportHeight height <= calculateActivityViewportHeight height' /\
  calculateActivityViewportHeight height' <= 15 /\
  (height <= 43 -> calculateActivityViewportHeight height = 5) /\
  (43 <= height <= 53 -> calculateActivityViewportHeight height = height - 38) /\
  (53 <= height -> calculateActivityViewportHeight height = 15).
Proof.
  intros Hr Hr' Hle.
  assert (forall h, in_range h ->
            calculateActivityViewportHeight h = Z.max 5 (Z.min 15 (h - 38))) as Heq.
  { intros h Hh. unfold calculateActivityViewportHeight, estimatedOtherContent, int_sub.
    destruct (Z.ltb_spec h 20); [lia|].
    rewrite wrap_small by (unfold in_range, minInt, maxInt in *; lia).
    destruct (Z.ltb_spec (h - 38) 5).
    - destruct (Z.gtb_spec 5 15); lia.
    - destruct (Z.gtb_spec (h - 38) 15); lia. }
  rewrite !Heq by done. lia.
Qed.

Lemma calculateActivityViewportHeight_clamp_witness :
  in_range 24 /\ in_range 50 /\ 24 <= 50 /\
  5 <= calculateActivityViewportHeight 24 /\
  calculateActivityViewportHeight 24 <= calculateActivityViewportHeight 50 /\
  calculateActivityViewportHeight 50 <= 15.
Proof.
  assert (in_range 24) as H1 by (unfold in_range, minInt, maxInt; lia).
  assert (in_range 50) as H2 by (unfold in_range, minInt, maxInt; lia).
  assert (24 <= 50) as H3 by lia.
  split; [exact H1|]. split; [exact H2|]. split; [exact H3|].
  destruct (calculateActivityViewportHeight_clamp 24 50 H1 H2 H3) as (Ha & Hb & Hc & _).
  split; [exact Ha|]. split; [exact Hb|exact Hc].
Defined.

(** ** Hexadecimal colours *)

Lemma get_is_Some (s : string) (n : nat) :
  is_Some (String.get n s) <-> (n < String.length s)%nat.
Proof.
  revert n. induction s as [|a s IH]; intros n; simpl.
  - split; [by intros [? ?]|lia].
  - destruct n as [|n]; [split; [lia|eauto]|]. rewrite IH. lia.
Qed.

Lemma byte_at_is_Some (s : string) (i : Z) :
  is_Some (byte_at s i) <-> 0 <= i < len s.
Proof.
  unfold byte_at, len. destruct (Z.leb_spec 0 i).
  - rewrite get_is_Some. lia.
  - split; [by intros [? ?]|lia].
Qed.

(** X25. [toHex] returns exactly on the values of a byte: a negative component
    or one above 255 indexes outside the sixteen digits and panics. *)
Theorem toHex_defined_iff (n : Z) : is_Some (toHex n) <-> 0 <= n <= 255.
Proof.
  unfold toHex.
  pose proof (byte_at_is_Some hexDigits (Z.quot n 16)) as Hq.
  pose proof (byte_at_is_Some hexDigits (Z.rem n 16)) as Hr.
  change (len hexDigits) with 16 in Hq, Hr.
  pose proof (Z.quot_rem' n 16) as Hn.
  split.
  - intros [s Hs].
    destruct (byte_at hexDigits (Z.quot n 16)) as [hi|]; [|done].
    destruct (byte_at hexDigits (Z.rem n 16)) as [lo|]; [|done].
    assert (0 <= Z.quot n 16 < 16) by (apply Hq; eauto).
    assert (0 <= Z.rem n 16 < 16) by (apply Hr; eauto). lia.
  - intros Hb.
    destruct (proj2 Hq) as [hi ->].
    { split; [apply Z.quot_pos; lia|apply Z.quot_lt_upper_bound; lia]. }
    destruct (proj2 Hr) as [lo ->]; [|by eexists].
    pose proof (Z.rem_bound_pos n 16). lia.
Qed.

Lemma toHex_parseHex_bytes :
  forallb (fun n => match toHex n with
                    | Some (String hi (String lo EmptyString)) =>
                        parseHex (String hi (String lo EmptyString)) =? n
                    | _ => false
                    end) (seqZ 0 256) = true.
Proof. vm_compute. reflexivity. Qed.

Lemma toHex_parseHex (n : Z) :
  0 <= n <= 255 ->
  exists hi lo, toHex n = Some (String hi (String lo EmptyString)) /\
                parseHex (String hi (String lo EmptyString)) = n.
Proof.
  intros Hn. pose proof toHex_parseHex_bytes as Hall.
  rewrite forallb_forall in Hall. specialize (Hall n).
  destruct (toHex n) as [[|hi [|lo [|]]]|].
  - discriminate Hall. apply list_elem_of_In, elem_of_seqZ. lia.
  - discriminate Hall. apply list_elem_of_In, elem_of_seqZ. lia.
  - exists hi, lo. split; [done|]. apply Z.eqb_eq, Hall.
    apply list_elem_of_In, elem_of_seqZ. lia.
  - discriminate Hall. apply list_elem_of_In, elem_of_seqZ. lia.
  - discriminate Hall. apply list_elem_of_In, elem_of_seqZ. lia.
Qed.

(** X26. A colour whose three components are bytes is written as [#] and six
    hexadecimal digits, and [parseHex] on the three pairs of digits, the
    slices that [generateShade] takes, gives the components back. *)
Theorem formatHex_parseHex_round_trip (r g b : Z) :
  0 <= r <= 255 -> 0 <= g <= 255 -> 0 <= b <= 255 ->
  exists s, formatHex r g b = Some s /\
    len s = 7 /\
    String.get 0 s = Some "#"%char /\
    parseHex (substring 1 2 s) = r /\
    parseHex (substring 3 2 s) = g /\
    parseHex (substring 5 2 s) = b.
Proof.
  intros Hr Hg Hb.
  destruct (toHex_parseHex r Hr) as (r1 & r2 & Hfr & Hpr).
  destruct (toHex_parseHex g Hg) as (g1 & g2 & Hfg & Hpg).
  destruct (toHex_parseHex b Hb) as (b1 & b2 & Hfb & Hpb).
  unfold formatHex. rewrite Hfr, Hfg, Hfb. cbn [mbind option_bind].
  eexists. split; [reflexivity|].
  split; [reflexivity|]. split; [reflexivity|].
  split; [exact Hpr|]. split; [exact Hpg|exact Hpb].
Qed.

Lemma formatHex_parseHex_round_trip_witness :
  0 <= 57 <= 255 /\ 0 <= 211 <= 255 /\ 0 <= 83 <= 255 /\
  formatHex 57 211 83 = Some "#39D353"%string /\
  parseHex "39" = 57 /\ parseHex "D3" = 211 /\ parseHex "53" = 83.
Proof.
  assert (0 <= 57 <= 255) as Hr by lia.
  assert (0 <= 211 <= 255) as Hg by lia.
  assert (0 <= 83 <= 255) as Hb by lia.
  split; [exact Hr|]. split; [exact Hg|]. split; [exact Hb|].
  destruct (formatHex_parseHex_round_trip 57 211 83 Hr Hg Hb)
    as (s & Hs & _ & _ & Hpr & Hpg & Hpb).
  assert (s = "#39D353"%string) as ->.
  { revert Hs. vm_compute. by intros [= <-]. }
  split; [exact Hs|]. split; [exact Hpr|]. split; [exact Hpg|exact Hpb].
Defined.

(** ** Cycling through the themes *)

Lemma name_in_spec (name : string) (names : list string) :
  Themes.name_in name names = true <-> name ∈ names.
Proof.
  induction names as [|n names IH]; cbn.
  - split; [done|]. intros H. by apply elem_of_nil in H.
  - rewrite elem_of_cons. destruct (String.eqb_spec name n) as [->|Hne].
    + split; [by left|done].
    + rewrite IH. split; [by right|]. by intros [?|?].
Qed.

Lemma find_current_range (current : string) (names : list string) (i : Z) :
  0 <= i ->
  0 <= Themes.find_current current names i < Z.max 1 (i + Z.of_nat (length names)).
Proof.
  revert i. induction names as [|n names IH]; intros i Hi; cbn [Themes.find_current length].
  - lia.
  - destruct (String.eqb n current); [lia|].
    specialize (IH (i + 1) ltac:(lia)). lia.
Qed.

Lemma find_current_first (current : string) (names : list string) (i : Z) (k : nat) :
  names !! k = Some current ->
  (forall j, (j < k)%nat -> names !! j <> Some current) ->
  Themes.find_current current names i = i + Z.of_nat k.
Proof.
  revert i k. induction names as [|n names IH]; intros i k Hk Hfirst; [done|].
  cbn [Themes.find_current]. destruct k as [|k].
  - injection Hk as ->. rewrite String.eqb_refl. lia.
  - destruct (String.eqb_spec n current) as [->|_].
    + by destruct (Hfirst 0%nat ltac:(lia)).
    + rewrite (IH (i + 1) k); [lia|done|].
      intros j Hj. apply (Hfirst (S j)). lia.
Qed.

Lemma find_current_NoDup (current : string) (names : list string) (k : nat) :
  NoDup names -> names !! k = Some current ->
  Themes.find_current current names 0 = Z.of_nat k.
Proof.
  intros Hnd Hk. rewrite (find_current_first current names 0 k); [lia|done|].
  intros j Hj Hj'. pose proof (NoDup_lookup _ _ _ _ Hnd Hk Hj'). lia.
Qed.

(** X27. [NextTheme] panics exactly when the cycling order is empty (the
    remainder by its length is a division by zero); otherwise it returns a
    name of the order and makes it the current one. *)
Theorem NextTheme_panics_iff_no_order (g : Themes.Globals) :
  (Themes.NextTheme g = None <-> Themes.themeOrder g = []) /\
  (forall name g', Themes.NextTheme g = Some (name, g') ->
     name ∈ Themes.themeOrder g /\ Themes.currentThemeName g' = name /\
     Themes.themeOrder g' = Themes.themeOrder g /\ Themes.themes g' = Themes.themes g).
Proof.
  unfold Themes.NextTheme, Themes.int_rem, Themes.index_at.
  pose proof (find_current_range (Themes.currentThemeName g) (Themes.themeOrder g) 0
                ltac:(lia)) as Hrange.
  set (i := Themes.find_current _ _ 0) in *.
  set (names := Themes.themeOrder g) in *.
  destruct (Z.eqb_spec (Z.of_nat (length names)) 0) as [Hzero|Hpos].
  { assert (names = []) as -> by (apply length_zero_iff_nil; lia).
    cbn [mbind option_bind]. split; [done|]. intros ? ? [=]. }
  assert (names <> []) as Hne by (intros E; rewrite E in Hpos; done).
  cbn [mbind option_bind].
  pose proof (Z.rem_bound_pos (i + 1) (Z.of_nat (length names)) ltac:(lia) ltac:(lia))
    as Hrem.
  destruct (Z.leb_spec 0 (Z.rem (i + 1) (Z.of_nat (length names)))) as [_|]; [|lia].
  destruct (lookup_lt_is_Some_2 names (Z.to_nat (Z.rem (i + 1) (Z.of_nat (length names))))
              ltac:(lia)) as [name Hname].
  rewrite Hname. cbn [mbind option_bind]. split; [done|].
  intros ? ? [= <- <-]. cbn. split; [|done].
  by eapply list_elem_of_lookup_2.
Qed.

Lemma NextTheme_at (g : Themes.Globals) (k : nat) :
  NoDup (Themes.themeOrder g) ->
  Themes.themeOrder g !! k = Some (Themes.currentThemeName g) ->
  exists name g',
    Themes.NextTheme g = Some (name, g') /\
    Themes.themeOrder g' = Themes.themeOrder g /\
    Themes.themes g' = Themes.themes g /\
    Themes.currentThemeName g' = name /\
    Themes.themeOrder g !! ((k + 1) mod length (Themes.themeOrder g))%nat = Some name.
Proof.
  intros Hnd Hk. unfold Themes.NextTheme, Themes.int_rem, Themes.index_at.
  rewrite (find_current_NoDup _ _ k Hnd Hk).
  pose proof (lookup_lt_Some _ _ _ Hk) as Hlt.
  set (n := length (Themes.themeOrder g)) in *.
  destruct (Z.eqb_spec (Z.of_nat n) 0) as [|_]; [lia|]. cbn [mbind option_bind].
  assert (Z.rem (Z.of_nat k + 1) (Z.of_nat n) = Z.of_nat ((k + 1) mod n)) as ->.
  { rewrite Z.rem_mod_nonneg by lia. rewrite Nat2Z.inj_mod. f_equal. lia. }
  destruct (Z.leb_spec 0 (Z.of_nat ((k + 1) mod n))) as [_|]; [|lia].
  rewrite Nat2Z.id.
  destruct (lookup_lt_is_Some_2 (Themes.themeOrder g) ((k + 1) mod n)) as [name Hname].
  { apply Nat.mod_upper_bound. lia. }
  rewrite Hname. cbn [mbind option_bind]. eexists _, _. split; [done|]. cbn. done.
Qed.

Lemma mod_add_length (k n : nat) : (k < n)%nat -> ((k + n) mod n)%nat = k.
Proof. intros Hk. symmetry. apply (Nat.mod_unique (k + n) n 1 k); lia. Qed.

Lemma NextTheme_times_at (steps : nat) : forall (g : Themes.Globals) (k : nat),
  NoDup (Themes.themeOrder g) ->
  Themes.themeOrder g !! k = Some (Themes.currentThemeName g) ->
  exists g',
    Themes.NextTheme_times steps g = Some g' /\
    Themes.themeOrder g' = Themes.themeOrder g /\
    Themes.themes g' = Themes.themes g /\
    Themes.themeOrder g !! ((k + steps) mod length (Themes.themeOrder g))%nat
      = Some (Themes.currentThemeName g').
Proof.
  induction steps as [|steps IH]; intros g k Hnd Hk; cbn [Themes.NextTheme_times].
  - exists g. split; [done|]. split; [done|]. split; [done|].
    pose proof (lookup_lt_Some _ _ _ Hk).
    rewrite Nat.add_0_r, Nat.mod_small by done. done.
  - destruct (NextTheme_at g k Hnd Hk) as (name & g1 & -> & Ho & Ht & Hc & Hname).
    cbn. destruct (IH g1 ((k + 1) mod length (Themes.themeOrder g))%nat)
      as (g' & Hrun & Ho' & Ht' & Hat).
    { by rewrite Ho. } { by rewrite Ho, Hc. }
    exists g'. split; [done|]. split; [congruence|]. split; [congruence|].
    rewrite Ho in Hat. rewrite <- Hat. f_equal.
    pose proof (lookup_lt_Some _ _ _ Hk).
    rewrite Nat.Div0.add_mod_idemp_l. f_equal. lia.
Qed.

(** X28. When the order has no repetition and contains the current theme,
    pressing [t] as many times as there are themes comes back to the current
    theme, and every theme of the order is reached on the way. *)
Theorem NextTheme_cycles_through_all (g : Themes.Globals) :
  NoDup (Themes.themeOrder g) ->
  Themes.currentThemeName g ∈ Themes.themeOrder g ->
  (exists g', Themes.NextTheme_times (length (Themes.themeOrder g)) g = Some g' /\
     Themes.currentThemeName g' = Themes.currentThemeName g /\
     Themes.themeOrder g' = Themes.themeOrder g) /\
  (forall name, name ∈ Themes.themeOrder g ->
     exists steps g', (steps < length (Themes.themeOrder g))%nat /\
       Themes.NextTheme_times steps g = Some g' /\
       Themes.currentThemeName g' = name).
Proof.
  intros Hnd Hin. apply list_elem_of_lookup in Hin as [k Hk].
  pose proof (lookup_lt_Some _ _ _ Hk) as Hlt.
  set (n := length (Themes.themeOrder g)) in *.
  split.
  - destruct (NextTheme_times_at n g k Hnd Hk) as (g' & Hrun & Ho & _ & Hat).
    exists g'. split; [done|]. split; [|done].
    fold n in Hat.
    rewrite mod_add_length in Hat by done. congruence.
  - intros name Hname. apply list_elem_of_lookup in Hname as [j Hj].
    pose proof (lookup_lt_Some _ _ _ Hj) as Hjlt. fold n in Hjlt.
    exists ((j + n - k) mod n)%nat.
    destruct (NextTheme_times_at ((j + n - k) mod n)%nat g k Hnd Hk)
      as (g' & Hrun & _ & _ & Hat).
    exists g'. split; [apply Nat.mod_upper_bound; lia|]. split; [done|].
    fold n in Hat.
    rewrite Nat.Div0.add_mod_idemp_r in Hat.
    replace (k + (j + n - k))%nat with (j + n)%nat in Hat by lia.
    rewrite mod_add_length in Hat by done. congruence.
Qed.

Lemma NextTheme_cycles_through_all_witness :
  NoDup (Themes.themeOrder Themes.dracula_selected) /\
  Themes.currentThemeName Themes.dracula_selected
    ∈ Themes.themeOrder Themes.dracula_selected /\
  exists g', Themes.NextTheme_times 3 Themes.dracula_selected = Some g' /\
    Themes.currentThemeName g' = "dracula"%string.
Proof.
  assert (NoDup (Themes.themeOrder Themes.dracula_selected)) as Hnd.
  { apply (bool_decide_unpack _). vm_compute. exact I. }
  assert (Themes.currentThemeName Themes.dracula_selected
            ∈ Themes.themeOrder Themes.dracula_selected) as Hin.
  { apply (bool_decide_unpack _). vm_compute. exact I. }
  split; [exact Hnd|]. split; [exact Hin|].
  destruct (NextTheme_cycles_through_all Themes.dracula_selected Hnd Hin)
    as [(g' & Hrun & Hname & _) _].
  exists g'. split; [exact Hrun|exact Hname].
Defined.

(** ** Building the order *)

Section ThemeOrder.

Variable range_themes : gmap string Themes.Theme -> list (string * Themes.Theme).
Variable loadedThemes : option (gmap string Themes.Theme).

Hypothesis range_themes_order : forall m, range_themes m ≡ₚ map_to_list m.

Lemma range_names (m : gmap string Themes.Theme) :
  NoDup (range_themes m).*1 /\
  forall name, name ∈ (range_themes m).*1 <-> is_Some (m !! name).
Proof.
  split.
  - rewrite (range_themes_order m). apply NoDup_fst_map_to_list.
  - intros name. rewrite (range_themes_order m), list_elem_of_fmap. split.
    + intros ([n t] & -> & Hin). apply elem_of_map_to_list in Hin. cbn. eauto.
    + intros [t Ht]. exists (name, t). split; [done|]. by apply elem_of_map_to_list.
Qed.

Lemma register_keeps (entries : list (string * Themes.Theme)) :
  forall (registry : gmap string Themes.Theme) name theme,
  registry !! name = Some theme ->
  foldl Themes.register registry entries !! name = Some theme.
Proof.
  induction entries as [|[n t] entries IH]; intros registry name theme Hreg; cbn; [done|].
  apply IH. destruct (registry !! n) eqn:E; [done|].
  rewrite lookup_insert_ne; [done|]. intros ->. congruence.
Qed.

Lemma loadExternalThemes_keeps (g : Themes.Globals) name theme :
  Themes.themes g !! name = Some theme ->
  Themes.themes (Themes.loadExternalThemes range_themes loadedThemes g) !! name = Some theme.
Proof.
  intros Hreg. unfold Themes.loadExternalThemes.
  destruct loadedThemes as [loaded|]; [|done]. cbn. by apply register_keeps.
Qed.

Lemma collect_other_filter (names : list string) : forall others,
  foldl Themes.collect_other others names
  = others ++ filter (fun name => Themes.name_in name Themes.builtInThemes = false) names.
Proof.
  induction names as [|n names IH]; intros others; cbn [foldl].
  - by rewrite filter_nil, app_nil_r.
  - rewrite IH, filter_cons. unfold Themes.collect_other.
    destruct (Themes.name_in n Themes.builtInThemes); case_decide; try done.
    by rewrite <- app_assoc.
Qed.

Lemma buildThemeOrder_order (g : Themes.Globals) :
  let g' := Themes.buildThemeOrder range_themes g in
  Themes.themes g' = Themes.themes g /\
  NoDup (Themes.themeOrder g') /\
  (exists others, Themes.themeOrder g' = Themes.builtInThemes ++ others /\
                  Sorted Themes.string_le others) /\
  (forall name, name ∈ Themes.themeOrder g' <->
     name ∈ Themes.builtInThemes \/ is_Some (Themes.themes g !! name)).
Proof.
  intros g'. subst g'. unfold Themes.buildThemeOrder.
  cbn [Themes.themes Themes.themeOrder].
  destruct (range_names (Themes.themes g)) as [Hnd Hin].
  rewrite collect_other_filter. rewrite (app_nil_l (filter _ _)).
  set (others := filter _ _).
  assert (forall name, name ∈ Themes.sort_Strings others <->
            (name ∉ Themes.builtInThemes) /\ is_Some (Themes.themes g !! name)) as Hothers.
  { intros name. unfold Themes.sort_Strings. rewrite merge_sort_Permutation.
    unfold others. rewrite list_elem_of_filter, Hin, <- name_in_spec.
    destruct (Themes.name_in name Themes.builtInThemes); split; intros [? ?]; done. }
  split; [done|]. split; [|split].
  - apply NoDup_app. split; [|split].
    + apply (bool_decide_unpack _). vm_compute. exact I.
    + intros name Hb Ho. apply Hothers in Ho as [Hnot _]. done.
    + unfold Themes.sort_Strings. rewrite merge_sort_Permutation.
      by apply NoDup_filter.
  - eexists. split; [done|]. unfold Themes.sort_Strings.
    apply Sorted_merge_sort. intros s t. unfold Themes.string_le.
    apply String.leb_total.
  - intros name. rewrite elem_of_app, Hothers.
    destruct (decide (name ∈ Themes.builtInThemes)); split; intros; tauto.
Qed.

Lemma InitTheme_establishes (GITTUI_THEME : string) (g : Themes.Globals) :
  let g' := Themes.InitTheme range_themes loadedThemes GITTUI_THEME g in
  NoDup (Themes.themeOrder g') /\
  Themes.currentThemeName g' ∈ Themes.themeOrder g' /\
  (exists others, Themes.themeOrder g' = Themes.builtInThemes ++ others /\
                  Sorted Themes.string_le others) /\
  (forall name, name ∈ Themes.themeOrder g' <->
     name ∈ Themes.builtInThemes \/ is_Some (Themes.themes g' !! name)) /\
  (forall name theme, Themes.themes g !! name = Some theme ->
     Themes.themes g' !! name = Some theme).
Proof.
  intros g'. subst g'. unfold Themes.InitTheme.
  set (g1 := Themes.loadExternalThemes range_themes loadedThemes g).
  destruct (buildThemeOrder_order g1) as (Hthemes & Hnd & Hshape & Hin).
  set (g2 := Themes.buildThemeOrder range_themes g1) in *.
  set (themeName := if String.eqb GITTUI_THEME "" then _ else _).
  assert (forall name theme, Themes.themes g !! name = Some theme ->
            Themes.themes g2 !! name = Some theme) as Hkeep.
  { intros name theme Hreg. rewrite Hthemes. by apply loadExternalThemes_keeps. }
  destruct (Themes.themes g2 !! themeName) as [theme|] eqn:Hlookup;
    cbn [Themes.themes Themes.themeOrder Themes.currentThemeName].
  - split; [done|]. split; [|split; [done|split; [|done]]].
    + apply Hin. right. rewrite <- Hthemes, Hlookup. eauto.
    + intros name. rewrite Hin, Hthemes. done.
  - split; [done|]. split; [|split; [done|split; [|done]]].
    + apply Hin. left. apply (bool_decide_unpack _). vm_compute. exact I.
    + intros name. rewrite Hin, Hthemes. done.
Qed.

End ThemeOrder.

(** X29. After [InitTheme], whatever the environment variable, the themes read
    from disk and the order of iteration over the maps: the order starts
    with the three built-in themes, continues with the other registered
    names in ascending order and has no repetition; it lists exactly the
    built-in and the registered names; the themes registered before are
    still registered unchanged. *)
Theorem InitTheme_order
    (range_themes : gmap string Themes.Theme -> list (string * Themes.Theme))
    (loadedThemes : option (gmap string Themes.Theme))
    (GITTUI_THEME : string) (g : Themes.Globals) :
  (forall m, range_themes m ≡ₚ map_to_list m) ->
  let g' := Themes.InitTheme range_themes loadedThemes GITTUI_THEME g in
  NoDup (Themes.themeOrder g') /\
  (exists others, Themes.themeOrder g' = Themes.builtInThemes ++ others /\
                  Sorted Themes.string_le others) /\
  (forall name, name ∈ Themes.themeOrder g' <->
     name ∈ Themes.builtInThemes \/ is_Some (Themes.themes g' !! name)) /\
  (forall name theme, Themes.themes g !! name = Some theme ->
     Themes.themes g' !! name = Some theme).
Proof.
  intros Horder g'.
  destruct (InitTheme_establishes range_themes loadedThemes Horder GITTUI_THEME g)
    as (Hnd & _ & Hshape & Hin & Hkeep).
  done.
Qed.

(** X30. After [InitTheme] the current theme is in the order, so [NextTheme]
    never panics and cycles: as many calls as there are themes, at least
    three, come back to the theme that [InitTheme] selected. *)
Theorem InitTheme_then_NextTheme_cycles
    (range_themes : gmap string Themes.Theme -> list (string * Themes.Theme))
    (loadedThemes : option (gmap string Themes.Theme))
    (GITTUI_THEME : string) (g : Themes.Globals) :
  (forall m, range_themes m ≡ₚ map_to_list m) ->
  let g' := Themes.InitTheme range_themes loadedThemes GITTUI_THEME g in
  Themes.currentThemeName g' ∈ Themes.themeOrder g' /\
  (3 <= length (Themes.themeOrder g'))%nat /\
  (forall steps, is_Some (Themes.NextTheme_times steps g')) /\
  exists g'', Themes.NextTheme_times (length (Themes.themeOrder g')) g' = Some g'' /\
     Themes.currentThemeName g'' = Themes.currentThemeName g'.
Proof.
  intros Horder g'.
  destruct (InitTheme_establishes range_themes loadedThemes Horder GITTUI_THEME g)
    as (Hnd & Hin & Hshape & _).
  fold g' in Hnd, Hin, Hshape.
  split; [done|].
  apply list_elem_of_lookup in Hin as [k Hk].
  split; [|split].
  - destruct Hshape as (others & -> & _). rewrite length_app. cbn. lia.
  - intros steps. destruct (NextTheme_times_at steps g' k Hnd Hk) as (g'' & -> & _). done.
  - destruct (NextTheme_times_at (length (Themes.themeOrder g')) g' k Hnd Hk)
      as (g'' & Hrun & _ & _ & Hat).
    exists g''. split; [done|].
    pose proof (lookup_lt_Some _ _ _ Hk) as Hlt.
    rewrite mod_add_length in Hat by done. congruence.
Qed.

Lemma listing_order_ok (m : gmap string Themes.Theme) :
  Themes.listing_order m ≡ₚ map_to_list m.
Proof. done. Qed.

Lemma InitTheme_order_witness :
  (forall m, Themes.listing_order m ≡ₚ map_to_list m) /\
  let g' := Themes.InitTheme Themes.listing_order Themes.one_theme_on_disk "nord"
              Themes.startup in
  NoDup (Themes.themeOrder g') /\
  (exists others, Themes.themeOrder g' = Themes.builtInThemes ++ others /\
                  Sorted Themes.string_le others) /\
  (forall name, name ∈ Themes.themeOrder g' <->
     name ∈ Themes.builtInThemes \/ is_Some (Themes.themes g' !! name)) /\
  (forall name theme, Themes.themes Themes.startup !! name = Some theme ->
     Themes.themes g' !! name = Some theme).
Proof.
  split; [exact listing_order_ok|].
  exact (InitTheme_order Themes.listing_order Themes.one_theme_on_disk "nord"
           Themes.startup listing_order_ok).
Defined.

Lemma InitTheme_then_NextTheme_cycles_witness :
  (forall m, Themes.listing_order m ≡ₚ map_to_list m) /\
  let g' := Themes.InitTheme Themes.listing_order Themes.one_theme_on_disk "solarized"
              Themes.startup in
  Themes.currentThemeName g' ∈ Themes.themeOrder g' /\
  (3 <= length (Themes.themeOrder g'))%nat /\
  (forall steps, is_Some (Themes.NextTheme_times steps g')) /\
  exists g'', Themes.NextTheme_times (length (Themes.themeOrder g')) g' = Some g'' /\
     Themes.currentThemeName g'' = Themes.currentThemeName g'.
Proof.
  split; [exact listing_order_ok|].
  exact (InitTheme_then_NextTheme_cycles Themes.listing_order Themes.one_theme_on_disk
           "solarized" Themes.startup listing_order_ok).
Defined.
